(** * R1-create.js: the LLM / plugin messaging module

    A shallow embedding of the class [R1Messaging]: the outbound dispatcher
    ([sendMessage] and its wrappers [askLLM], [askLLMSpeak], [askLLMJSON],
    and [closePlugin]), the listener set ([onMessage], [offMessage],
    [removeAllHandlers]) and the inbound multiplexer, the closure that
    [initializeMessageHandler] assigns to [window.onPluginMessage]; and of
    the class [LLMHelpers], whose methods word a request and hand it to
    [askLLMJSON] or [askLLMSpeak].

    The parts of the JavaScript run time that the class calls are modelled
    after ECMA-262:
    - a string is its sequence of UTF-16 code units;
    - a plain object is the list of its properties in insertion order;
    - [JSON.stringify] and [JSON.parse] are written out (a number is kept as
      a decimal [m * 10^e], its rounding to binary64 is left out);
    - a [Set] is its list of entries, where a deleted entry stays behind as
      an empty place, and [forEach] walks that list by index while the
      callback may change it;
    - an [async] method is the promise it returns, settled by the call's
      own run: these methods await nothing but one another.

    The state is a [World]: which host globals exist, the instances made so
    far, the enhanced delivery objects made so far, and the trace of what
    the host, the console and the listeners have been handed.  A listener
    is known by its reference; what it does when called is a list of calls
    into this module that may end in a [throw], chosen from the delivery it
    receives and the world it is called in.  A loop that listeners can keep
    feeding has a bound on its steps ([fuel]). *)

From Stdlib Require Import List NArith ZArith Bool Ascii String Lia Arith.
Import ListNotations.

Set Warnings "-register-all".
Local Open Scope N_scope.
Local Open Scope list_scope.

(** ** JavaScript strings *)

(** A JavaScript string is a finite sequence of UTF-16 code units. *)
Definition jstring := list N.

(** A source-code string literal (ASCII) as a JavaScript string. *)
Definition lit (s : string) : jstring :=
  map N_of_ascii (list_ascii_of_string s).

(** The same, with every apostrophe read as a double quote (for writing
    JSON texts). *)
Definition litq (s : string) : jstring :=
  map (fun c => let n := N_of_ascii c in if n =? 39 then 34 else n)
      (list_ascii_of_string s).

Fixpoint jstring_eqb (a b : jstring) : bool :=
  match a, b with
  | [], [] => true
  | x :: a', y :: b' => (x =? y) && jstring_eqb a' b'
  | _, _ => false
  end.

Fixpoint starts_with (p s : jstring) : bool :=
  match p, s with
  | [], _ => true
  | x :: p', y :: s' => (x =? y) && starts_with p' s'
  | _ :: _, [] => false
  end.

(** [String.prototype.includes]: is [p] a contiguous run of code units of
    [s]?  (Search from position 0.) *)
Fixpoint includes (s p : jstring) : bool :=
  starts_with p s ||
  match s with
  | [] => false
  | _ :: s' => includes s' p
  end.

(** ** JavaScript values and plain objects *)

(** The values that occur in this module: [undefined], and the JSON
    documents.  A number [JNum m e] is the decimal [m * 10^e]; rounding to
    binary64 is not modelled. *)
Inductive JsVal : Type :=
| JUndefined
| JNull
| JBool (b : bool)
| JNum (m e : Z)
| JStr (s : jstring)
| JArr (items : list JsVal)
| JObj (props : list (jstring * JsVal)).

(** A plain object: its own enumerable string-keyed properties, in
    insertion order.  (An engine lists integer-like keys first; no object
    of this module has one.) *)
Definition Obj := list (jstring * JsVal).

(** Reading a property: [undefined] when the object has none of that
    name. *)
Fixpoint obj_get (o : Obj) (k : jstring) : JsVal :=
  match o with
  | [] => JUndefined
  | (k', v) :: o' => if jstring_eqb k' k then v else obj_get o' k
  end.

(** Defining a property: an existing key keeps its place and takes the new
    value, a new key goes last. *)
Fixpoint obj_set (o : Obj) (k : jstring) (v : JsVal) : Obj :=
  match o with
  | [] => [(k, v)]
  | (k', v') :: o' =>
      if jstring_eqb k' k then (k', v) :: o' else (k', v') :: obj_set o' k v
  end.

(** Object spread [{ ...target, ...source }]: every own property of [source]
    is defined on [target], in order. *)
Definition obj_spread (target source : Obj) : Obj :=
  fold_left (fun acc p => obj_set acc (fst p) (snd p)) source target.

(** ** [JSON.stringify] *)

Definition is_lead (c : N) : bool := (0xD800 <=? c) && (c <=? 0xDBFF).
Definition is_trail (c : N) : bool := (0xDC00 <=? c) && (c <=? 0xDFFF).

Definition hex_digit (d : N) : N := if d <? 10 then 48 + d else 87 + d.

(** [\uXXXX] with lower-case hexadecimal digits. *)
Definition unicode_escape (c : N) : jstring :=
  [92; 117; hex_digit ((c / 4096) mod 16); hex_digit ((c / 256) mod 16);
   hex_digit ((c / 16) mod 16); hex_digit (c mod 16)].

(** One code unit that is not the first half of a surrogate pair. *)
Definition quote_unit (c : N) : jstring :=
  if c =? 8 then [92; 98]
  else if c =? 9 then [92; 116]
  else if c =? 10 then [92; 110]
  else if c =? 12 then [92; 102]
  else if c =? 13 then [92; 114]
  else if c =? 34 then [92; 34]
  else if c =? 92 then [92; 92]
  else if (c <? 32) || is_lead c || is_trail c then unicode_escape c
  else [c].

(** The body of [QuoteJSONString]: a well-formed surrogate pair is copied,
    a lone surrogate is escaped. *)
Fixpoint quote_units (s : jstring) : jstring :=
  match s with
  | [] => []
  | c :: t =>
      if is_lead c then
        match t with
        | d :: t' =>
            if is_trail d then c :: d :: quote_units t'
            else unicode_escape c ++ quote_units t
        | [] => unicode_escape c
        end
      else quote_unit c ++ quote_units t
  end.

Definition QuoteJSONString (s : jstring) : jstring :=
  34 :: quote_units s ++ [34].

Fixpoint join (sep : jstring) (parts : list jstring) : jstring :=
  match parts with
  | [] => []
  | [p] => p
  | p :: ps => p ++ sep ++ join sep ps
  end.

(** Decimal digits of a natural number, most significant first. *)
Fixpoint uint_digits (d : Decimal.uint) : jstring :=
  match d with
  | Decimal.Nil => []
  | Decimal.D0 r => 48 :: uint_digits r
  | Decimal.D1 r => 49 :: uint_digits r
  | Decimal.D2 r => 50 :: uint_digits r
  | Decimal.D3 r => 51 :: uint_digits r
  | Decimal.D4 r => 52 :: uint_digits r
  | Decimal.D5 r => 53 :: uint_digits r
  | Decimal.D6 r => 54 :: uint_digits r
  | Decimal.D7 r => 55 :: uint_digits r
  | Decimal.D8 r => 56 :: uint_digits r
  | Decimal.D9 r => 57 :: uint_digits r
  end.

Definition digits_of (n : N) : jstring := uint_digits (N.to_uint n).

(** Drop the zeros at the end of a digit string, counting them. *)
Definition strip_zeros (ds : jstring) : jstring * Z :=
  let fix go (r : jstring) (k : Z) : jstring * Z :=
    match r with
    | 48 :: r' => go r' (k + 1)%Z
    | _ => (rev r, k)
    end in
  go (rev ds) 0%Z.

Definition zeros (n : Z) : jstring := repeat 48 (Z.to_nat n).

Definition exponent_part (x : Z) : jstring :=
  101 :: (if (0 <=? x)%Z then 43 else 45) :: digits_of (Z.abs_N x).

(** [Number::toString] (radix 10) of the positive decimal [m * 10^e]. *)
Definition positive_to_string (m : N) (e : Z) : jstring :=
  let '(s, z) := strip_zeros (digits_of m) in
  let k := Z.of_nat (List.length s) in
  let n := (k + e + z)%Z in
  if ((k <=? n) && (n <=? 21))%Z then s ++ zeros (n - k)
  else if ((0 <? n) && (n <=? 21))%Z then
    firstn (Z.to_nat n) s ++ [46] ++ skipn (Z.to_nat n) s
  else if ((-6 <? n) && (n <=? 0))%Z then [48; 46] ++ zeros (- n) ++ s
  else
    match s with
    | [d] => d :: exponent_part (n - 1)
    | d :: ds => d :: 46 :: ds ++ exponent_part (n - 1)
    | [] => []
    end.

Definition number_to_string (m e : Z) : jstring :=
  match m with
  | Z0 => [48]
  | Zpos p => positive_to_string (Npos p) e
  | Zneg p => 45 :: positive_to_string (Npos p) e
  end.

Section Serialize.
Variable ser : JsVal -> option jstring.

(** Array elements: [undefined] is written [null]. *)
Fixpoint elements (l : list JsVal) : list jstring :=
  match l with
  | [] => []
  | x :: l' =>
      match ser x with
      | Some t => t
      | None => lit "null"
      end :: elements l'
  end.

(** Object members: a property holding [undefined] is left out. *)
Fixpoint members (l : list (jstring * JsVal)) : list jstring :=
  match l with
  | [] => []
  | (k, x) :: l' =>
      match ser x with
      | Some t => (QuoteJSONString k ++ 58 :: t) :: members l'
      | None => members l'
      end
  end.
End Serialize.

(** [SerializeJSONProperty] without replacer and without indentation.
    [None] is the [undefined] result. *)
Fixpoint SerializeJSONProperty (v : JsVal) : option jstring :=
  match v with
  | JUndefined => None
  | JNull => Some (lit "null")
  | JBool true => Some (lit "true")
  | JBool false => Some (lit "false")
  | JNum m e => Some (number_to_string m e)
  | JStr s => Some (QuoteJSONString s)
  | JArr items =>
      Some (91 :: join [44] (elements SerializeJSONProperty items) ++ [93])
  | JObj props =>
      Some (123 :: join [44] (members SerializeJSONProperty props) ++ [125])
  end.

Definition JSON_stringify (v : JsVal) : option jstring :=
  SerializeJSONProperty v.

(** ** [JSON.parse] *)

Definition is_ws (c : N) : bool :=
  (c =? 32) || (c =? 9) || (c =? 10) || (c =? 13).

Fixpoint skip_ws (s : jstring) : jstring :=
  match s with
  | c :: t => if is_ws c then skip_ws t else s
  | [] => []
  end.

Definition hex_val (c : N) : option N :=
  if (48 <=? c) && (c <=? 57) then Some (c - 48)
  else if (97 <=? c) && (c <=? 102) then Some (c - 87)
  else if (65 <=? c) && (c <=? 70) then Some (c - 55)
  else None.

Definition hex4 (a b c d : N) : option N :=
  match hex_val a, hex_val b, hex_val c, hex_val d with
  | Some x, Some y, Some z, Some w => Some (x * 4096 + y * 256 + z * 16 + w)
  | _, _, _, _ => None
  end.

Definition simple_escape (c : N) : option N :=
  if c =? 34 then Some 34
  else if c =? 92 then Some 92
  else if c =? 47 then Some 47
  else if c =? 98 then Some 8
  else if c =? 102 then Some 12
  else if c =? 110 then Some 10
  else if c =? 114 then Some 13
  else if c =? 116 then Some 9
  else None.

Definition cons_unit (c : N) (r : option (jstring * jstring))
  : option (jstring * jstring) :=
  match r with
  | Some (s, rest) => Some (c :: s, rest)
  | None => None
  end.

(** The characters of a string literal, after its opening quote, up to and
    including the closing quote. *)
Fixpoint parse_chars (s : jstring) : option (jstring * jstring) :=
  match s with
  | [] => None
  | c :: t =>
      if c =? 34 then Some ([], t)
      else if c =? 92 then
        match t with
        | [] => None
        | e :: t1 =>
            if e =? 117 then
              match t1 with
              | h1 :: h2 :: h3 :: h4 :: t2 =>
                  match hex4 h1 h2 h3 h4 with
                  | Some v => cons_unit v (parse_chars t2)
                  | None => None
                  end
              | _ => None
              end
            else
              match simple_escape e with
              | Some v => cons_unit v (parse_chars t1)
              | None => None
              end
        end
      else if c <? 32 then None
      else cons_unit c (parse_chars t)
  end.

Definition is_digit (c : N) : bool := (48 <=? c) && (c <=? 57).

(** Read a run of digits: the number read so far, how many digits were
    read, and the rest. *)
Fixpoint take_digits (s : jstring) (acc : Z) (n : Z) : Z * Z * jstring :=
  match s with
  | c :: t =>
      if is_digit c then take_digits t (acc * 10 + Z.of_N (c - 48))%Z (n + 1)%Z
      else (acc, n, s)
  | [] => (acc, n, s)
  end.

Definition parse_exponent (s : jstring) : option (Z * jstring) :=
  match s with
  | c :: t =>
      if (c =? 101) || (c =? 69) then
        let '(neg, t') :=
          match t with
          | sg :: t1 =>
              if sg =? 45 then (true, t1)
              else if sg =? 43 then (false, t1) else (false, t)
          | [] => (false, t)
          end in
        let '(x, n, r) := take_digits t' 0%Z 0%Z in
        if (n =? 0)%Z then None
        else Some (if neg then (- x)%Z else x, r)
      else Some (0%Z, s)
  | [] => Some (0%Z, s)
  end.

Definition parse_fraction (s : jstring) (m : Z) : option (Z * Z * jstring) :=
  match s with
  | c :: t =>
      if c =? 46 then
        let '(x, n, r) := take_digits t m 0%Z in
        if (n =? 0)%Z then None else Some (x, n, r)
      else Some (m, 0%Z, s)
  | [] => Some (m, 0%Z, s)
  end.

(** A JSON number: [-]? int frac? exp?, where int has no leading zero. *)
Definition parse_number (s : jstring) : option (JsVal * jstring) :=
  let '(neg, s1) :=
    match s with
    | c :: t => if c =? 45 then (true, t) else (false, s)
    | [] => (false, s)
    end in
  match s1 with
  | c :: t =>
      if is_digit c then
        let '(m, s2) :=
          if c =? 48 then (0%Z, t)
          else let '(x, _, r) := take_digits s1 0%Z 0%Z in (x, r) in
        match parse_fraction s2 m with
        | Some (m', nf, s3) =>
            match parse_exponent s3 with
            | Some (x, s4) =>
                Some (JNum (if neg then (- m')%Z else m') (x - nf)%Z, s4)
            | None => None
            end
        | None => None
        end
      else None
  | [] => None
  end.

Definition parse_literal (word : jstring) (v : JsVal) (s : jstring)
  : option (JsVal * jstring) :=
  if starts_with word s then Some (v, skipn (List.length word) s) else None.

(** The recursive-descent parser.  [fuel] bounds the number of nested
    calls. *)
Fixpoint parse_value (fuel : nat) (s : jstring) {struct fuel}
  : option (JsVal * jstring) :=
  match fuel with
  | O => None
  | S f =>
      match skip_ws s with
      | [] => None
      | c :: t =>
          if c =? 123 then
            match skip_ws t with
            | c' :: t' =>
                if c' =? 125 then Some (JObj [], t') else parse_members f t []
            | [] => None
            end
          else if c =? 91 then
            match skip_ws t with
            | c' :: t' =>
                if c' =? 93 then Some (JArr [], t') else parse_elements f t []
            | [] => None
            end
          else if c =? 34 then
            match parse_chars t with
            | Some (str, r) => Some (JStr str, r)
            | None => None
            end
          else if c =? 116 then parse_literal (lit "true") (JBool true) (c :: t)
          else if c =? 102 then parse_literal (lit "false") (JBool false) (c :: t)
          else if c =? 110 then parse_literal (lit "null") JNull (c :: t)
          else parse_number (c :: t)
      end
  end

with parse_elements (fuel : nat) (s : jstring) (acc : list JsVal)
  {struct fuel} : option (JsVal * jstring) :=
  match fuel with
  | O => None
  | S f =>
      match parse_value f s with
      | Some (v, r) =>
          match skip_ws r with
          | c :: r' =>
              if c =? 44 then parse_elements f r' (acc ++ [v])
              else if c =? 93 then Some (JArr (acc ++ [v]), r')
              else None
          | [] => None
          end
      | None => None
      end
  end

with parse_members (fuel : nat) (s : jstring) (acc : Obj)
  {struct fuel} : option (JsVal * jstring) :=
  match fuel with
  | O => None
  | S f =>
      match skip_ws s with
      | q :: s1 =>
          if q =? 34 then
            match parse_chars s1 with
            | Some (k, s2) =>
                match skip_ws s2 with
                | colon :: s3 =>
                    if colon =? 58 then
                      match parse_value f s3 with
                      | Some (v, r) =>
                          match skip_ws r with
                          | c :: r' =>
                              if c =? 44 then parse_members f r' (obj_set acc k v)
                              else if c =? 125 then
                                Some (JObj (obj_set acc k v), r')
                              else None
                          | [] => None
                          end
                      | None => None
                      end
                    else None
                | [] => None
                end
            | None => None
            end
          else None
      | [] => None
      end
  end.

(** [JSON.parse text] without reviver; [None] stands for the [SyntaxError]
    it throws.  The fuel given here is enough for every text
    ([JSON_parse_any_fuel] below). *)
Definition JSON_parse (text : jstring) : option JsVal :=
  match parse_value (2 * List.length text + 2) text with
  | Some (v, r) =>
      match skip_ws r with
      | [] => Some v
      | _ :: _ => None
      end
  | None => None
  end.

(** ** [Set], in the words of ECMA-262 *)

(** A listener is a function value; it is known by its reference. *)
Definition Handler := nat.

(** [[SetData]]: the list of entries, where a deleted entry stays in place
    as [empty] ([None]). *)
Definition SetData := list (option Handler).

Definition entry_is (h : Handler) (e : option Handler) : bool :=
  match e with
  | Some x => Nat.eqb x h
  | None => false
  end.

Definition set_has (s : SetData) (h : Handler) : bool := existsb (entry_is h) s.

(** [Set.prototype.add] *)
Definition set_add (s : SetData) (h : Handler) : SetData :=
  if set_has s h then s else s ++ [Some h].

(** [Set.prototype.delete] *)
Definition set_delete (s : SetData) (h : Handler) : SetData :=
  map (fun e => if entry_is h e then None else e) s.

(** [Set.prototype.clear] *)
Definition set_clear (s : SetData) : SetData := map (fun _ => None) s.

(** The values of the set, in insertion order. *)
Fixpoint set_values (s : SetData) : list Handler :=
  match s with
  | [] => []
  | Some h :: s' => h :: set_values s'
  | None :: s' => set_values s'
  end.

(** ** The world: host globals, instances, observable events *)

Inductive Exception : Type :=
| Error (message : jstring)
| TypeError
| Thrown (value : JsVal).

(** Modelled from the spec: the declaration of [PluginMessageResponse]
    (module [../types]) is not part of the sources.  An inbound delivery has
    an optional string field [data]; the other host-defined fields pass
    through. *)
Record PluginMessageResponse : Type := {
  data : option jstring;
  host_fields : Obj
}.

(** [PluginMessageResponse & { parsedData?: T }] *)
Record EnhancedData : Type := {
  response : PluginMessageResponse;
  parsedData : JsVal
}.

(** What the host hands to [window.onPluginMessage]: a delivery, or one of
    the two values on which a property read fails. *)
Inductive HostArg : Type :=
| ArgNull
| ArgUndefined
| ArgObject (d : PluginMessageResponse).

Inductive Event : Type :=
| EvPostMessage (arg : JsVal)            (* PluginMessageHandler.postMessage(arg) *)
| EvCloseWebView (arg : JsVal)           (* closeWebView.postMessage(arg) *)
| EvInvoke (h : Handler) (ref : nat)     (* listener h called with the object at ref *)
| EvConsoleError (label : jstring) (e : Exception).

(** The fields of an [R1Messaging] instance. *)
Record R1Messaging : Type := {
  messageHandlers : SetData;
  isInitialized : bool
}.

Record Window : Type := {
  onPluginMessage : option nat   (* the closure installed by this instance *)
}.

Record World : Type := {
  PluginMessageHandler : bool;       (* typeof PluginMessageHandler !== 'undefined' *)
  closeWebView : bool;               (* typeof closeWebView !== 'undefined' *)
  window : option Window;            (* None: typeof window === 'undefined' *)
  instances : list R1Messaging;      (* an instance is known by its index *)
  objects : list EnhancedData;       (* an enhanced delivery is known by its index *)
  trace : list Event
}.

Definition with_window (win : option Window) (w : World) : World :=
  {| PluginMessageHandler := PluginMessageHandler w;
     closeWebView := closeWebView w;
     window := win;
     instances := instances w;
     objects := objects w;
     trace := trace w |}.

Definition with_instances (l : list R1Messaging) (w : World) : World :=
  {| PluginMessageHandler := PluginMessageHandler w;
     closeWebView := closeWebView w;
     window := window w;
     instances := l;
     objects := objects w;
     trace := trace w |}.

Definition with_objects (l : list EnhancedData) (w : World) : World :=
  {| PluginMessageHandler := PluginMessageHandler w;
     closeWebView := closeWebView w;
     window := window w;
     instances := instances w;
     objects := l;
     trace := trace w |}.

Definition emit (ev : Event) (w : World) : World :=
  {| PluginMessageHandler := PluginMessageHandler w;
     closeWebView := closeWebView w;
     window := window w;
     instances := instances w;
     objects := objects w;
     trace := trace w ++ [ev] |}.

Fixpoint update_nth {A : Type} (n : nat) (f : A -> A) (l : list A) : list A :=
  match l, n with
  | [], _ => []
  | x :: l', O => f x :: l'
  | x :: l', S n' => x :: update_nth n' f l'
  end.

Definition handlers_of (this : nat) (w : World) : SetData :=
  match nth_error (instances w) this with
  | Some inst => messageHandlers inst
  | None => []
  end.

Definition update_handlers (this : nat) (f : SetData -> SetData) (w : World)
  : World :=
  with_instances
    (update_nth this
       (fun inst => {| messageHandlers := f (messageHandlers inst);
                       isInitialized := isInitialized inst |})
       (instances w)) w.

(** ** Computations: state, exceptions, and a bound on loop iterations *)

Inductive Completion (A : Type) : Type :=
| Normal (a : A)
| Throw (e : Exception)
| OutOfFuel.
Arguments Normal {A} a.
Arguments Throw {A} e.
Arguments OutOfFuel {A}.

Definition M (A : Type) : Type := World -> World * Completion A.

Definition ret {A : Type} (a : A) : M A := fun w => (w, Normal a).

Definition bind {A B : Type} (m : M A) (k : A -> M B) : M B :=
  fun w =>
    match m w with
    | (w', Normal a) => k a w'
    | (w', Throw e) => (w', Throw e)
    | (w', OutOfFuel) => (w', OutOfFuel)
    end.

Definition throw {A : Type} (e : Exception) : M A := fun w => (w, Throw e).

Definition effect (f : World -> World) : M unit := fun w => (f w, Normal tt).

(** [try { body } catch (error) { handler(error) }] *)
Definition try_catch {A : Type} (body : M A) (handler : Exception -> M A)
  : M A :=
  fun w =>
    match body w with
    | (w', Throw e) => handler e w'
    | r => r
    end.

Notation "x <- m ;; k" := (bind m (fun x => k))
  (at level 61, m at next level, right associativity).
Notation "m ;;; k" := (bind m (fun _ => k))
  (at level 61, right associativity).

Definition console_error (label : jstring) (e : Exception) : M unit :=
  effect (emit (EvConsoleError label e)).

(** ** The outbound dispatcher *)

Definition TransportUnavailable : Exception :=
  Error (lit "PluginMessageHandler not available. Make sure you are running in R1 environment.").

(** An [async] method is modelled by the promise it returns: [Normal] is
    fulfilled, [Throw] is rejected.  None of these methods awaits anything
    but another of them, so the promise is settled by the call's own run.
    A parameter with a default value is an [option]; the methods below do
    not read [this], which is left out. *)
Definition default_obj (options : option Obj) : Obj :=
  match options with
  | Some o => o
  | None => []
  end.

Definition to_arg (r : option jstring) : JsVal :=
  match r with
  | Some t => JStr t
  | None => JUndefined
  end.

Definition sendMessage (message : jstring) (options : option Obj) : M unit :=
  fun w =>
    let options := default_obj options in
    let payload := obj_spread [(lit "message", JStr message)] options in
    if PluginMessageHandler w then
      effect (emit (EvPostMessage (to_arg (JSON_stringify (JObj payload))))) w
    else throw TransportUnavailable w.

Definition askLLM (message : jstring) (options : option Obj) : M unit :=
  let options := default_obj options in
  sendMessage message (Some (obj_spread [(lit "useLLM", JBool true)] options)).

Definition askLLMSpeak (message : jstring) (saveToJournal : option bool)
  : M unit :=
  let saveToJournal :=
    match saveToJournal with Some b => b | None => false end in
  askLLM message (Some [(lit "wantsR1Response", JBool true);
                        (lit "wantsJournalEntry", JBool saveToJournal)]).

Definition json_instruction : jstring :=
  lit ". Please respond with a valid JSON object.".

Definition askLLMJSON (message : jstring) (options : option Obj) : M unit :=
  let options := default_obj options in
  let jsonMessage :=
    if includes message (lit "JSON") then message
    else message ++ json_instruction in
  askLLM jsonMessage (Some options).

Definition closePlugin : M unit :=
  fun w =>
    if closeWebView w then effect (emit (EvCloseWebView (JStr []))) w
    else ret tt w.

(** ** The listener set of an instance *)

Definition onMessage (this : nat) (handler : Handler) : M unit :=
  effect (update_handlers this (fun s => set_add s handler)).

Definition offMessage (this : nat) (handler : Handler) : M unit :=
  effect (update_handlers this (fun s => set_delete s handler)).

Definition removeAllHandlers (this : nat) : M unit :=
  effect (update_handlers this set_clear).

(** ** Initialization *)

(** [initializeMessageHandler]: unless this instance is initialized already
    or there is no [window], install this instance's closure as
    [window.onPluginMessage] and set the flag. *)
Definition initializeMessageHandler (this : nat) : M unit :=
  fun w =>
    let initialized :=
      match nth_error (instances w) this with
      | Some inst => isInitialized inst
      | None => false
      end in
    match window w with
    | None => ret tt w
    | Some win =>
        if initialized then ret tt w
        else
          let w1 := with_window (Some {| onPluginMessage := Some this |}) w in
          let w2 :=
            with_instances
              (update_nth this
                 (fun inst => {| messageHandlers := messageHandlers inst;
                                 isInitialized := true |})
                 (instances w1)) w1 in
          ret tt w2
    end.

(** [new R1Messaging()]: the field initializers, then the constructor
    body.  The result is the new instance. *)
Definition new_R1Messaging : M nat :=
  fun w =>
    let this := List.length (instances w) in
    let w1 :=
      with_instances
        (instances w ++ [{| messageHandlers := []; isInitialized := false |}])
        w in
    (initializeMessageHandler this ;;; ret this) w1.

(** ** Listener callbacks *)

(** What a listener does when called: a sequence of calls into this module,
    possibly ended by a [throw].  The promise of an [async] method is
    dropped, so its rejection is not an exception of the listener. *)
Inductive Action : Type :=
| CallOnMessage (inst : nat) (h : Handler)
| CallOffMessage (inst : nat) (h : Handler)
| CallRemoveAllHandlers (inst : nat)
| CallSendMessage (message : jstring) (options : option Obj)
| CallAskLLM (message : jstring) (options : option Obj)
| CallAskLLMSpeak (message : jstring) (saveToJournal : option bool)
| CallAskLLMJSON (message : jstring) (options : option Obj)
| CallClosePlugin
| CallNew
| ActThrow (value : JsVal).

Definition drop_promise (m : M unit) : M unit :=
  fun w => (fst (m w), Normal tt).

Definition run_action (a : Action) : M unit :=
  match a with
  | CallOnMessage i h => onMessage i h
  | CallOffMessage i h => offMessage i h
  | CallRemoveAllHandlers i => removeAllHandlers i
  | CallSendMessage m o => drop_promise (sendMessage m o)
  | CallAskLLM m o => drop_promise (askLLM m o)
  | CallAskLLMSpeak m j => drop_promise (askLLMSpeak m j)
  | CallAskLLMJSON m o => drop_promise (askLLMJSON m o)
  | CallClosePlugin => closePlugin
  | CallNew => new_R1Messaging ;;; ret tt
  | ActThrow v => throw (Thrown v)
  end.

Fixpoint run_actions (l : list Action) : M unit :=
  match l with
  | [] => ret tt
  | a :: l' => run_action a ;;; run_actions l'
  end.

(** ** The inbound multiplexer *)

(** The code of every listener: what it does, given the enhanced delivery
    it receives and the world it is called in. *)
Definition ListenerCode : Type :=
  Handler -> EnhancedData -> World -> list Action.

Section Multiplexer.

Variable body : ListenerCode.

(** [handler(enhancedData)]: the listener receives the reference [ref] of
    the object [enhancedData]. *)
Definition call_handler (h : Handler) (ref : nat) (enhancedData : EnhancedData)
  : M unit :=
  fun w =>
    (effect (emit (EvInvoke h ref)) ;;; run_actions (body h enhancedData w)) w.

(** [Set.prototype.forEach] on [this.messageHandlers]: the entries are read
    again at every step, so entries appended by the callback are reached
    and entries emptied before their turn are skipped.  [fuel] bounds the
    number of steps. *)
Fixpoint forEach (fuel : nat) (this : nat) (callbackfn : Handler -> M unit)
         (index : nat) : M unit :=
  fun w =>
    match nth_error (handlers_of this w) index with
    | None => ret tt w
    | Some e =>
        match fuel with
        | O => (w, OutOfFuel)
        | S fuel' =>
            match e with
            | None => forEach fuel' this callbackfn (S index) w
            | Some h =>
                (callbackfn h ;;; forEach fuel' this callbackfn (S index)) w
            end
        end
    end.

(** [parsedData], as computed at the head of the closure. *)
Definition parse_data (d : PluginMessageResponse) : JsVal :=
  match data d with
  | Some (c :: t) =>                       (* if (data.data): a non-empty string *)
      match JSON_parse (c :: t) with
      | Some v => v
      | None => JStr (c :: t)              (* catch (e): keep as string *)
      end
  | Some [] => JUndefined
  | None => JUndefined
  end.

(** Reading [data.data]: a [TypeError] on [null] and [undefined]. *)
Definition read_delivery (arg : HostArg) : M PluginMessageResponse :=
  match arg with
  | ArgObject d => ret d
  | ArgNull => throw TypeError
  | ArgUndefined => throw TypeError
  end.

(** [{ ...data, parsedData }] *)
Definition enhance (d : PluginMessageResponse) : EnhancedData :=
  {| response := d; parsedData := parse_data d |}.

(** The object literal makes a fresh object; the result is its
    reference. *)
Definition new_object (e : EnhancedData) : M nat :=
  fun w => (with_objects (objects w ++ [e]) w, Normal (List.length (objects w))).

Definition handler_error_label : jstring := lit "Error in message handler:".
Definition processing_error_label : jstring :=
  lit "Error processing plugin message:".

(** The arrow function given to [forEach]:
    [handler => { try { handler(enhancedData) } catch (error) { ... } }] *)
Definition fanout_callback (ref : nat) (enhancedData : EnhancedData)
           (handler : Handler) : M unit :=
  try_catch (call_handler handler ref enhancedData)
            (fun error => console_error handler_error_label error).

(** The closure that [initializeMessageHandler] of instance [this]
    assigns to [window.onPluginMessage]. *)
Definition plugin_message_closure (this : nat) (fuel : nat) (arg : HostArg)
  : M unit :=
  try_catch
    (d <- read_delivery arg ;;
     enhancedData <- new_object (enhance d) ;;
     forEach fuel this (fanout_callback enhancedData (enhance d)) 0)
    (fun error => console_error processing_error_label error).

(** The host calls [window.onPluginMessage(arg)]. *)
Definition host_deliver (fuel : nat) (arg : HostArg) : M unit :=
  fun w =>
    match window w with
    | Some {| onPluginMessage := Some this |} =>
        plugin_message_closure this fuel arg w
    | _ => ret tt w
    end.

(** The listeners invoked, in order, among some events. *)
Fixpoint invoked (evs : list Event) : list Handler :=
  match evs with
  | [] => []
  | EvInvoke h _ :: evs' => h :: invoked evs'
  | _ :: evs' => invoked evs'
  end.

End Multiplexer.

(** ** [LLMHelpers] *)

(** [ToBoolean], as [if (data)] applies it. *)
Definition truthy (v : JsVal) : bool :=
  match v with
  | JUndefined | JNull => false
  | JBool b => b
  | JNum m _ => negb (m =? 0)%Z
  | JStr [] => false
  | JStr (_ :: _) => true
  | JArr _ | JObj _ => true
  end.

(** A value inside a template literal: the text of [JSON.stringify]'s
    result, which for [undefined] is the word. *)
Definition template_text (r : option jstring) : jstring :=
  match r with
  | Some t => t
  | None => lit "undefined"
  end.

(** The methods of [LLMHelpers] call the [R1Messaging] instance they hold;
    as the methods they call do not read that instance, it is left out. *)
Definition getUserMemories : M unit :=
  askLLMJSON
    (lit "Tell me what you know about me. Return only a JSON message formatted as {'facts': ['fact1', 'fact2', ...]}")
    None.

Definition analysis_request : jstring := lit " Please respond with a JSON analysis.".

(** What a call of [JSON.stringify] comes to: it returns a text or
    [undefined], or it throws. *)
Inductive Stringified : Type :=
| Returns (r : option jstring)
| Throws (x : Exception).

(** A value of type [any], as far as [if (data)] and [JSON.stringify(data)]
    tell values apart:
    - a value made of [undefined], [null], booleans, finite numbers,
      strings, arrays and plain objects of such;
    - [NaN], and [Infinity] or [-Infinity];
    - a BigInt;
    - a symbol, and a function (one without a [toJSON] property);
    - any other object, such as one that has a BigInt or itself inside, or
      a [toJSON] method or getters: it is given by what [JSON.stringify]
      comes to on it, its methods being taken to do nothing else. *)
Inductive AnyValue : Type :=
| Plain (v : JsVal)
| NotANumber
| Infinite
| BigIntValue (n : Z)
| SymbolValue
| FunctionValue
| ObjectValue (json : Stringified).

(** [ToBoolean] *)
Definition to_boolean (data : AnyValue) : bool :=
  match data with
  | Plain v => truthy v
  | NotANumber => false
  | Infinite => true
  | BigIntValue n => negb (n =? 0)%Z
  | SymbolValue | FunctionValue | ObjectValue _ => true
  end.

(** [JSON.stringify(data)]: a number that is not finite gives [null], a
    symbol and a function give [undefined], and a BigInt is a
    [TypeError]. *)
Definition stringify_any (data : AnyValue) : Stringified :=
  match data with
  | Plain v => Returns (JSON_stringify v)
  | NotANumber | Infinite => Returns (Some (lit "null"))
  | BigIntValue _ => Throws TypeError
  | SymbolValue | FunctionValue => Returns None
  | ObjectValue json => json
  end.

Definition JSON_stringify_any (data : AnyValue) : M (option jstring) :=
  match stringify_any data with
  | Returns r => ret r
  | Throws x => throw x
  end.

(** [data] is an optional parameter of type [any]: left out, it is
    [undefined].  What [JSON.stringify] throws rejects the promise of the
    method before anything is sent. *)
Definition analyzeData (prompt : jstring) (data : AnyValue) : M unit :=
  message <-
    (if to_boolean data
     then text <- JSON_stringify_any data ;;
          ret (prompt ++ lit " Data: " ++ template_text text)
     else ret prompt) ;;
  let message := message ++ analysis_request in
  askLLMJSON message None.

Definition performTask (task : jstring) (saveToJournal : option bool) : M unit :=
  let saveToJournal :=
    match saveToJournal with Some b => b | None => true end in
  askLLMSpeak task (Some saveToJournal).

Definition getUISuggestions (context : jstring) : M unit :=
  askLLMJSON
    (litq "Given this UI context: '" ++ context ++
     litq "', provide suggestions for user actions. " ++
     litq "Respond with JSON format: {'suggestions': [{'action': 'action_name', 'description': 'description'}]}")
    None.

(** * Vocabulary of the statements *)

(** The values without parts: [null], booleans and strings. *)
Definition scalar (v : JsVal) : Prop :=
  match v with
  | JNull | JBool _ | JStr _ => True
  | _ => False
  end.

Definition scalar_props (o : Obj) : Prop := Forall (fun p => scalar (snd p)) o.

Definition flag_names : list jstring :=
  [lit "useLLM"; lit "wantsR1Response"; lit "wantsJournalEntry"].

(** A successful parse consumes input, and succeeds the same with any fuel
    that is at least twice what it consumes. *)
Definition enough (parse : nat -> option (JsVal * jstring)) (s : jstring)
           (v : JsVal) (r : jstring) : Prop :=
  (List.length r < List.length s)%nat /\
  forall f', (2 * (List.length s - List.length r) <= f')%nat ->
             parse f' = Some (v, r).

(** The properties that hold a value other than [undefined]. *)
Definition is_defined (v : JsVal) : bool :=
  match v with
  | JUndefined => false
  | _ => true
  end.

Definition defined (o : Obj) : Obj := filter (fun p => is_defined (snd p)) o.

(** A [MessageOptions] object: its properties are among the three optional
    flags, and each holds a boolean or, as the type of an optional property
    allows, [undefined]. *)
Definition is_MessageOptions (o : Obj) : Prop :=
  NoDup (map fst o) /\
  Forall (fun p => In (fst p) flag_names /\
                   ((exists b, snd p = JBool b) \/ snd p = JUndefined)) o.

Definition world_in_host : World :=
  {| PluginMessageHandler := true; closeWebView := true;
     window := Some {| onPluginMessage := None |};
     instances := []; objects := []; trace := [] |}.

Local Close Scope N_scope.

(** The effect of one call on the listener set of instance [i]. *)
Definition set_effect (i : nat) (a : Action) (s : SetData) : SetData :=
  match a with
  | CallOnMessage j h => if Nat.eqb j i then set_add s h else s
  | CallOffMessage j h => if Nat.eqb j i then set_delete s h else s
  | CallRemoveAllHandlers j => if Nat.eqb j i then set_clear s else s
  | _ => s
  end.

(** The effect of a listener's code, which stops at its first [throw]. *)
Fixpoint acts_effect (i : nat) (acts : list Action) (s : SetData) : SetData :=
  match acts with
  | [] => s
  | ActThrow _ :: _ => s
  | a :: l => acts_effect i l (set_effect i a s)
  end.

(** The value a listener's code throws, if it throws. *)
Fixpoint thrown (acts : list Action) : option JsVal :=
  match acts with
  | [] => None
  | ActThrow v :: _ => Some v
  | _ :: l => thrown l
  end.

(** Events of the outbound side only. *)
Definition outbound (evs : list Event) : Prop :=
  Forall (fun ev => match ev with
                    | EvPostMessage _ | EvCloseWebView _ => True
                    | _ => False
                    end) evs.

(** A summary of a step of a computation: the listener set of instance [i]
    goes from [s] to [s'], the instances stay or grow, the objects stay, and
    the events [evs] are added. *)
Definition step_of (i : nat) (w w' : World) (s' : SetData) (evs : list Event)
  : Prop :=
  handlers_of i w' = s' /\
  (List.length (instances w) <= List.length (instances w'))%nat /\
  objects w' = objects w /\
  trace w' = trace w ++ evs.

(** From [s] to [s']: no entry is lost, an entry keeps its value or becomes
    empty, new entries come last. *)
Definition fades (s s' : SetData) : Prop :=
  (List.length s <= List.length s')%nat /\
  forall j, (j < List.length s)%nat ->
            nth_error s' j = nth_error s j \/ nth_error s' j = Some None.

(** Every listener call among the events passes the object at [ref]. *)
Definition calls_with (ref : nat) (evs : list Event) : Prop :=
  Forall (fun ev => match ev with
                    | EvInvoke _ r => r = ref
                    | _ => True
                    end) evs.

(** The events of one call of [window.onPluginMessage] by the host. *)
Definition delivered_events (body : ListenerCode)
           (fuel : nat) (arg : HostArg) (w : World) : list Event :=
  skipn (List.length (trace w)) (trace (fst (host_deliver body fuel arg w))).

(** A world inside the host in which one instance has been made and the
    listeners 1 and 2 have been registered on it, in that order. *)
Definition world_two_listeners : World :=
  {| PluginMessageHandler := true; closeWebView := true;
     window := Some {| onPluginMessage := Some 0%nat |};
     instances := [{| messageHandlers := [Some 1%nat; Some 2%nat];
                      isInitialized := true |}];
     objects := []; trace := [] |}.

(** Listeners that do nothing. *)
Definition silent_body (h : Handler) (e : EnhancedData) (w : World)
  : list Action := [].

(** The rule for [parsedData] as the specification words it: the decoded
    document when [data] parses, the raw string when [data] is present and
    does not parse, [undefined] when [data] is absent. *)
Definition parsedData_claim (d : PluginMessageResponse) (v : JsVal) : Prop :=
  match data d with
  | Some s =>
      match JSON_parse s with
      | Some doc => v = doc
      | None => v = JStr s
      end
  | None => v = JUndefined
  end.

Definition empty_data_delivery : PluginMessageResponse :=
  {| data := Some []; host_fields := [(lit "pluginId", JStr (lit "demo"))] |}.

Definition json_delivery : PluginMessageResponse :=
  {| data := Some (litq "{'a':1}"); host_fields := [] |}.

Definition text_delivery : PluginMessageResponse :=
  {| data := Some (lit "plain text"); host_fields := [] |}.

(** The call [a] does not unregister listener [h] of instance [i]. *)
Definition keeps_action (i : nat) (h : Handler) (a : Action) : bool :=
  match a with
  | CallOffMessage j x => negb (Nat.eqb j i && Nat.eqb x h)
  | CallRemoveAllHandlers j => negb (Nat.eqb j i)
  | _ => true
  end.

Definition keeps (i : nat) (h : Handler) (acts : list Action) : bool :=
  forallb (keeps_action i h) acts.

(** Listener 1 asks the LLM something and then throws. *)
Definition throwing_body (h : Handler) (e : EnhancedData) (w : World)
  : list Action :=
  match h with
  | 1%nat => [CallAskLLM (lit "again") None; ActThrow (JStr (lit "boom"))]
  | _ => []
  end.

(** Listener 1 unregisters listener 2 and then throws. *)
Definition unregistering_body (h : Handler) (e : EnhancedData) (w : World)
  : list Action :=
  match h with
  | 1%nat => [CallOffMessage 0 2; ActThrow (JStr (lit "boom"))]
  | _ => []
  end.

(** The call [a] leaves the listener set of instance [i] alone. *)
Definition quiet_action (i : nat) (a : Action) : bool :=
  match a with
  | CallOnMessage j _ | CallOffMessage j _ | CallRemoveAllHandlers j =>
      negb (Nat.eqb j i)
  | _ => true
  end.

Definition quiet (i : nat) (acts : list Action) : bool :=
  forallb (quiet_action i) acts.

(** The code [acts] registers listener [h] on instance [i] somewhere. *)
Definition registers (i : nat) (h : Handler) (acts : list Action) : bool :=
  existsb (fun a => match a with
                    | CallOnMessage j x => Nat.eqb j i && Nat.eqb x h
                    | _ => false
                    end) acts.

(** The code [acts] unregisters listener [h] of instance [i] before it
    throws, if it throws. *)
Fixpoint unregisters (i : nat) (h : Handler) (acts : list Action) : bool :=
  match acts with
  | [] => false
  | ActThrow _ :: _ => false
  | CallOffMessage j x :: l => (Nat.eqb j i && Nat.eqb x h) || unregisters i h l
  | CallRemoveAllHandlers j :: l => Nat.eqb j i || unregisters i h l
  | _ :: l => unregisters i h l
  end.

(** The code [acts] registers listener [h] on instance [i] before it
    throws, if it throws. *)
Fixpoint registers_before_throw (i : nat) (h : Handler) (acts : list Action)
  : bool :=
  match acts with
  | [] => false
  | ActThrow _ :: _ => false
  | CallOnMessage j x :: l =>
      (Nat.eqb j i && Nat.eqb x h) || registers_before_throw i h l
  | _ :: l => registers_before_throw i h l
  end.

(** Listener [h] is live at place [b] at most. *)
Definition only_at (s : SetData) (h : Handler) (b : nat) : Prop :=
  forall j, nth_error s j = Some (Some h) -> j = b.

(** The claim of a snapshot: the listeners called in a delivery are those
    registered when it begins. *)
Definition snapshot_claim (body : ListenerCode)
           (fuel this : nat) (d : PluginMessageResponse) (w : World) : Prop :=
  forall h, In h (invoked (delivered_events body fuel (ArgObject d) w)) <->
            In h (set_values (handlers_of this w)).

(** Listener 1 registers listener 3. *)
Definition adding_body (h : Handler) (e : EnhancedData) (w : World)
  : list Action :=
  match h with
  | 1 => [CallOnMessage 0 3]
  | _ => []
  end.

(** Listener 1 unregisters listener 2. *)
Definition removing_body (h : Handler) (e : EnhancedData) (w : World)
  : list Action :=
  match h with
  | 1 => [CallOffMessage 0 2]
  | _ => []
  end.

(** Does the object have a property of that name? *)
Fixpoint obj_has (o : Obj) (k : jstring) : bool :=
  match o with
  | [] => false
  | (k', _) :: o' => jstring_eqb k' k || obj_has o' k
  end.

(** Properties that hold a scalar or [undefined]. *)
Definition flat_props (o : Obj) : Prop :=
  Forall (fun p => scalar (snd p) \/ snd p = JUndefined) o.

(** The errors written to the console among some events. *)
Fixpoint console_errors (evs : list Event) : list (jstring * Exception) :=
  match evs with
  | [] => []
  | EvConsoleError label x :: evs' => (label, x) :: console_errors evs'
  | _ :: evs' => console_errors evs'
  end.

(** What the console shows for a listener that throws [v], or does not. *)
Definition handler_errors (t : option JsVal) : list (jstring * Exception) :=
  match t with
  | Some v => [(handler_error_label, Thrown v)]
  | None => []
  end.

(** A listener takes itself out of the set of instance [i] and puts itself
    back. *)
Definition requeue (i : nat) (L : Handler) : list Action :=
  [CallOffMessage i L; CallOnMessage i L].

(** Listener 1 does so on instance 0. *)
Definition requeuing_body (h : Handler) (e : EnhancedData) (w : World)
  : list Action :=
  match h with
  | 1 => requeue 0 1
  | _ => []
  end.

(** The call constructs an instance. *)
Definition constructs (a : Action) : bool :=
  match a with
  | CallNew => true
  | _ => false
  end.

(** The computation posts one request for the LLM with the text [msg] and
    no other flag. *)
Definition posts_request (m : M unit) (w : World) (msg : jstring) : Prop :=
  exists text,
    m w = (emit (EvPostMessage (JStr text)) w, Normal tt) /\
    JSON_parse text =
      Some (JObj [(lit "message", JStr msg); (lit "useLLM", JBool true)]).

(** An entry that stays or becomes empty. *)
Definition stays_or_empties (a b : option Handler) : Prop := b = a \/ b = None.

(** A world of the module: no listener is twice in a set, and the
    subscription of [window], when there is one, is that of the instance
    made last. *)
Definition world_ok (w : World) : Prop :=
  (forall i, NoDup (set_values (handlers_of i w))) /\
  (forall this, window w = Some {| onPluginMessage := Some this |} ->
                S this = List.length (instances w)).

(** The worlds reached from one in which the module is not loaded yet, by
    the calls of the application and the deliveries of the host. *)
Inductive reachable (body : ListenerCode) : World -> Prop :=
| reach_start (w : World) :
    instances w = [] ->
    window w = None \/ window w = Some {| onPluginMessage := None |} ->
    reachable body w
| reach_call (a : Action) (w : World) :
    reachable body w -> reachable body (fst (run_action a w))
| reach_delivery (fuel : nat) (arg : HostArg) (w : World) :
    reachable body w -> reachable body (fst (host_deliver body fuel arg w)).

(** * Properties *)

Local Open Scope N_scope.

(** ** Strings *)

Lemma jstring_eqb_eq (a b : jstring) : jstring_eqb a b = true <-> a = b.
Proof.
  revert b; induction a as [|x a IH]; intros [|y b]; simpl;
    try (split; [discriminate | congruence]); try tauto.
  rewrite andb_true_iff, N.eqb_eq, IH. split.
  - intros [-> ->]; reflexivity.
  - intros E; injection E; auto.
Qed.

Lemma jstring_eqb_neq (a b : jstring) : a <> b -> jstring_eqb a b = false.
Proof.
  intros H. destruct (jstring_eqb a b) eqn:E; [|reflexivity].
  apply jstring_eqb_eq in E. contradiction.
Qed.

Lemma starts_with_spec (p s : jstring) :
  starts_with p s = true <-> exists r, s = p ++ r.
Proof.
  revert s; induction p as [|x p IH]; intros s; simpl.
  - split; [intros _; exists s; reflexivity | reflexivity].
  - destruct s as [|y s].
    + split; [discriminate | intros [r E]; discriminate].
    + rewrite andb_true_iff, N.eqb_eq, IH. split.
      * intros [-> [r ->]]. exists r; reflexivity.
      * intros [r E]. injection E as -> ->. split; [reflexivity | exists r; reflexivity].
Qed.

(** [includes] finds exactly the contiguous occurrences. *)
Lemma includes_spec (s p : jstring) :
  includes s p = true <-> exists a b, s = a ++ p ++ b.
Proof.
  induction s as [|c s IH]; simpl; rewrite orb_true_iff, starts_with_spec.
  - split.
    + intros [[r E] | F]; [|discriminate]. exists [], r. exact E.
    + intros [a [b E]]. left. destruct a; [|discriminate]. exists b; exact E.
  - rewrite IH. split.
    + intros [[r E] | [a [b E]]].
      * exists [], r; exact E.
      * exists (c :: a), b. simpl; congruence.
    + intros [[|x a] [b E]].
      * left; exists b; exact E.
      * right. injection E as _ E. exists a, b; exact E.
Qed.

(** ** The outbound dispatcher without transport *)

(** C6: without the host transport primitive, [sendMessage] and each of its
    wrappers fails at once with [TransportUnavailable]: the returned promise
    is rejected by the call's own run, nothing is posted, and the world is
    left as it was. *)
Theorem send_fails_without_transport :
  forall (w : World) (message : jstring) (options : option Obj)
         (saveToJournal : option bool),
    PluginMessageHandler w = false ->
    sendMessage message options w = (w, Throw TransportUnavailable) /\
    askLLM message options w = (w, Throw TransportUnavailable) /\
    askLLMSpeak message saveToJournal w = (w, Throw TransportUnavailable) /\
    askLLMJSON message options w = (w, Throw TransportUnavailable).
Proof.
  intros w message options saveToJournal H.
  assert (S : forall m o, sendMessage m o w = (w, Throw TransportUnavailable)).
  { intros m o. unfold sendMessage. rewrite H. reflexivity. }
  repeat split; [apply S | unfold askLLM | unfold askLLMSpeak, askLLM
                | unfold askLLMJSON, askLLM]; apply S.
Qed.

(** ** [askLLMJSON] *)

(** C7: [askLLMJSON] hands the message to [askLLM] unchanged when it has the
    code units of "JSON" somewhere in it, and with the instruction
    ". Please respond with a valid JSON object." appended otherwise. *)
Theorem askLLMJSON_delegates :
  forall (message : jstring) (options : option Obj),
    ((exists a b, message = a ++ lit "JSON" ++ b) ->
     askLLMJSON message options = askLLM message (Some (default_obj options))) /\
    (~ (exists a b, message = a ++ lit "JSON" ++ b) ->
     askLLMJSON message options =
     askLLM (message ++ lit ". Please respond with a valid JSON object.")
            (Some (default_obj options))).
Proof.
  intros message options. unfold askLLMJSON. split; intros H.
  - apply includes_spec in H. rewrite H. reflexivity.
  - destruct (includes message (lit "JSON")) eqn:E.
    + apply includes_spec in E. contradiction.
    + reflexivity.
Qed.

Lemma askLLMJSON_delegates_witness :
  askLLMJSON (lit "Respond in JSON please") None =
    askLLM (lit "Respond in JSON please") (Some []) /\
  askLLMJSON (lit "List 3 facts") None =
    askLLM (lit "List 3 facts. Please respond with a valid JSON object.") (Some []).
Proof.
  split.
  - apply (proj1 (askLLMJSON_delegates (lit "Respond in JSON please") None)).
    exists (lit "Respond in "), (lit " please"). reflexivity.
  - apply (proj2 (askLLMJSON_delegates (lit "List 3 facts") None)).
    intros H. apply includes_spec in H. vm_compute in H. discriminate.
Defined.

Lemma send_fails_without_transport_witness :
  let w := {| PluginMessageHandler := false; closeWebView := false;
              window := Some {| onPluginMessage := None |};
              instances := []; objects := []; trace := [] |} in
  sendMessage (lit "hi") None w = (w, Throw TransportUnavailable).
Proof.
  intros w.
  apply (send_fails_without_transport w (lit "hi") None None).
  reflexivity.
Defined.

(** ** The fuel given by [JSON_parse] is enough *)

Lemma skip_ws_length (s : jstring) :
  (List.length (skip_ws s) <= List.length s)%nat.
Proof.
  induction s as [|c s IH]; simpl; [apply le_n|].
  destruct (is_ws c); simpl; lia.
Qed.

Lemma skip_ws_cons (s : jstring) (c : N) (t : jstring) :
  skip_ws s = c :: t -> (List.length t < List.length s)%nat.
Proof.
  intros H. pose proof (skip_ws_length s) as L. rewrite H in L. simpl in L. lia.
Qed.

Lemma parse_chars_consumes (s : jstring) :
  forall k r, parse_chars s = Some (k, r) ->
              (List.length r < List.length s)%nat.
Proof.
  assert (C : forall (c : N) (o : option (jstring * jstring)) k r (n : nat),
             cons_unit c o = Some (k, r) ->
             (forall k' r', o = Some (k', r') -> (List.length r' < n)%nat) ->
             (List.length r < n)%nat).
  { intros c [[k' r']|] k r n H Hn; simpl in H; [|discriminate].
    injection H as _ <-. apply (Hn k'). reflexivity. }
  remember (List.length s) as n eqn:En. revert s En.
  induction n as [n IH] using lt_wf_ind. intros s En k r H.
  destruct s as [|c t]; [discriminate|]. simpl in En.
  simpl in H. destruct (c =? 34).
  { injection H as _ <-. lia. }
  destruct (c =? 92).
  - destruct t as [|e t1]; [discriminate|].
    destruct (e =? 117).
    + destruct t1 as [|h1 [|h2 [|h3 [|h4 t2]]]]; try discriminate.
      destruct (hex4 h1 h2 h3 h4); [|discriminate].
      apply (C _ _ _ _ n H). intros k' r' E.
      pose proof (IH (List.length t2) ltac:(simpl in En; lia) t2 eq_refl k' r' E).
      simpl in En; lia.
    + destruct (simple_escape e); [|discriminate].
      apply (C _ _ _ _ n H). intros k' r' E.
      pose proof (IH (List.length t1) ltac:(simpl in En; lia) t1 eq_refl k' r' E).
      simpl in En; lia.
  - destruct (c <? 32); [discriminate|].
    apply (C _ _ _ _ n H). intros k' r' E.
    pose proof (IH (List.length t) ltac:(lia) t eq_refl k' r' E). lia.
Qed.

Lemma take_digits_length (s : jstring) :
  forall acc n x k r, take_digits s acc n = (x, k, r) ->
                      (List.length r <= List.length s)%nat.
Proof.
  induction s as [|c t IH]; intros acc n x k r H; simpl in H.
  - injection H as _ _ <-. apply le_n.
  - destruct (is_digit c).
    + apply IH in H. simpl. lia.
    + injection H as _ _ <-. apply le_n.
Qed.

Lemma parse_exponent_length (s : jstring) (x : Z) (r : jstring) :
  parse_exponent s = Some (x, r) -> (List.length r <= List.length s)%nat.
Proof.
  unfold parse_exponent. destruct s as [|c t].
  - intros H; injection H as _ <-. apply le_n.
  - destruct ((c =? 101) || (c =? 69)).
    + destruct (match t with
                | [] => (false, t)
                | sg :: t1 =>
                    if sg =? 45 then (true, t1)
                    else if sg =? 43 then (false, t1) else (false, t)
                end) as [neg t'] eqn:Et.
      assert (Lt : (List.length t' <= List.length t)%nat).
      { destruct t as [|sg t1]; [injection Et as _ <-; apply le_n|].
        destruct (sg =? 45); [injection Et as _ <-; simpl; lia|].
        destruct (sg =? 43); injection Et as _ <-; simpl; lia. }
      destruct (take_digits t' 0%Z 0%Z) as [[y n] r0] eqn:Ed.
      apply take_digits_length in Ed.
      destruct (n =? 0)%Z; [discriminate|].
      intros H; injection H as _ <-. simpl. lia.
    + intros H; injection H as _ <-. apply le_n.
Qed.

Lemma parse_fraction_length (s : jstring) (m x n : Z) (r : jstring) :
  parse_fraction s m = Some (x, n, r) -> (List.length r <= List.length s)%nat.
Proof.
  unfold parse_fraction. destruct s as [|c t].
  - intros H; injection H as _ _ <-. apply le_n.
  - destruct (c =? 46).
    + destruct (take_digits t m 0%Z) as [[y k] r0] eqn:Ed.
      apply take_digits_length in Ed.
      destruct (k =? 0)%Z; [discriminate|].
      intros H; injection H as _ _ <-. simpl. lia.
    + intros H; injection H as _ _ <-. apply le_n.
Qed.

Lemma parse_number_consumes (s : jstring) (v : JsVal) (r : jstring) :
  parse_number s = Some (v, r) -> (List.length r < List.length s)%nat.
Proof.
  unfold parse_number.
  destruct (match s with
            | [] => (false, s)
            | c :: t => if c =? 45 then (true, t) else (false, s)
            end) as [neg s1] eqn:Es.
  assert (L1 : (List.length s1 <= List.length s)%nat).
  { destruct s as [|c t]; [injection Es as _ <-; apply le_n|].
    destruct (c =? 45); injection Es as _ <-; simpl; lia. }
  destruct s1 as [|c t]; [discriminate|].
  destruct (is_digit c) eqn:Dc; [|discriminate].
  destruct (if c =? 48 then (0%Z, t)
            else let '(x, _, r0) := take_digits (c :: t) 0%Z 0%Z in (x, r0))
    as [m s2] eqn:Em.
  assert (L2 : (List.length s2 <= List.length t)%nat).
  { destruct (c =? 48); [injection Em as _ <-; apply le_n|].
    simpl in Em. rewrite Dc in Em.
    match type of Em with
    | context [take_digits ?a ?b ?n] =>
        destruct (take_digits a b n) as [[x k] r0] eqn:Ed
    end.
    apply take_digits_length in Ed. injection Em as _ <-. exact Ed. }
  destruct (parse_fraction s2 m) as [[[m' nf] s3]|] eqn:Ef; [|discriminate].
  apply parse_fraction_length in Ef.
  destruct (parse_exponent s3) as [[x s4]|] eqn:Ee; [|discriminate].
  apply parse_exponent_length in Ee.
  intros H; injection H as _ <-. simpl in L1. lia.
Qed.

Lemma parse_literal_consumes (word : jstring) (v0 v : JsVal) (s r : jstring) :
  word <> [] -> parse_literal word v0 s = Some (v, r) ->
  (List.length r < List.length s)%nat.
Proof.
  unfold parse_literal. intros Hw. destruct (starts_with word s) eqn:E; [|discriminate].
  intros H; injection H as _ <-.
  apply starts_with_spec in E. destruct E as [t ->].
  rewrite skipn_app, Nat.sub_diag, skipn_all. simpl. rewrite length_app.
  destruct word; [congruence | simpl; lia].
Qed.

Lemma parse_value_eq (f : nat) (s : jstring) :
  parse_value (S f) s =
  match skip_ws s with
  | [] => None
  | c :: t =>
      if c =? 123 then
        match skip_ws t with
        | c' :: t' =>
            if c' =? 125 then Some (JObj [], t') else parse_members f t []
        | [] => None
        end
      else if c =? 91 then
        match skip_ws t with
        | c' :: t' =>
            if c' =? 93 then Some (JArr [], t') else parse_elements f t []
        | [] => None
        end
      else if c =? 34 then
        match parse_chars t with
        | Some (str, r) => Some (JStr str, r)
        | None => None
        end
      else if c =? 116 then parse_literal (lit "true") (JBool true) (c :: t)
      else if c =? 102 then parse_literal (lit "false") (JBool false) (c :: t)
      else if c =? 110 then parse_literal (lit "null") JNull (c :: t)
      else parse_number (c :: t)
  end.
Proof. reflexivity. Qed.

Lemma parse_elements_eq (f : nat) (s : jstring) (acc : list JsVal) :
  parse_elements (S f) s acc =
  match parse_value f s with
  | Some (v, r) =>
      match skip_ws r with
      | c :: r' =>
          if c =? 44 then parse_elements f r' (acc ++ [v])
          else if c =? 93 then Some (JArr (acc ++ [v]), r')
          else None
      | [] => None
      end
  | None => None
  end.
Proof. reflexivity. Qed.

Lemma parse_members_eq (f : nat) (s : jstring) (acc : Obj) :
  parse_members (S f) s acc =
  match skip_ws s with
  | q :: s1 =>
      if q =? 34 then
        match parse_chars s1 with
        | Some (k, s2) =>
            match skip_ws s2 with
            | colon :: s3 =>
                if colon =? 58 then
                  match parse_value f s3 with
                  | Some (v, r) =>
                      match skip_ws r with
                      | c :: r' =>
                          if c =? 44 then parse_members f r' (obj_set acc k v)
                          else if c =? 125 then Some (JObj (obj_set acc k v), r')
                          else None
                      | [] => None
                      end
                  | None => None
                  end
                else None
            | [] => None
            end
        | None => None
        end
      else None
  | [] => None
  end.
Proof. reflexivity. Qed.

Lemma parse_fuel_enough (f : nat) :
  (forall s v r, parse_value f s = Some (v, r) ->
                 enough (fun f' => parse_value f' s) s v r) /\
  (forall s acc v r, parse_elements f s acc = Some (v, r) ->
                     enough (fun f' => parse_elements f' s acc) s v r) /\
  (forall s acc v r, parse_members f s acc = Some (v, r) ->
                     enough (fun f' => parse_members f' s acc) s v r).
Proof.
  induction f as [|f (IHv & IHe & IHm)]; [repeat split; discriminate|].
  split; [|split].
  - intros s v r H. rewrite parse_value_eq in H.
    destruct (skip_ws s) as [|c t] eqn:Es; [discriminate|].
    pose proof (skip_ws_cons _ _ _ Es) as Lt.
    assert (Leaf : forall v0 r0,
               (List.length r0 < List.length (c :: t))%nat ->
               (forall f0, parse_value (S f0) s = Some (v0, r0)) ->
               enough (fun f' => parse_value f' s) s v0 r0).
    { intros v0 r0 L0 P. split; [simpl in L0; lia|].
      intros [|f0] Hf; [simpl in L0; lia | apply P]. }
    destruct (c =? 123) eqn:E1.
    { destruct (skip_ws t) as [|c' t'] eqn:Et; [discriminate|].
      pose proof (skip_ws_cons _ _ _ Et) as Lt'.
      destruct (c' =? 125) eqn:E2.
      - injection H as <- <-. apply Leaf; [simpl; lia|].
        intros f0. rewrite parse_value_eq, Es, E1, Et, E2. reflexivity.
      - destruct (IHm _ _ _ _ H) as [Lr P]. split; [lia|].
        intros [|f0] Hf; [lia|].
        rewrite parse_value_eq, Es, E1, Et, E2. apply P. lia. }
    destruct (c =? 91) eqn:E2.
    { destruct (skip_ws t) as [|c' t'] eqn:Et; [discriminate|].
      pose proof (skip_ws_cons _ _ _ Et) as Lt'.
      destruct (c' =? 93) eqn:E3.
      - injection H as <- <-. apply Leaf; [simpl; lia|].
        intros f0. rewrite parse_value_eq, Es, E1, E2, Et, E3. reflexivity.
      - destruct (IHe _ _ _ _ H) as [Lr P]. split; [lia|].
        intros [|f0] Hf; [lia|].
        rewrite parse_value_eq, Es, E1, E2, Et, E3. apply P. lia. }
    destruct (c =? 34) eqn:E3.
    { destruct (parse_chars t) as [[str r0]|] eqn:Ec; [|discriminate].
      injection H as <- <-. apply parse_chars_consumes in Ec as Lc.
      apply Leaf; [simpl; lia|].
      intros f0. rewrite parse_value_eq, Es, E1, E2, E3, Ec. reflexivity. }
    destruct (c =? 116) eqn:E4.
    { apply Leaf; [eapply parse_literal_consumes; [|exact H]; discriminate|].
      intros f0. rewrite parse_value_eq, Es, E1, E2, E3, E4. exact H. }
    destruct (c =? 102) eqn:E5.
    { apply Leaf; [eapply parse_literal_consumes; [|exact H]; discriminate|].
      intros f0. rewrite parse_value_eq, Es, E1, E2, E3, E4, E5. exact H. }
    destruct (c =? 110) eqn:E6.
    { apply Leaf; [eapply parse_literal_consumes; [|exact H]; discriminate|].
      intros f0. rewrite parse_value_eq, Es, E1, E2, E3, E4, E5, E6. exact H. }
    apply Leaf; [apply parse_number_consumes in H; exact H|].
    intros f0. rewrite parse_value_eq, Es, E1, E2, E3, E4, E5, E6. exact H.
  - intros s acc v r H. rewrite parse_elements_eq in H.
    destruct (parse_value f s) as [[v1 r1]|] eqn:Ev; [|discriminate].
    destruct (IHv _ _ _ Ev) as [L1 P1].
    destruct (skip_ws r1) as [|c r'] eqn:Er; [discriminate|].
    pose proof (skip_ws_cons _ _ _ Er) as Lr'.
    destruct (c =? 44) eqn:E1.
    + destruct (IHe _ _ _ _ H) as [L2 P2]. split; [lia|].
      intros [|f0] Hf; [lia|].
      rewrite parse_elements_eq, (P1 f0 ltac:(lia)), Er, E1. apply P2. lia.
    + destruct (c =? 93) eqn:E2; [|discriminate].
      injection H as <- <-. split; [lia|].
      intros [|f0] Hf; [lia|].
      rewrite parse_elements_eq, (P1 f0 ltac:(lia)), Er, E1, E2. reflexivity.
  - intros s acc v r H. rewrite parse_members_eq in H.
    destruct (skip_ws s) as [|q s1] eqn:Es; [discriminate|].
    pose proof (skip_ws_cons _ _ _ Es) as Ls1.
    destruct (q =? 34) eqn:Eq; [|discriminate].
    destruct (parse_chars s1) as [[k s2]|] eqn:Ek; [|discriminate].
    apply parse_chars_consumes in Ek as Ls2.
    destruct (skip_ws s2) as [|colon s3] eqn:Ec; [discriminate|].
    pose proof (skip_ws_cons _ _ _ Ec) as Ls3.
    destruct (colon =? 58) eqn:E58; [|discriminate].
    destruct (parse_value f s3) as [[v1 r1]|] eqn:Ev; [|discriminate].
    destruct (IHv _ _ _ Ev) as [L1 P1].
    destruct (skip_ws r1) as [|c r'] eqn:Er; [discriminate|].
    pose proof (skip_ws_cons _ _ _ Er) as Lr'.
    destruct (c =? 44) eqn:E1.
    + destruct (IHm _ _ _ _ H) as [L2 P2]. split; [lia|].
      intros [|f0] Hf; [lia|].
      rewrite parse_members_eq, Es, Eq, Ek, Ec, E58, (P1 f0 ltac:(lia)), Er, E1.
      apply P2. lia.
    + destruct (c =? 125) eqn:E2; [|discriminate].
      injection H as <- <-. split; [lia|].
      intros [|f0] Hf; [lia|].
      rewrite parse_members_eq, Es, Eq, Ek, Ec, E58, (P1 f0 ltac:(lia)), Er, E1, E2.
      reflexivity.
Qed.

(** [JSON_parse] accepts every text that the parser accepts with some fuel,
    and gives the same document. *)
Lemma JSON_parse_any_fuel (text : jstring) (f : nat) (v : JsVal) (r : jstring) :
  parse_value f text = Some (v, r) -> skip_ws r = [] ->
  JSON_parse text = Some v.
Proof.
  intros H Hr. destruct (proj1 (parse_fuel_enough f) _ _ _ H) as [L P].
  unfold JSON_parse. rewrite (P (2 * List.length text + 2)%nat) by lia.
  rewrite Hr. reflexivity.
Qed.

(** ** [JSON.parse] reads back what [JSON.stringify] writes *)

Lemma hex_val_digit (d : N) : d < 16 -> hex_val (hex_digit d) = Some d.
Proof.
  intros H. unfold hex_val, hex_digit.
  destruct (N.ltb_spec d 10).
  - replace ((48 <=? 48 + d) && (48 + d <=? 57)) with true.
    + f_equal; lia.
    + symmetry; apply andb_true_iff; split; apply N.leb_le; lia.
  - replace ((48 <=? 87 + d) && (87 + d <=? 57)) with false.
    + replace ((97 <=? 87 + d) && (87 + d <=? 102)) with true.
      * f_equal; lia.
      * symmetry; apply andb_true_iff; split; apply N.leb_le; lia.
    + symmetry; apply andb_false_iff; right; apply N.leb_gt; lia.
Qed.

Lemma hex4_escape (c : N) :
  c < 65536 ->
  hex4 (hex_digit ((c / 4096) mod 16)) (hex_digit ((c / 256) mod 16))
       (hex_digit ((c / 16) mod 16)) (hex_digit (c mod 16)) = Some c.
Proof.
  intros H. unfold hex4.
  rewrite !hex_val_digit by (apply N.mod_lt; discriminate).
  f_equal.
  pose proof (N.div_mod c 16 ltac:(discriminate)) as H0.
  pose proof (N.div_mod (c / 16) 16 ltac:(discriminate)) as H1.
  pose proof (N.div_mod (c / 256) 16 ltac:(discriminate)) as H2.
  replace (c / 16 / 16) with (c / 256) in H1
    by (rewrite N.Div0.div_div; reflexivity).
  replace (c / 256 / 16) with (c / 4096) in H2
    by (rewrite N.Div0.div_div; reflexivity).
  assert (H3 : c / 4096 < 16) by (apply N.Div0.div_lt_upper_bound; lia).
  rewrite (N.mod_small (c / 4096) 16) by exact H3.
  lia.
Qed.

Lemma parse_chars_raw (c : N) (rest : jstring) :
  32 <= c -> c <> 34 -> c <> 92 ->
  parse_chars (c :: rest) = cons_unit c (parse_chars rest).
Proof.
  intros H1 H2 H3. simpl.
  apply N.eqb_neq in H2. apply N.eqb_neq in H3.
  rewrite H2, H3.
  replace (c <? 32) with false by (symmetry; apply N.ltb_ge; exact H1).
  reflexivity.
Qed.

Lemma parse_chars_escape (c : N) (rest : jstring) :
  c < 65536 ->
  parse_chars (unicode_escape c ++ rest) = cons_unit c (parse_chars rest).
Proof.
  intros H. unfold unicode_escape.
  change (parse_chars
            ([92; 117; hex_digit ((c / 4096) mod 16); hex_digit ((c / 256) mod 16);
              hex_digit ((c / 16) mod 16); hex_digit (c mod 16)] ++ rest))
    with (match hex4 (hex_digit ((c / 4096) mod 16)) (hex_digit ((c / 256) mod 16))
                     (hex_digit ((c / 16) mod 16)) (hex_digit (c mod 16)) with
          | Some v => cons_unit v (parse_chars rest)
          | None => None
          end).
  rewrite hex4_escape by exact H. reflexivity.
Qed.

Lemma surrogate_bound (c : N) : is_lead c || is_trail c = true -> c < 65536.
Proof.
  unfold is_lead, is_trail.
  rewrite orb_true_iff, !andb_true_iff, !N.leb_le. lia.
Qed.

Lemma parse_chars_quote_unit (c : N) (rest : jstring) :
  parse_chars (quote_unit c ++ rest) = cons_unit c (parse_chars rest).
Proof.
  unfold quote_unit.
  destruct (N.eqb_spec c 8) as [->|N8]; [reflexivity|].
  destruct (N.eqb_spec c 9) as [->|N9]; [reflexivity|].
  destruct (N.eqb_spec c 10) as [->|N10]; [reflexivity|].
  destruct (N.eqb_spec c 12) as [->|N12]; [reflexivity|].
  destruct (N.eqb_spec c 13) as [->|N13]; [reflexivity|].
  destruct (N.eqb_spec c 34) as [->|N34]; [reflexivity|].
  destruct (N.eqb_spec c 92) as [->|N92]; [reflexivity|].
  destruct (N.ltb_spec c 32) as [L|L]; simpl orb.
  - apply parse_chars_escape. lia.
  - destruct (is_lead c || is_trail c) eqn:E.
    + apply parse_chars_escape. apply surrogate_bound. exact E.
    + apply parse_chars_raw; assumption.
Qed.

Lemma lead_is_raw (c : N) (rest : jstring) :
  is_lead c || is_trail c = true ->
  parse_chars (c :: rest) = cons_unit c (parse_chars rest).
Proof.
  intros H. unfold is_lead, is_trail in H.
  rewrite orb_true_iff, !andb_true_iff, !N.leb_le in H.
  apply parse_chars_raw; lia.
Qed.

Lemma quote_units_cons (c : N) (t : jstring) :
  quote_units (c :: t) =
  if is_lead c then
    match t with
    | d :: t' =>
        if is_trail d then c :: d :: quote_units t'
        else unicode_escape c ++ quote_units t
    | [] => unicode_escape c
    end
  else quote_unit c ++ quote_units t.
Proof. reflexivity. Qed.

Lemma parse_chars_quote_units_len (n : nat) :
  forall (s rest : jstring),
    (List.length s <= n)%nat ->
    parse_chars (quote_units s ++ 34 :: rest) = Some (s, rest).
Proof.
  induction n as [|n IH]; intros s rest Hlen.
  - destruct s; [reflexivity | simpl in Hlen; lia].
  - destruct s as [|c t]; [reflexivity|].
    simpl in Hlen. rewrite quote_units_cons.
    destruct (is_lead c) eqn:Lc.
    + destruct t as [|d t'].
      * rewrite parse_chars_escape
          by (apply surrogate_bound; rewrite Lc; reflexivity).
        reflexivity.
      * destruct (is_trail d) eqn:Td.
        -- simpl app.
           rewrite lead_is_raw by (rewrite Lc; reflexivity).
           rewrite lead_is_raw by (rewrite Td; apply orb_true_r).
           rewrite IH by (simpl in Hlen; lia). reflexivity.
        -- rewrite <- app_assoc.
           rewrite parse_chars_escape
             by (apply surrogate_bound; rewrite Lc; reflexivity).
           rewrite IH by lia. reflexivity.
    + rewrite <- app_assoc, parse_chars_quote_unit.
      rewrite IH by lia. reflexivity.
Qed.

(** A quoted string is read back as the string it quotes. *)
Lemma parse_chars_quote (s rest : jstring) :
  parse_chars (quote_units s ++ 34 :: rest) = Some (s, rest).
Proof. apply (parse_chars_quote_units_len (List.length s)). apply le_n. Qed.

Lemma parse_value_string (f : nat) (t : jstring) :
  parse_value (S f) (34 :: t) =
  match parse_chars t with
  | Some (str, r) => Some (JStr str, r)
  | None => None
  end.
Proof. reflexivity. Qed.

Lemma parse_value_object (f : nat) (t : jstring) :
  parse_value (S f) (123 :: t) =
  match skip_ws t with
  | c' :: t' => if c' =? 125 then Some (JObj [], t') else parse_members f t []
  | [] => None
  end.
Proof. reflexivity. Qed.

Lemma parse_members_key (f : nat) (t : jstring) (acc : Obj) :
  parse_members (S f) (34 :: t) acc =
  match parse_chars t with
  | Some (k, s2) =>
      match skip_ws s2 with
      | colon :: s3 =>
          if colon =? 58 then
            match parse_value f s3 with
            | Some (v, r) =>
                match skip_ws r with
                | c :: r' =>
                    if c =? 44 then parse_members f r' (obj_set acc k v)
                    else if c =? 125 then Some (JObj (obj_set acc k v), r')
                    else None
                | [] => None
                end
            | None => None
            end
          else None
      | [] => None
      end
  | None => None
  end.
Proof. reflexivity. Qed.

Lemma parse_value_scalar (v : JsVal) :
  scalar v ->
  exists t, SerializeJSONProperty v = Some t /\
            forall f rest, parse_value (S f) (t ++ rest) = Some (v, rest).
Proof.
  destruct v as [| |[|]| |s| |]; cbn [scalar]; try contradiction; intros _.
  - exists (lit "null"). split; reflexivity.
  - exists (lit "true"). split; reflexivity.
  - exists (lit "false"). split; reflexivity.
  - exists (QuoteJSONString s). split; [reflexivity|].
    intros f rest. unfold QuoteJSONString. cbn [app].
    rewrite parse_value_string.
    rewrite <- app_assoc. cbn [app]. rewrite parse_chars_quote. reflexivity.
Qed.

Lemma parse_members_step (f : nat) (k t : jstring) (rest : jstring) (acc : Obj) :
  parse_members (S f) (QuoteJSONString k ++ 58 :: t ++ rest) acc =
  match parse_value f (t ++ rest) with
  | Some (v, r) =>
      match skip_ws r with
      | c :: r' =>
          if c =? 44 then parse_members f r' (obj_set acc k v)
          else if c =? 125 then Some (JObj (obj_set acc k v), r')
          else None
      | [] => None
      end
  | None => None
  end.
Proof.
  unfold QuoteJSONString. cbn [app]. rewrite <- app_assoc. cbn [app].
  rewrite parse_members_key.
  rewrite parse_chars_quote. reflexivity.
Qed.

Lemma members_scalar_cons (k : jstring) (v : JsVal) (o : Obj) :
  scalar v ->
  exists t, SerializeJSONProperty v = Some t /\
            members SerializeJSONProperty ((k, v) :: o) =
            (QuoteJSONString k ++ 58 :: t) :: members SerializeJSONProperty o.
Proof.
  intros Hv. destruct (parse_value_scalar v Hv) as [t [E _]].
  exists t. split; [exact E|]. simpl. rewrite E. reflexivity.
Qed.

(** The members of a flat object are read back one by one, each defined on
    the object built so far. *)
Lemma parse_members_flat (o : Obj) :
  scalar_props o -> o <> [] ->
  forall (f : nat) (acc : Obj) (rest : jstring),
    (List.length o <= f)%nat ->
    parse_members (S f)
      (join [44] (members SerializeJSONProperty o) ++ 125 :: rest) acc =
    Some (JObj (obj_spread acc o), rest).
Proof.
  induction o as [|[k v] o IH]; intros Hs Hne f acc rest Hf; [congruence|].
  inversion Hs as [|p l Hv Hs']; subst. simpl in Hv.
  destruct (parse_value_scalar v Hv) as [t [E P]].
  destruct f as [|f]; [simpl in Hf; lia|].
  cbn [members]. rewrite E.
  destruct o as [|[k' v'] o'].
  - cbn [members]. cbn [join]. rewrite <- app_assoc. cbn [app].
    rewrite parse_members_step, P. reflexivity.
  - inversion Hs' as [|p l Hv' _]; subst. simpl in Hv'.
    destruct (members_scalar_cons k' v' o' Hv') as [t' [_ E']].
    rewrite E'.
    change (join [44] ((QuoteJSONString k ++ 58 :: t)
                       :: (QuoteJSONString k' ++ 58 :: t')
                       :: members SerializeJSONProperty o'))
      with ((QuoteJSONString k ++ 58 :: t) ++ [44] ++
            join [44] ((QuoteJSONString k' ++ 58 :: t')
                       :: members SerializeJSONProperty o')).
    rewrite <- E'. rewrite <- !app_assoc. cbn [app].
    rewrite parse_members_step, P.
    cbn [skip_ws]. change (is_ws 44) with false. cbv iota.
    change (44 =? 44) with true. cbv iota.
    rewrite IH; [reflexivity | exact Hs' | discriminate | simpl in Hf |- *; lia].
Qed.

Lemma members_length (o : Obj) :
  scalar_props o ->
  (List.length o <= List.length (join [44%N] (members SerializeJSONProperty o)))%nat.
Proof.
  induction o as [|[k v] o IH]; intros Hs; [apply le_n|].
  inversion Hs as [|p l Hv Hs']; subst. simpl in Hv.
  destruct (members_scalar_cons k v o Hv) as [t [_ E]]. rewrite E.
  specialize (IH Hs').
  destruct (members SerializeJSONProperty o) as [|m ms] eqn:Em.
  - destruct o; [simpl; lia | simpl in IH; lia].
  - change (join [44] ((QuoteJSONString k ++ 58 :: t) :: m :: ms))
      with ((QuoteJSONString k ++ 58 :: t) ++ [44] ++ join [44] (m :: ms)).
    rewrite !length_app. simpl List.length in *. lia.
Qed.

(** Stringify then parse, on a flat object: the object built from the
    members in order. *)
Lemma JSON_roundtrip_flat (o : Obj) :
  scalar_props o ->
  exists text, JSON_stringify (JObj o) = Some text /\
               JSON_parse text = Some (JObj (obj_spread [] o)).
Proof.
  intros Hs.
  exists (123 :: join [44] (members SerializeJSONProperty o) ++ [125]).
  split; [reflexivity|].
  unfold JSON_parse.
  set (body := join [44] (members SerializeJSONProperty o)).
  replace (2 * List.length (123%N :: body ++ [125%N]) + 2)%nat
    with (S (S (2 * List.length body + 4)))%nat
    by (simpl; rewrite length_app; simpl; lia).
  destruct o as [|[k v] o'].
  - reflexivity.
  - assert (Hb : exists t, body = 34 :: t).
    { unfold body. inversion Hs as [|p l Hv Hs']; subst. simpl in Hv.
      destruct (members_scalar_cons k v o' Hv) as [t [_ E]]. rewrite E.
      destruct (members SerializeJSONProperty o');
        eexists; unfold QuoteJSONString; simpl; reflexivity. }
    destruct Hb as [t Hb].
    rewrite parse_value_object.
    rewrite Hb at 1. cbn [skip_ws]. change (34 =? 125) with false. cbv iota.
    unfold body. rewrite parse_members_flat.
    + reflexivity.
    + exact Hs.
    + discriminate.
    + pose proof (members_length _ Hs). fold body in H |- *. lia.
Qed.

(** ** Objects with distinct keys *)

Lemma obj_set_fresh (o : Obj) (k : jstring) (v : JsVal) :
  ~ In k (map fst o) -> obj_set o k v = o ++ [(k, v)].
Proof.
  induction o as [|[k' v'] o IH]; simpl; intros H; [reflexivity|].
  rewrite jstring_eqb_neq by tauto.
  rewrite IH by tauto. reflexivity.
Qed.

Lemma obj_spread_distinct (source target : Obj) :
  NoDup (map fst (target ++ source)) -> obj_spread target source = target ++ source.
Proof.
  revert target; induction source as [|[k v] source IH]; intros target H.
  - rewrite app_nil_r. reflexivity.
  - unfold obj_spread; simpl fold_left.
    assert (Hk : ~ In k (map fst target)).
    { rewrite map_app in H. simpl in H. apply NoDup_remove_2 in H.
      intros F. apply H. apply in_or_app. left; exact F. }
    rewrite obj_set_fresh by exact Hk.
    change (obj_spread (target ++ [(k, v)]) source = target ++ (k, v) :: source).
    rewrite IH; rewrite <- app_assoc; [reflexivity | exact H].
Qed.

(** ** The outbound dispatcher with transport *)

Lemma obj_get_absent (o : Obj) (k : jstring) :
  ~ In k (map fst o) -> obj_get o k = JUndefined.
Proof.
  induction o as [|[k' v] o IH]; simpl; intros H; [reflexivity|].
  rewrite jstring_eqb_neq by tauto. apply IH. tauto.
Qed.

Lemma defined_keys (o : Obj) (k : jstring) :
  In k (map fst (defined o)) -> In k (map fst o).
Proof.
  unfold defined. intros H. apply in_map_iff in H. destruct H as [p [E H]].
  apply filter_In in H. apply in_map_iff. exists p. tauto.
Qed.

Lemma NoDup_defined (o : Obj) :
  NoDup (map fst o) -> NoDup (map fst (defined o)).
Proof.
  induction o as [|[k v] o IH]; simpl; intros H; [constructor|].
  inversion H as [|? ? Hn Hd]; subst.
  destruct (is_defined v); simpl; [|apply IH; exact Hd].
  constructor; [|apply IH; exact Hd].
  intros F. apply Hn. apply defined_keys. exact F.
Qed.

(** Reading a property that holds [undefined] and reading one that is not
    there give the same. *)
Lemma obj_get_defined (o : Obj) (k : jstring) :
  NoDup (map fst o) -> obj_get (defined o) k = obj_get o k.
Proof.
  induction o as [|[k' v] o IH]; simpl; intros H; [reflexivity|].
  inversion H as [|? ? Hn Hd]; subst.
  destruct (is_defined v) eqn:Ev; simpl.
  - rewrite IH by exact Hd. reflexivity.
  - destruct (jstring_eqb k' k) eqn:E.
    + apply jstring_eqb_eq in E. subst k'.
      destruct v; try discriminate.
      apply obj_get_absent. intros F. apply Hn. apply defined_keys. exact F.
    + apply IH. exact Hd.
Qed.

Lemma members_defined (o : Obj) :
  members SerializeJSONProperty o = members SerializeJSONProperty (defined o).
Proof.
  induction o as [|[k v] o IH]; [reflexivity|].
  destruct v; simpl; rewrite IH; reflexivity.
Qed.

Lemma defined_all (o : Obj) :
  Forall (fun p => snd p <> JUndefined) o -> defined o = o.
Proof.
  induction 1 as [|[k v] o Hv _ IH]; [reflexivity|].
  simpl in *. destruct v; try congruence; simpl; rewrite IH; reflexivity.
Qed.

Lemma envelope_distinct (message : jstring) (o : Obj) :
  is_MessageOptions o ->
  NoDup (map fst ((lit "message", JStr message) :: o)) /\
  scalar_props (defined ((lit "message", JStr message) :: o)).
Proof.
  intros [Hnd Hf]. split.
  - simpl. constructor; [|exact Hnd].
    intros Hin. apply in_map_iff in Hin. destruct Hin as [[k v] [Ek Hin]].
    rewrite Forall_forall in Hf. destruct (Hf _ Hin) as [Hk _].
    simpl in Ek, Hk. subst k.
    destruct Hk as [E|[E|[E|[]]]]; vm_compute in E; discriminate.
  - simpl. constructor; [exact I|].
    rewrite Forall_forall in Hf. apply Forall_forall. intros p Hp.
    apply filter_In in Hp. destruct Hp as [Hp Hd].
    destruct (Hf p Hp) as [_ [[b Eb]|Eu]]; [rewrite Eb; exact I|].
    rewrite Eu in Hd. discriminate.
Qed.

(** C1: with the host transport present, [sendMessage] posts once and the
    world changes by that one event only.  The text posted is read back by
    [JSON.parse] as an object in which every property reads as it does in
    [{ message, ...options }]; when each flag present in [options] holds a
    boolean, it is that very object: [message], then exactly the properties
    of [options]. *)
Theorem sendMessage_forwards_envelope :
  forall (w : World) (message : jstring) (options : option Obj),
    PluginMessageHandler w = true ->
    is_MessageOptions (default_obj options) ->
    exists text decoded,
      sendMessage message options w =
        (emit (EvPostMessage (JStr text)) w, Normal tt) /\
      JSON_parse text = Some (JObj decoded) /\
      (forall k, obj_get decoded k =
                 obj_get ((lit "message", JStr message) :: default_obj options) k) /\
      (Forall (fun p => snd p <> JUndefined) (default_obj options) ->
       decoded = (lit "message", JStr message) :: default_obj options).
Proof.
  intros w message options Hw Ho.
  destruct (envelope_distinct message _ Ho) as [Hnd Hs].
  set (payload := (lit "message", JStr message) :: default_obj options) in *.
  unfold sendMessage. rewrite Hw.
  rewrite (obj_spread_distinct (default_obj options) [(lit "message", JStr message)])
    by exact Hnd.
  cbn [app]. fold payload.
  destruct (JSON_roundtrip_flat _ Hs) as [text [E P]].
  assert (E' : JSON_stringify (JObj payload) = Some text).
  { unfold JSON_stringify in *. cbn [SerializeJSONProperty] in *.
    rewrite members_defined. exact E. }
  exists text, (defined payload). rewrite E'.
  split; [reflexivity | split; [|split]].
  - rewrite P. rewrite (obj_spread_distinct _ []); [reflexivity|].
    apply NoDup_defined. exact Hnd.
  - intros k. apply obj_get_defined. exact Hnd.
  - intros Hd. apply defined_all. constructor; [discriminate | exact Hd].
Qed.

Lemma sendMessage_forwards_envelope_witness :
  exists text,
    sendMessage (lit "What time is it?") (Some [(lit "useLLM", JBool true)])
                world_in_host =
      (emit (EvPostMessage (JStr text)) world_in_host, Normal tt) /\
    JSON_parse text =
      Some (JObj [(lit "message", JStr (lit "What time is it?"));
                  (lit "useLLM", JBool true)]).
Proof.
  destruct (sendMessage_forwards_envelope world_in_host (lit "What time is it?")
              (Some [(lit "useLLM", JBool true)]))
    as [text [decoded (S & P & _ & D)]].
  - reflexivity.
  - split.
    + constructor; [intros [] | constructor].
    + constructor; [|constructor].
      split; [left; reflexivity | left; exists true; reflexivity].
  - exists text. split; [exact S|]. rewrite P, D; [reflexivity|].
    constructor; [discriminate | constructor].
Defined.

Example sendMessage_text :
  sendMessage (lit "What time is it?") (Some [(lit "useLLM", JBool true)])
              world_in_host =
  (emit (EvPostMessage (JStr (litq "{'message':'What time is it?','useLLM':true}")))
        world_in_host, Normal tt).
Proof. vm_compute. reflexivity. Qed.

(** ** What a listener's code does to the world *)

Local Close Scope N_scope.

Lemma nth_error_update_nth {A : Type} (f : A -> A) (l : list A) (n k : nat) :
  nth_error (update_nth n f l) k =
  if Nat.eqb n k then option_map f (nth_error l k) else nth_error l k.
Proof.
  revert n k; induction l as [|x l IH]; intros n k.
  - destruct (Nat.eqb n k); destruct k; destruct n; reflexivity.
  - destruct n, k; simpl; try reflexivity. apply IH.
Qed.

Lemma length_update_nth {A : Type} (f : A -> A) (l : list A) (n : nat) :
  List.length (update_nth n f l) = List.length l.
Proof.
  revert n; induction l as [|x l IH]; intros [|n]; simpl; auto.
Qed.

Lemma handlers_of_update (i j : nat) (f : SetData -> SetData) (w : World) :
  (i < List.length (instances w))%nat ->
  handlers_of i (update_handlers j f w) =
  if Nat.eqb j i then f (handlers_of i w) else handlers_of i w.
Proof.
  intros Hi. unfold handlers_of, update_handlers. simpl.
  rewrite nth_error_update_nth.
  destruct (nth_error (instances w) i) as [inst|] eqn:E.
  - destruct (Nat.eqb j i); reflexivity.
  - apply nth_error_None in E. lia.
Qed.

Lemma step_of_emit (i : nat) (w : World) (ev : Event) :
  step_of i w (emit ev w) (handlers_of i w) [ev].
Proof. repeat split; simpl; auto. Qed.

Lemma step_of_refl (i : nat) (w : World) : step_of i w w (handlers_of i w) [].
Proof. unfold step_of. rewrite app_nil_r. auto. Qed.

Lemma send_summary (i : nat) (m : jstring) (o : option Obj) (w : World) :
  exists evs,
    step_of i w (fst (sendMessage m o w)) (handlers_of i w) evs /\ outbound evs.
Proof.
  unfold sendMessage. destruct (PluginMessageHandler w).
  - eexists [_]. split; [apply step_of_emit | repeat constructor].
  - exists []. split; [apply step_of_refl | constructor].
Qed.

Lemma new_R1Messaging_summary (i : nat) (w : World) :
  (i < List.length (instances w))%nat ->
  step_of i w (fst (new_R1Messaging w)) (handlers_of i w) [] /\
  snd (new_R1Messaging w) = Normal (List.length (instances w)).
Proof.
  intros Hi. unfold new_R1Messaging, initializeMessageHandler, bind, ret.
  simpl. rewrite nth_error_app2, Nat.sub_diag by apply le_n. simpl.
  destruct (window w) as [win|]; simpl; (split; [|reflexivity]);
    unfold step_of, handlers_of; simpl.
  - rewrite nth_error_update_nth.
    replace (Nat.eqb (List.length (instances w)) i) with false
      by (symmetry; apply Nat.eqb_neq; lia).
    rewrite nth_error_app1 by exact Hi.
    rewrite length_update_nth, length_app, app_nil_r. simpl.
    repeat split; auto; lia.
  - rewrite nth_error_app1 by exact Hi.
    rewrite length_app, app_nil_r. simpl. repeat split; auto; lia.
Qed.

Lemma run_action_summary (i : nat) (a : Action) (w : World) :
  (i < List.length (instances w))%nat ->
  exists evs,
    step_of i w (fst (run_action a w)) (set_effect i a (handlers_of i w)) evs /\
    outbound evs /\
    snd (run_action a w) =
      match a with ActThrow v => Throw (Thrown v) | _ => Normal tt end.
Proof.
  intros Hi.
  assert (U : forall j f,
             step_of i w (update_handlers j f w)
               (if Nat.eqb j i then f (handlers_of i w) else handlers_of i w) []).
  { intros j f. unfold step_of. rewrite handlers_of_update by exact Hi.
    simpl. rewrite length_update_nth, app_nil_r. auto. }
  pose proof (send_summary i) as D.
  destruct a; simpl.
  - exists []. split; [apply U | split; [constructor | reflexivity]].
  - exists []. split; [apply U | split; [constructor | reflexivity]].
  - exists []. split; [apply U | split; [constructor | reflexivity]].
  - destruct (D message options w) as [evs [S O]]. exists evs. auto.
  - destruct (D message (Some (obj_spread [(lit "useLLM", JBool true)]
                                          (default_obj options))) w)
      as [evs [S O]]. exists evs. auto.
  - unfold askLLMSpeak, askLLM.
    match goal with |- context [sendMessage ?m ?o w] =>
      destruct (D m o w) as [evs [S O]] end.
    exists evs. auto.
  - unfold askLLMJSON, askLLM.
    match goal with |- context [sendMessage ?m ?o w] =>
      destruct (D m o w) as [evs [S O]] end.
    exists evs. auto.
  - unfold closePlugin. destruct (closeWebView w).
    + eexists [_]. split; [apply step_of_emit | split; [repeat constructor | reflexivity]].
    + exists []. split; [apply step_of_refl | split; [constructor | reflexivity]].
  - destruct (new_R1Messaging_summary i w Hi) as [S E].
    exists []. unfold bind. destruct (new_R1Messaging w) as [w' c].
    simpl in *. subst c. simpl. split; [exact S | split; [constructor | reflexivity]].
  - exists []. split; [apply step_of_refl | split; [constructor | reflexivity]].
Qed.

Lemma step_of_trans (i : nat) (w w1 w2 : World) (s1 s2 : SetData)
      (evs1 evs2 : list Event) :
  step_of i w w1 s1 evs1 -> step_of i w1 w2 s2 evs2 ->
  step_of i w w2 s2 (evs1 ++ evs2).
Proof.
  intros (H1 & L1 & O1 & T1) (H2 & L2 & O2 & T2). unfold step_of.
  rewrite T2, T1, O2, O1, app_assoc. repeat split; auto; lia.
Qed.

Lemma outbound_app (evs1 evs2 : list Event) :
  outbound evs1 -> outbound evs2 -> outbound (evs1 ++ evs2).
Proof. intros H1 H2. apply Forall_app; split; assumption. Qed.

Lemma outbound_invoked (evs : list Event) : outbound evs -> invoked evs = [].
Proof.
  induction 1 as [|ev evs H _ IH]; [reflexivity|].
  destruct ev; simpl; try contradiction; exact IH.
Qed.

Lemma invoked_app (evs1 evs2 : list Event) :
  invoked (evs1 ++ evs2) = invoked evs1 ++ invoked evs2.
Proof.
  induction evs1 as [|ev evs1 IH]; [reflexivity|].
  destruct ev; simpl; rewrite IH; reflexivity.
Qed.

Lemma run_actions_summary (i : nat) (acts : list Action) :
  forall w : World,
    (i < List.length (instances w))%nat ->
    exists evs,
      step_of i w (fst (run_actions acts w))
              (acts_effect i acts (handlers_of i w)) evs /\
      outbound evs /\
      snd (run_actions acts w) =
        match thrown acts with
        | Some v => Throw (Thrown v)
        | None => Normal tt
        end.
Proof.
  induction acts as [|a acts IH]; intros w Hi.
  - exists []. split; [apply step_of_refl | split; [constructor | reflexivity]].
  - destruct (run_action_summary i a w Hi) as [evs1 [S1 [O1 C1]]].
    cbn [run_actions]. unfold bind.
    destruct (run_action a w) as [w1 c1] eqn:E1. cbn [fst snd] in S1, C1.
    assert (Hi1 : (i < List.length (instances w1))%nat)
      by (destruct S1 as (_ & L & _); lia).
    destruct (IH w1 Hi1) as [evs2 [S2 [O2 C2]]].
    assert (K : exists evs,
               step_of i w (fst (run_actions acts w1))
                 (acts_effect i acts (set_effect i a (handlers_of i w))) evs /\
               outbound evs).
    { exists (evs1 ++ evs2). split; [|apply outbound_app; assumption].
      eapply step_of_trans; [exact S1|].
      destruct S1 as (H1 & _). rewrite <- H1. exact S2. }
    destruct K as [evs [S O]].
    destruct a; subst c1; cbn [acts_effect thrown];
      try (exists evs; split; [exact S | split; [exact O | exact C2]]).
    exists evs1. cbn [fst snd]. auto.
Qed.

(** ** Set entries only fade *)

Lemma fades_refl (s : SetData) : fades s s.
Proof. split; [apply le_n | auto]. Qed.

Lemma fades_trans (s1 s2 s3 : SetData) : fades s1 s2 -> fades s2 s3 -> fades s1 s3.
Proof.
  intros [L1 H1] [L2 H2]. split; [lia|].
  intros j Hj. destruct (H2 j ltac:(lia)) as [E|E]; [|auto].
  rewrite E. apply H1. exact Hj.
Qed.

Lemma fades_add (s : SetData) (h : Handler) : fades s (set_add s h).
Proof.
  unfold set_add. destruct (set_has s h); [apply fades_refl|].
  split; [rewrite length_app; lia|].
  intros j Hj. left. apply nth_error_app1. exact Hj.
Qed.

Lemma fades_map (f : option Handler -> option Handler) (s : SetData) :
  (forall e, f e = e \/ f e = None) -> fades s (map f s).
Proof.
  intros Hf. split; [rewrite length_map; apply le_n|].
  intros j Hj. rewrite nth_error_map.
  destruct (nth_error s j) as [e|]; simpl; [|auto].
  destruct (Hf e) as [E|E]; rewrite E; auto.
Qed.

Lemma fades_set_effect (i : nat) (a : Action) (s : SetData) :
  fades s (set_effect i a s).
Proof.
  destruct a; simpl; try apply fades_refl;
    destruct (Nat.eqb inst i); try apply fades_refl.
  - apply fades_add.
  - apply fades_map. intros e. destruct (entry_is h e); auto.
  - apply fades_map. auto.
Qed.

Lemma fades_acts_effect (i : nat) (acts : list Action) :
  forall s, fades s (acts_effect i acts s).
Proof.
  induction acts as [|a acts IH]; intros s; [apply fades_refl|].
  destruct a; simpl; try apply fades_refl;
    (eapply fades_trans; [|apply IH]);
    try apply fades_refl;
    match goal with |- fades s ?x =>
      match x with
      | context [Nat.eqb ?j i] =>
          first [apply (fades_set_effect i (CallOnMessage j h) s)
                |apply (fades_set_effect i (CallOffMessage j h) s)
                |apply (fades_set_effect i (CallRemoveAllHandlers j) s)]
      end
    end.
Qed.

(** ** The fan-out *)

Lemma outbound_calls_with (ref : nat) (evs : list Event) :
  outbound evs -> calls_with ref evs.
Proof.
  intros H. eapply Forall_impl; [|exact H].
  intros [] F; simpl in *; auto; contradiction.
Qed.

Section FanOut.

Variable body : ListenerCode.
Variable this : nat.
Variable ref : nat.
Variable e : EnhancedData.

Local Abbreviation cb := (fanout_callback body ref e).

Lemma callback_summary (h : Handler) (w : World) :
  (this < List.length (instances w))%nat ->
  exists evs,
    step_of this w (fst (cb h w))
            (acts_effect this (body h e w) (handlers_of this w))
            (EvInvoke h ref :: evs) /\
    snd (cb h w) = Normal tt /\
    invoked evs = [] /\
    calls_with ref evs /\
    (forall v, thrown (body h e w) = Some v ->
               In (EvConsoleError handler_error_label (Thrown v)) evs).
Proof.
  intros Hi. unfold cb, fanout_callback, try_catch, call_handler, bind, effect.
  assert (Hi' : (this < List.length (instances (emit (EvInvoke h ref) w)))%nat)
    by exact Hi.
  destruct (run_actions_summary this (body h e w) _ Hi') as [evs [S [O C]]].
  destruct (run_actions (body h e w) (emit (EvInvoke h ref) w)) as [w1 c1].
  cbn [fst snd] in *.
  assert (S0 : step_of this w w1
                 (acts_effect this (body h e w) (handlers_of this w))
                 ([EvInvoke h ref] ++ evs)).
  { eapply step_of_trans; [apply step_of_emit | exact S]. }
  destruct (thrown (body h e w)) as [v|]; subst c1.
  - exists (evs ++ [EvConsoleError handler_error_label (Thrown v)]).
    unfold console_error, effect. cbn [fst snd].
    split; [|split; [reflexivity | split; [|split]]].
    + change (EvInvoke h ref :: evs ++ [EvConsoleError handler_error_label (Thrown v)])
        with (([EvInvoke h ref] ++ evs) ++ [EvConsoleError handler_error_label (Thrown v)]).
      eapply step_of_trans; [exact S0|].
      destruct S0 as (H0 & _). rewrite <- H0. apply step_of_emit.
    + rewrite invoked_app, (outbound_invoked _ O). reflexivity.
    + apply Forall_app; split; [apply outbound_calls_with; exact O|].
      repeat constructor.
    + intros v' Ev. injection Ev as <-. apply in_or_app. right. left. reflexivity.
  - exists evs. cbn [fst snd].
    split; [exact S0 | split; [reflexivity | split; [|split]]].
    + apply outbound_invoked; exact O.
    + apply outbound_calls_with; exact O.
    + discriminate.
Qed.

Lemma forEach_unfold (fuel index : nat) (w : World) :
  forEach fuel this cb index w =
  match nth_error (handlers_of this w) index with
  | None => (w, Normal tt)
  | Some entry =>
      match fuel with
      | O => (w, OutOfFuel)
      | S fuel' =>
          match entry with
          | None => forEach fuel' this cb (S index) w
          | Some h =>
              match cb h w with
              | (w', Normal _) => forEach fuel' this cb (S index) w'
              | (w', Throw x) => (w', Throw x)
              | (w', OutOfFuel) => (w', OutOfFuel)
              end
          end
      end
  end.
Proof. destruct fuel; reflexivity. Qed.

(** What every fan-out does, whatever the listeners do: it adds events,
    lets entries fade, and ends normally or runs out of steps. *)
Lemma forEach_summary (fuel : nat) :
  forall (index : nat) (w : World),
    (this < List.length (instances w))%nat ->
    exists evs s',
      step_of this w (fst (forEach fuel this cb index w)) s' evs /\
      fades (handlers_of this w) s' /\
      calls_with ref evs /\
      (snd (forEach fuel this cb index w) = Normal tt \/
       snd (forEach fuel this cb index w) = OutOfFuel).
Proof.
  induction fuel as [|fuel IH]; intros index w Hi; rewrite forEach_unfold.
  - exists [], (handlers_of this w).
    destruct (nth_error (handlers_of this w) index); cbn [fst snd];
      (split; [apply step_of_refl | split; [apply fades_refl | split; [constructor | auto]]]).
  - destruct (nth_error (handlers_of this w) index) as [[h|]|].
    + destruct (callback_summary h w Hi) as [evs1 [S1 [C1 [_ [R1 _]]]]].
      destruct (cb h w) as [w1 c1]. cbn [fst snd] in *. subst c1.
      assert (Hi1 : (this < List.length (instances w1))%nat)
        by (destruct S1 as (_ & L & _); lia).
      destruct (IH (S index) w1 Hi1) as [evs2 [s2 [S2 [F2 [R2 C2]]]]].
      exists ((EvInvoke h ref :: evs1) ++ evs2), s2.
      split; [eapply step_of_trans; eassumption|].
      split; [|split; [|exact C2]].
      * eapply fades_trans; [|exact F2].
        destruct S1 as (H1 & _). rewrite H1. apply fades_acts_effect.
      * apply Forall_app; split; [constructor; [reflexivity | exact R1] | exact R2].
    + apply IH. exact Hi.
    + exists [], (handlers_of this w). cbn [fst snd].
      split; [apply step_of_refl | split; [apply fades_refl | split; [constructor | auto]]].
Qed.

End FanOut.

(** ** One delivery *)

Lemma skipn_trace (evs0 evs : list Event) :
  skipn (List.length evs0) (evs0 ++ evs) = evs.
Proof. induction evs0; simpl; auto. Qed.

Lemma forEach_no_instance (body : ListenerCode)
      (fuel this ref : nat) (e : EnhancedData) (w : World) :
  (List.length (instances w) <= this)%nat ->
  forEach fuel this (fanout_callback body ref e) 0 w = (w, Normal tt).
Proof.
  intros H. rewrite forEach_unfold. unfold handlers_of.
  replace (nth_error (instances w) this) with (@None R1Messaging)
    by (symmetry; apply nth_error_None; exact H).
  reflexivity.
Qed.

(** A delivery of an object: the enhanced object is made, then the fan-out
    runs; the outer [catch] has nothing to catch. *)
Lemma closure_object (body : ListenerCode)
      (this fuel : nat) (d : PluginMessageResponse) (w : World) :
  plugin_message_closure body this fuel (ArgObject d) w =
  forEach fuel this (fanout_callback body (List.length (objects w)) (enhance d)) 0
          (with_objects (objects w ++ [enhance d]) w).
Proof.
  unfold plugin_message_closure, try_catch, bind, read_delivery, ret, new_object.
  set (w0 := with_objects (objects w ++ [enhance d]) w).
  destruct (Nat.lt_ge_cases this (List.length (instances w0))) as [Hi|Hi].
  - destruct (forEach_summary body this (List.length (objects w)) (enhance d)
                              fuel 0 w0 Hi) as [evs [s' [_ [_ [_ C]]]]].
    destruct (forEach fuel this _ 0 w0) as [w1 c1]. cbn [snd] in C.
    destruct C; subst c1; reflexivity.
  - rewrite forEach_no_instance by exact Hi. reflexivity.
Qed.

Lemma closure_malformed (body : ListenerCode)
      (this fuel : nat) (arg : HostArg) (w : World) :
  arg = ArgNull \/ arg = ArgUndefined ->
  plugin_message_closure body this fuel arg w =
  (emit (EvConsoleError processing_error_label TypeError) w, Normal tt).
Proof. intros [-> | ->]; reflexivity. Qed.

Lemma closure_no_throw (body : ListenerCode)
      (this fuel : nat) (arg : HostArg) (w : World) :
  snd (plugin_message_closure body this fuel arg w) = Normal tt \/
  snd (plugin_message_closure body this fuel arg w) = OutOfFuel.
Proof.
  destruct arg as [| |d];
    try (rewrite closure_malformed by auto; left; reflexivity).
  rewrite closure_object.
  set (w0 := with_objects (objects w ++ [enhance d]) w).
  destruct (Nat.lt_ge_cases this (List.length (instances w0))) as [Hi|Hi].
  - destruct (forEach_summary body this (List.length (objects w)) (enhance d)
                              fuel 0 w0 Hi) as [evs [s' [_ [_ [_ C]]]]].
    exact C.
  - rewrite forEach_no_instance by exact Hi. left; reflexivity.
Qed.

(** The object a delivery makes, and the events it adds. *)
Lemma delivery_summary (body : ListenerCode)
      (this fuel : nat) (d : PluginMessageResponse) (w : World) :
  window w = Some {| onPluginMessage := Some this |} ->
  let w' := fst (host_deliver body fuel (ArgObject d) w) in
  nth_error (objects w') (List.length (objects w)) = Some (enhance d) /\
  trace w' = trace w ++ delivered_events body fuel (ArgObject d) w /\
  calls_with (List.length (objects w)) (delivered_events body fuel (ArgObject d) w).
Proof.
  intros Hw. unfold delivered_events, host_deliver. rewrite Hw.
  rewrite closure_object.
  set (w0 := with_objects (objects w ++ [enhance d]) w).
  destruct (Nat.lt_ge_cases this (List.length (instances w0))) as [Hi|Hi].
  - destruct (forEach_summary body this (List.length (objects w)) (enhance d)
                              fuel 0 w0 Hi) as [evs [s' [S [_ [R _]]]]].
    destruct S as (_ & _ & O & T). cbn zeta. rewrite O, T.
    change (trace w0) with (trace w). rewrite skipn_trace.
    split; [|split; [reflexivity | exact R]].
    unfold w0; simpl. rewrite nth_error_app2, Nat.sub_diag by apply le_n.
    reflexivity.
  - rewrite forEach_no_instance by exact Hi. cbn zeta. cbn [fst].
    change (trace w0) with (trace w). rewrite skipn_all.
    split; [|split; [rewrite app_nil_r; reflexivity | constructor]].
    unfold w0; simpl. rewrite nth_error_app2, Nat.sub_diag by apply le_n.
    reflexivity.
Qed.

Lemma host_deliver_no_throw
      (body : ListenerCode) (fuel : nat)
      (arg : HostArg) (w : World) (x : Exception) :
  snd (host_deliver body fuel arg w) <> Throw x.
Proof.
  unfold host_deliver.
  destruct (window w) as [[[this|]]|]; try discriminate.
  destruct (closure_no_throw body this fuel arg w) as [E|E];
    rewrite E; discriminate.
Qed.

(** C9: a failure of the delivery itself is caught at the outer boundary.
    Whatever the host passes and whatever the listeners do, the registered
    callback never ends by an exception; and for [null] or [undefined],
    where reading [data.data] fails, it logs the error and returns, having
    called no listener. *)
Theorem dispatch_fault_is_swallowed :
  forall (body : ListenerCode) (fuel : nat)
         (arg : HostArg) (w : World),
    (forall x, snd (host_deliver body fuel arg w) <> Throw x) /\
    (forall this,
        window w = Some {| onPluginMessage := Some this |} ->
        arg = ArgNull \/ arg = ArgUndefined ->
        host_deliver body fuel arg w =
        (emit (EvConsoleError processing_error_label TypeError) w, Normal tt)).
Proof.
  intros body fuel arg w. split.
  - intros x. apply host_deliver_no_throw.
  - intros this Hw Harg. unfold host_deliver. rewrite Hw.
    apply closure_malformed. exact Harg.
Qed.

Lemma dispatch_fault_is_swallowed_witness :
  host_deliver silent_body 0 ArgNull world_two_listeners =
  (emit (EvConsoleError processing_error_label TypeError) world_two_listeners,
   Normal tt).
Proof.
  apply (proj2 (dispatch_fault_is_swallowed silent_body 0 ArgNull
                  world_two_listeners) 0%nat).
  - reflexivity.
  - left; reflexivity.
Defined.

(** ** [parsedData] *)

(** C10: a delivery whose [data] is the empty string gets [parsedData]
    undefined, as if [data] were absent, and not the empty string. *)
Theorem empty_data_is_not_parsed :
  forall (body : ListenerCode) (fuel this : nat)
         (d : PluginMessageResponse) (w : World),
    window w = Some {| onPluginMessage := Some this |} ->
    data d = Some [] ->
    let w' := fst (host_deliver body fuel (ArgObject d) w) in
    let ref := List.length (objects w) in
    exists enhancedData,
      nth_error (objects w') ref = Some enhancedData /\
      calls_with ref (delivered_events body fuel (ArgObject d) w) /\
      response enhancedData = d /\
      parsedData enhancedData = JUndefined /\
      parsedData enhancedData <> JStr [].
Proof.
  intros body fuel this d w Hw Hd w' ref.
  destruct (delivery_summary body this fuel d w Hw) as (O & _ & R).
  exists (enhance d). split; [exact O | split; [exact R | split; [reflexivity|]]].
  unfold enhance, parse_data; simpl. rewrite Hd. split; [reflexivity | discriminate].
Qed.

Lemma empty_data_is_not_parsed_witness :
  exists enhancedData,
    nth_error
      (objects (fst (host_deliver silent_body 2 (ArgObject empty_data_delivery)
                                  world_two_listeners))) 0 = Some enhancedData /\
    calls_with 0 (delivered_events silent_body 2 (ArgObject empty_data_delivery)
                                   world_two_listeners) /\
    response enhancedData = empty_data_delivery /\
    parsedData enhancedData = JUndefined /\
    parsedData enhancedData <> JStr [].
Proof.
  apply (empty_data_is_not_parsed silent_body 2 0 empty_data_delivery
           world_two_listeners); reflexivity.
Defined.

(** C5, as amended: the object that a delivery hands to the listeners has
    [parsedData] equal to the decoded document when [data] is a non-empty
    string that parses as JSON, to the raw string when [data] is a
    non-empty string that does not parse, and to [undefined] when [data] is
    absent or empty; the host's call does not end by an exception. *)
Theorem parsedData_of_delivery :
  forall (body : ListenerCode) (fuel this : nat)
         (d : PluginMessageResponse) (w : World),
    window w = Some {| onPluginMessage := Some this |} ->
    let w' := fst (host_deliver body fuel (ArgObject d) w) in
    let ref := List.length (objects w) in
    exists enhancedData,
      nth_error (objects w') ref = Some enhancedData /\
      calls_with ref (delivered_events body fuel (ArgObject d) w) /\
      response enhancedData = d /\
      (forall x, snd (host_deliver body fuel (ArgObject d) w) <> Throw x) /\
      (forall s doc, data d = Some s -> s <> [] -> JSON_parse s = Some doc ->
                     parsedData enhancedData = doc) /\
      (forall s, data d = Some s -> s <> [] -> JSON_parse s = None ->
                 parsedData enhancedData = JStr s) /\
      (data d = None \/ data d = Some [] -> parsedData enhancedData = JUndefined).
Proof.
  intros body fuel this d w Hw w' ref.
  destruct (delivery_summary body this fuel d w Hw) as (O & _ & R).
  exists (enhance d).
  split; [exact O | split; [exact R | split; [reflexivity | split]]].
  - apply host_deliver_no_throw.
  - unfold enhance, parse_data; simpl. repeat split.
    + intros s doc Hd Hs Hp. rewrite Hd. destruct s; [congruence|].
      rewrite Hp. reflexivity.
    + intros s Hd Hs Hp. rewrite Hd. destruct s; [congruence|].
      rewrite Hp. reflexivity.
    + intros [Hd|Hd]; rewrite Hd; reflexivity.
Qed.

Lemma parsedData_of_delivery_witness :
  (exists e,
      nth_error
        (objects (fst (host_deliver silent_body 2 (ArgObject json_delivery)
                                    world_two_listeners))) 0 = Some e /\
      parsedData e = JObj [(lit "a", JNum 1 0)]) /\
  (exists e,
      nth_error
        (objects (fst (host_deliver silent_body 2 (ArgObject text_delivery)
                                    world_two_listeners))) 0 = Some e /\
      parsedData e = JStr (lit "plain text")).
Proof.
  split.
  - destruct (parsedData_of_delivery silent_body 2 0 json_delivery
                world_two_listeners eq_refl) as [e (O & _ & _ & _ & P & _)].
    exists e. split; [exact O|].
    apply (P (litq "{'a':1}")); [reflexivity | discriminate | reflexivity].
  - destruct (parsedData_of_delivery silent_body 2 0 text_delivery
                world_two_listeners eq_refl) as [e (O & _ & _ & _ & _ & P & _)].
    exists e. split; [exact O|].
    apply (P (lit "plain text")); [reflexivity | discriminate | reflexivity].
Defined.

(** C5 as stated fails on the empty string: [data] is present and
    [JSON.parse] rejects it, yet [parsedData] is [undefined], not the raw
    string. *)
Lemma parsedData_claim_counterexample :
  data empty_data_delivery = Some [] /\
  JSON_parse [] = None /\
  exists e,
    nth_error
      (objects (fst (host_deliver silent_body 2 (ArgObject empty_data_delivery)
                                  world_two_listeners))) 0 = Some e /\
    parsedData e = JUndefined /\
    ~ parsedData_claim empty_data_delivery (parsedData e).
Proof.
  split; [reflexivity | split; [reflexivity|]].
  eexists. split; [reflexivity|]. split; [reflexivity|].
  unfold parsedData_claim; simpl. discriminate.
Qed.

(** ** Order and isolation of the listeners *)

Lemma keeps_set_effect (i : nat) (h : Handler) (a : Action) (s : SetData) (k : nat) :
  keeps_action i h a = true ->
  nth_error s k = Some (Some h) ->
  nth_error (set_effect i a s) k = Some (Some h).
Proof.
  intros Hk Hs. destruct a; simpl in *; try exact Hs.
  - destruct (Nat.eqb inst i); [|exact Hs].
    unfold set_add. destruct (set_has s h0); [exact Hs|].
    rewrite nth_error_app1; [exact Hs|]. apply nth_error_Some. congruence.
  - destruct (Nat.eqb inst i); [|exact Hs]. simpl in Hk.
    unfold set_delete. rewrite nth_error_map, Hs. simpl.
    apply negb_true_iff in Hk. rewrite Nat.eqb_sym, Hk. reflexivity.
  - destruct (Nat.eqb inst i); [discriminate | exact Hs].
Qed.

Lemma keeps_acts_effect (i : nat) (h : Handler) (acts : list Action) (k : nat) :
  keeps i h acts = true ->
  forall s, nth_error s k = Some (Some h) ->
            nth_error (acts_effect i acts s) k = Some (Some h).
Proof.
  induction acts as [|a acts IH]; intros Hk s Hs; [exact Hs|].
  simpl in Hk. apply andb_true_iff in Hk. destruct Hk as [Ha Hk].
  pose proof (keeps_set_effect i h a s k Ha Hs) as H1.
  destruct a; cbn [acts_effect]; try (apply IH; assumption).
  exact Hs.
Qed.

Lemma handlers_of_valid (i : nat) (w : World) (k : nat) (x : option Handler) :
  nth_error (handlers_of i w) k = Some x ->
  (i < List.length (instances w))%nat.
Proof.
  unfold handlers_of. intros H. apply nth_error_Some.
  destruct (nth_error (instances w) i); [discriminate|].
  destruct k; discriminate.
Qed.

Lemma fades_entry (s0 s : SetData) (j : nat) (h : Handler) :
  fades s0 s -> (j < List.length s0)%nat ->
  nth_error s j = Some (Some h) -> nth_error s0 j = Some (Some h).
Proof.
  intros [_ F] Hj E. destruct (F j Hj) as [E'|E']; congruence.
Qed.

Section Order.

Variable body : ListenerCode.
Variable this : nat.
Variable ref : nat.
Variable e : EnhancedData.

(** The listener set when the fan-out begins. *)
Variable s0 : SetData.

Local Abbreviation cb := (fanout_callback body ref e).

(** A listener that none of the listeners ahead of it unregisters is reached
    at its place. *)
Lemma forEach_reaches (L : Handler) (b : nat) :
  (b < List.length s0)%nat ->
  (forall j h w', (j < b)%nat -> nth_error s0 j = Some (Some h) ->
                  keeps this L (body h e w') = true) ->
  forall (fuel index : nat) (w : World),
    fades s0 (handlers_of this w) ->
    nth_error (handlers_of this w) b = Some (Some L) ->
    (index <= b)%nat -> (b < index + fuel)%nat ->
    exists t1 t3 s',
      step_of this w (fst (forEach fuel this cb index w)) s'
              (t1 ++ EvInvoke L ref :: t3).
Proof.
  intros Hb0 Hk.
  induction fuel as [|fuel IH]; intros index w Hf Hb Hle Hlt; [lia|].
  pose proof (handlers_of_valid _ _ _ _ Hb) as Hi.
  rewrite forEach_unfold.
  destruct (nth_error (handlers_of this w) index) as [[h|]|] eqn:E.
  - destruct (callback_summary body this ref e h w Hi) as [evs1 [S1 [C1 _]]].
    destruct (cb h w) as [w1 c1]. cbn [fst snd] in *. subst c1.
    assert (Hi1 : (this < List.length (instances w1))%nat)
      by (destruct S1 as (_ & L1 & _); lia).
    destruct (Nat.eq_dec index b) as [->|Hne].
    + assert (h = L) by congruence. subst h.
      destruct (forEach_summary body this ref e fuel (S b) w1 Hi1)
        as [evs2 [s2 [S2 _]]].
      exists [], (evs1 ++ evs2), s2.
      change ([] ++ EvInvoke L ref :: evs1 ++ evs2)
        with ((EvInvoke L ref :: evs1) ++ evs2).
      eapply step_of_trans; eassumption.
    + assert (E0 : nth_error s0 index = Some (Some h))
        by (eapply fades_entry; [exact Hf | lia | exact E]).
      destruct S1 as (H1 & S1').
      assert (Hb1 : nth_error (handlers_of this w1) b = Some (Some L)).
      { rewrite H1. apply keeps_acts_effect; [|exact Hb].
        apply (Hk index); [lia | exact E0]. }
      assert (Hf1 : fades s0 (handlers_of this w1)).
      { eapply fades_trans; [exact Hf|]. rewrite H1. apply fades_acts_effect. }
      destruct (IH (S index) w1 Hf1 Hb1 ltac:(lia) ltac:(lia))
        as [t1 [t3 [s2 S2]]].
      exists ((EvInvoke h ref :: evs1) ++ t1), t3, s2.
      rewrite <- app_assoc.
      eapply step_of_trans; [split; [exact H1 | exact S1'] | exact S2].
  - destruct (Nat.eq_dec index b) as [->|Hne]; [congruence|].
    apply IH; [exact Hf | exact Hb | lia | lia].
  - apply nth_error_None in E.
    assert (b < List.length (handlers_of this w))%nat
      by (apply nth_error_Some; congruence).
    lia.
Qed.

(** Two listeners, each unregistered by none of the listeners ahead of it,
    are called in the order of their places; what the first one throws is
    logged between the two calls.  The world in which the first one is
    called is the one that the loop has reached when it is to read place
    [a]: the loop takes one step for each place, so that is where it stops
    when it is given [a - index] steps. *)
Lemma forEach_in_order_at (L1 L2 : Handler) (a b : nat) :
  (b < List.length s0)%nat ->
  (forall j h w', (j < a)%nat -> nth_error s0 j = Some (Some h) ->
                  keeps this L1 (body h e w') = true) ->
  (forall j h w', (j < b)%nat -> nth_error s0 j = Some (Some h) ->
                  keeps this L2 (body h e w') = true) ->
  (a < b)%nat ->
  forall (fuel index : nat) (w : World),
    fades s0 (handlers_of this w) ->
    nth_error (handlers_of this w) a = Some (Some L1) ->
    nth_error (handlers_of this w) b = Some (Some L2) ->
    (index <= a)%nat -> (b < index + fuel)%nat ->
    let w_call := fst (forEach (a - index) this cb index w) in
    exists t1 t2 t3 s',
      step_of this w (fst (forEach fuel this cb index w)) s'
              (t1 ++ EvInvoke L1 ref :: t2 ++ EvInvoke L2 ref :: t3) /\
      trace w_call = trace w ++ t1 /\
      nth_error (handlers_of this w_call) a = Some (Some L1) /\
      (forall v, thrown (body L1 e w_call) = Some v ->
                 In (EvConsoleError handler_error_label (Thrown v)) t2).
Proof.
  intros Hb0 Hk1 Hk2 Hab.
  induction fuel as [|fuel IH]; intros index w Hf Ha Hb Hle Hlt; [lia|].
  pose proof (handlers_of_valid _ _ _ _ Ha) as Hi.
  destruct (Nat.eq_dec index a) as [->|Hne].
  - rewrite Nat.sub_diag. rewrite (forEach_unfold body this ref e 0 a w), Ha.
    cbn [fst]. rewrite forEach_unfold, Ha.
    destruct (callback_summary body this ref e L1 w Hi)
      as [evs1 [S1 [C1 [_ [_ T1]]]]].
    destruct (cb L1 w) as [w1 c1]. cbn [fst snd] in *. subst c1.
    destruct S1 as (H1 & S1').
    assert (Hb1 : nth_error (handlers_of this w1) b = Some (Some L2)).
    { rewrite H1. apply keeps_acts_effect; [|exact Hb].
      apply (Hk2 a); [lia|]. eapply fades_entry; [exact Hf | lia | exact Ha]. }
    assert (Hf1 : fades s0 (handlers_of this w1)).
    { eapply fades_trans; [exact Hf|]. rewrite H1. apply fades_acts_effect. }
    destruct (forEach_reaches L2 b Hb0 Hk2 fuel (S a) w1 Hf1 Hb1
                ltac:(lia) ltac:(lia)) as [u1 [u3 [s2 S2]]].
    exists [], (evs1 ++ u1), u3, s2. split; [|split; [|split]].
    + change ([] ++ EvInvoke L1 ref :: (evs1 ++ u1) ++ EvInvoke L2 ref :: u3)
        with ((EvInvoke L1 ref :: (evs1 ++ u1)) ++ EvInvoke L2 ref :: u3).
      replace ((EvInvoke L1 ref :: (evs1 ++ u1)) ++ EvInvoke L2 ref :: u3)
        with ((EvInvoke L1 ref :: evs1) ++ u1 ++ EvInvoke L2 ref :: u3)
        by (simpl; rewrite <- app_assoc; reflexivity).
      eapply step_of_trans; [split; [exact H1 | exact S1'] | exact S2].
    + rewrite app_nil_r. reflexivity.
    + reflexivity.
    + intros v Hv. apply in_or_app. left. apply T1. exact Hv.
  - replace (a - index) with (S (a - S index)) by lia.
    rewrite (forEach_unfold body this ref e (S (a - S index)) index w).
    rewrite (forEach_unfold body this ref e (S fuel) index w).
    destruct (nth_error (handlers_of this w) index) as [[h|]|] eqn:E.
    + destruct (callback_summary body this ref e h w Hi)
        as [evs1 [S1 [C1 _]]].
      destruct (cb h w) as [w1 c1]. cbn [fst snd] in *. subst c1.
      assert (E0 : nth_error s0 index = Some (Some h))
        by (eapply fades_entry; [exact Hf | lia | exact E]).
      destruct S1 as (H1 & S1').
      assert (Hb1 : nth_error (handlers_of this w1) b = Some (Some L2)).
      { rewrite H1. apply keeps_acts_effect; [|exact Hb].
        apply (Hk2 index); [lia | exact E0]. }
      assert (Hf1 : fades s0 (handlers_of this w1)).
      { eapply fades_trans; [exact Hf|]. rewrite H1. apply fades_acts_effect. }
      assert (Ha1 : nth_error (handlers_of this w1) a = Some (Some L1)).
      { rewrite H1. apply keeps_acts_effect; [|exact Ha].
        apply (Hk1 index); [lia | exact E0]. }
      destruct (IH (S index) w1 Hf1 Ha1 Hb1 ltac:(lia) ltac:(lia))
        as [t1 [t2 [t3 [s2 [S2 [Tr [Ac T2]]]]]]].
      exists ((EvInvoke h ref :: evs1) ++ t1), t2, t3, s2.
      split; [|split; [|split; [exact Ac | exact T2]]].
      * rewrite <- app_assoc.
        eapply step_of_trans; [split; [exact H1 | exact S1'] | exact S2].
      * rewrite Tr. destruct S1' as (_ & _ & T). rewrite T, app_assoc.
        reflexivity.
    + apply IH; [exact Hf | exact Ha | exact Hb | lia | lia].
    + apply nth_error_None in E.
      assert (a < List.length (handlers_of this w))%nat
        by (apply nth_error_Some; congruence).
      lia.
Qed.

End Order.

(** C4, as amended: when L1 and L2 are registered in that order, no
    listener ahead of L1 unregisters L1 and no listener ahead of L2
    unregisters L2, a delivery calls L1 before L2, both with the reference
    of the one enhanced object; if L1 throws when it is called, the
    exception is logged before L2 is called; and the host's call does not
    end by an exception.  The world [w_call] in which L1 is called is what
    the delivery has made of the world when the loop comes to the place [a]
    of L1, which is after [a] steps: it holds the events [t1] that come
    before the call, and L1 at its place. *)
Theorem fanout_order_and_isolation :
  forall (body : ListenerCode) (fuel this : nat)
         (d : PluginMessageResponse) (w : World) (L1 L2 : Handler) (a b : nat),
    window w = Some {| onPluginMessage := Some this |} ->
    let s := handlers_of this w in
    nth_error s a = Some (Some L1) ->
    nth_error s b = Some (Some L2) ->
    (a < b)%nat ->
    (b < fuel)%nat ->
    (forall j h w', (j < a)%nat -> nth_error s j = Some (Some h) ->
                    keeps this L1 (body h (enhance d) w') = true) ->
    (forall j h w', (j < b)%nat -> nth_error s j = Some (Some h) ->
                    keeps this L2 (body h (enhance d) w') = true) ->
    let ref := List.length (objects w) in
    let w_call := fst (host_deliver body a (ArgObject d) w) in
    nth_error (objects (fst (host_deliver body fuel (ArgObject d) w))) ref =
      Some (enhance d) /\
    (forall x, snd (host_deliver body fuel (ArgObject d) w) <> Throw x) /\
    exists t1 t2 t3,
      delivered_events body fuel (ArgObject d) w =
        t1 ++ EvInvoke L1 ref :: t2 ++ EvInvoke L2 ref :: t3 /\
      trace w_call = trace w ++ t1 /\
      nth_error (handlers_of this w_call) a = Some (Some L1) /\
      (forall v, thrown (body L1 (enhance d) w_call) = Some v ->
                 In (EvConsoleError handler_error_label (Thrown v)) t2).
Proof.
  intros body fuel this d w L1 L2 a b Hw s Ha Hb Hab Hf Hk1 Hk2 ref w_call.
  destruct (delivery_summary body this fuel d w Hw) as (O & _ & _).
  split; [exact O | split; [intros x; apply host_deliver_no_throw|]].
  unfold w_call, delivered_events, host_deliver. rewrite Hw, !closure_object.
  set (w0 := with_objects (objects w ++ [enhance d]) w).
  assert (Hb0 : (b < List.length s)%nat) by (apply nth_error_Some; congruence).
  destruct (forEach_in_order_at body this ref (enhance d) s L1 L2 a b Hb0 Hk1 Hk2
              Hab fuel 0 w0 (fades_refl s) Ha Hb ltac:(lia) ltac:(lia))
    as [t1 [t2 [t3 [s' [S [Tr [Ac T]]]]]]].
  rewrite Nat.sub_0_r in Tr, Ac, T.
  exists t1, t2, t3. split; [|split; [exact Tr | split; [exact Ac | exact T]]].
  destruct S as (_ & _ & _ & E). fold ref. rewrite E.
  change (trace w0) with (trace w). apply skipn_trace.
Qed.

Lemma fanout_order_and_isolation_witness :
  exists t1 t2 t3,
    delivered_events throwing_body 2 (ArgObject json_delivery) world_two_listeners =
      t1 ++ EvInvoke 1 0 :: t2 ++ EvInvoke 2 0 :: t3 /\
    In (EvConsoleError handler_error_label (Thrown (JStr (lit "boom")))) t2.
Proof.
  destruct (fanout_order_and_isolation throwing_body 2 0 json_delivery
              world_two_listeners 1 2 0 1)
    as (_ & _ & t1 & t2 & t3 & E & _ & _ & T).
  - reflexivity.
  - reflexivity.
  - reflexivity.
  - lia.
  - lia.
  - intros j h w' Hj. lia.
  - intros [|j] h w' Hj Hn; [|lia]. injection Hn as <-. reflexivity.
  - exists t1, t2, t3. split; [exact E|]. apply T. reflexivity.
Defined.

(** C4 as stated fails when L1 unregisters L2 before throwing: L1 and L2
    are registered in that order, the delivery completes, and L2 is not
    called. *)
Lemma isolation_counterexample :
  handlers_of 0 world_two_listeners = [Some 1%nat; Some 2%nat] /\
  thrown (unregistering_body 1 (enhance json_delivery) world_two_listeners) =
    Some (JStr (lit "boom")) /\
  snd (host_deliver unregistering_body 5 (ArgObject json_delivery)
                    world_two_listeners) = Normal tt /\
  delivered_events unregistering_body 5 (ArgObject json_delivery)
                   world_two_listeners =
    [EvInvoke 1 0;
     EvConsoleError handler_error_label (Thrown (JStr (lit "boom")))] /\
  ~ In 2%nat (invoked (delivered_events unregistering_body 5
                         (ArgObject json_delivery) world_two_listeners)).
Proof.
  repeat split; try reflexivity.
  vm_compute. intros [H|[]]. discriminate.
Qed.

(** ** The fan-out iterates over the live set *)

Lemma quiet_acts_effect (i : nat) (acts : list Action) (s : SetData) :
  quiet i acts = true -> acts_effect i acts s = s.
Proof.
  induction acts as [|a acts IH]; intros H; [reflexivity|].
  simpl in H. apply andb_true_iff in H. destruct H as [Ha H].
  destruct a; cbn [acts_effect set_effect]; try (apply IH; exact H);
    try (simpl in Ha; apply negb_true_iff in Ha; rewrite Ha; apply IH; exact H).
  reflexivity.
Qed.

Lemma set_has_nth (s : SetData) (k : nat) (h : Handler) :
  nth_error s k = Some (Some h) -> set_has s h = true.
Proof.
  intros H. unfold set_has. apply existsb_exists.
  exists (Some h). split; [eapply nth_error_In; exact H|].
  simpl. apply Nat.eqb_refl.
Qed.

Lemma set_values_nth (s : SetData) (k : nat) (h : Handler) :
  nth_error s k = Some (Some h) -> In h (set_values s).
Proof.
  revert k; induction s as [|[x|] s IH]; intros [|k] H; simpl in *;
    try discriminate.
  - left; congruence.
  - right; eapply IH; exact H.
  - eapply IH; exact H.
Qed.

Lemma skipn_nth {A : Type} (l : list A) (k : nat) (x : A) :
  nth_error l k = Some x -> skipn k l = x :: skipn (S k) l.
Proof.
  revert k; induction l as [|y l IH]; intros [|k] H; simpl in *;
    try discriminate.
  - congruence.
  - apply IH. exact H.
Qed.

Lemma no_register_set_effect (i : nat) (h : Handler) (a : Action) (s : SetData) :
  registers i h [a] = false -> set_has s h = false ->
  set_has (set_effect i a s) h = false.
Proof.
  intros Hr Hs. destruct a; simpl in *; try exact Hs.
  - rewrite orb_false_r in Hr. destruct (Nat.eqb inst i); [|exact Hs].
    simpl in Hr. unfold set_add. destruct (set_has s h0); [exact Hs|].
    unfold set_has. rewrite existsb_app. fold (set_has s h). rewrite Hs.
    simpl. rewrite Hr. reflexivity.
  - destruct (Nat.eqb inst i); [|exact Hs].
    unfold set_has, set_delete in *.
    destruct (existsb (entry_is h) (map _ s)) eqn:E; [|reflexivity].
    apply existsb_exists in E. destruct E as [x [Hin Hx]].
    apply in_map_iff in Hin. destruct Hin as [y [Ey Hy]].
    assert (F : existsb (entry_is h) s = true).
    { apply existsb_exists. exists y. split; [exact Hy|].
      destruct (entry_is h0 y); [subst x; discriminate | congruence]. }
    congruence.
  - destruct (Nat.eqb inst i); [|exact Hs].
    unfold set_has, set_clear. clear Hs. induction s; simpl; auto.
Qed.

Lemma registers_cons (i : nat) (h : Handler) (a : Action) (acts : list Action) :
  registers i h (a :: acts) = false ->
  registers i h [a] = false /\ registers i h acts = false.
Proof.
  unfold registers. simpl. rewrite orb_false_r. apply orb_false_iff.
Qed.

Lemma no_register_acts_effect (i : nat) (h : Handler) (acts : list Action) :
  registers i h acts = false ->
  forall s, set_has s h = false -> set_has (acts_effect i acts s) h = false.
Proof.
  induction acts as [|a acts IH]; intros Hr s Hs; [exact Hs|].
  apply registers_cons in Hr. destruct Hr as [Ha Hr].
  pose proof (no_register_set_effect i h a s Ha Hs) as H1.
  destruct a; cbn [acts_effect]; try (apply IH; assumption).
  exact Hs.
Qed.

Lemma set_has_delete (s : SetData) (h : Handler) :
  set_has (set_delete s h) h = false.
Proof.
  unfold set_has, set_delete. induction s as [|[x|] s IH]; simpl; auto.
  destruct (Nat.eqb x h) eqn:E; simpl; [exact IH|]. rewrite E. exact IH.
Qed.

Lemma set_has_clear (s : SetData) (h : Handler) : set_has (set_clear s) h = false.
Proof. unfold set_has, set_clear. induction s; simpl; auto. Qed.

Lemma unregisters_acts_effect (i : nat) (h : Handler) (acts : list Action) :
  registers i h acts = false ->
  unregisters i h acts = true ->
  forall s, set_has (acts_effect i acts s) h = false.
Proof.
  induction acts as [|a acts IH]; intros Hr Hu s; [discriminate|].
  apply registers_cons in Hr. destruct Hr as [Ha Hr].
  destruct a; cbn [acts_effect unregisters] in *;
    try (apply IH; assumption); try discriminate.
  - apply orb_true_iff in Hu. destruct Hu as [Hu|Hu]; [|apply IH; assumption].
    apply andb_true_iff in Hu. destruct Hu as [Ei Eh].
    apply Nat.eqb_eq in Eh. subst h0.
    apply no_register_acts_effect; [exact Hr|].
    simpl. rewrite Ei. apply set_has_delete.
  - apply orb_true_iff in Hu. destruct Hu as [Hu|Hu]; [|apply IH; assumption].
    apply no_register_acts_effect; [exact Hr|].
    simpl. rewrite Hu. apply set_has_clear.
Qed.

Lemma only_at_unique (s : SetData) (h : Handler) (b : nat) :
  NoDup (set_values s) -> nth_error s b = Some (Some h) -> only_at s h b.
Proof.
  revert b; induction s as [|x s IH]; intros b Hnd Hb j Hj.
  - destruct j; discriminate.
  - assert (Hnd' : NoDup (set_values s))
      by (destruct x; simpl in Hnd; [inversion Hnd|]; assumption).
    destruct b as [|b], j as [|j]; simpl in *.
    + reflexivity.
    + exfalso. injection Hb as ->. simpl in Hnd. inversion Hnd as [|? ? Hn _]; subst.
      apply Hn. eapply set_values_nth; exact Hj.
    + exfalso. injection Hj as ->. simpl in Hnd. inversion Hnd as [|? ? Hn _]; subst.
      apply Hn. eapply set_values_nth; exact Hb.
    + f_equal. eapply IH; eassumption.
Qed.

Lemma only_at_fades (s s' : SetData) (h : Handler) (b : nat) :
  only_at s h b -> fades s s' ->
  (forall j, (List.length s <= j)%nat -> nth_error s' j <> Some (Some h)) ->
  only_at s' h b.
Proof.
  intros Ho [_ Hf] Hnew j Hj.
  destruct (Nat.lt_ge_cases j (List.length s)) as [L|L].
  - destruct (Hf j L) as [E|E]; [|congruence].
    apply Ho. congruence.
  - exfalso. eapply Hnew; eassumption.
Qed.

Lemma no_register_new_entries (i : nat) (h : Handler) (acts : list Action) :
  registers i h acts = false ->
  forall s j, (List.length s <= j)%nat ->
              nth_error (acts_effect i acts s) j <> Some (Some h).
Proof.
  induction acts as [|a acts IH]; intros Hr s j Hj.
  - simpl. replace (nth_error s j) with (@None (option Handler))
      by (symmetry; apply nth_error_None; exact Hj). discriminate.
  - apply registers_cons in Hr. destruct Hr as [Ha Hr].
    assert (Hs : nth_error s j <> Some (Some h)).
    { replace (nth_error s j) with (@None (option Handler))
        by (symmetry; apply nth_error_None; exact Hj). discriminate. }
    assert (Hstep : forall s1,
               (List.length s <= List.length s1)%nat ->
               (forall k, (List.length s <= k)%nat ->
                          nth_error s1 k <> Some (Some h)) ->
               nth_error (acts_effect i acts s1) j <> Some (Some h)).
    { intros s1 L1 N1.
      destruct (Nat.lt_ge_cases j (List.length s1)) as [L|L].
      - pose proof (fades_acts_effect i acts s1) as [_ F].
        destruct (F j L) as [E|E]; rewrite E; [apply N1; exact Hj | discriminate].
      - apply IH; assumption. }
    destruct a; cbn [acts_effect set_effect]; try exact Hs;
      try (apply Hstep; [apply le_n | intros k Hk;
           replace (nth_error s k) with (@None (option Handler))
             by (symmetry; apply nth_error_None; exact Hk); discriminate]).
    + destruct (Nat.eqb inst i) eqn:Ei;
        [|apply Hstep; [apply le_n | intros k Hk;
           replace (nth_error s k) with (@None (option Handler))
             by (symmetry; apply nth_error_None; exact Hk); discriminate]].
      apply Hstep.
      * apply fades_add.
      * intros k Hk. unfold set_add. destruct (set_has s h0).
        -- replace (nth_error s k) with (@None (option Handler))
             by (symmetry; apply nth_error_None; exact Hk). discriminate.
        -- rewrite nth_error_app2 by exact Hk.
           destruct (k - List.length s) as [|n]; simpl.
           ++ unfold registers in Ha. simpl in Ha. rewrite Ei in Ha. simpl in Ha.
              rewrite orb_false_r in Ha. apply Nat.eqb_neq in Ha. congruence.
           ++ destruct n; discriminate.
    + destruct (Nat.eqb inst i); apply Hstep;
        try apply le_n; try (unfold set_delete; rewrite length_map; apply le_n);
        intros k Hk; try (unfold set_delete; rewrite nth_error_map);
        replace (nth_error s k) with (@None (option Handler))
          by (symmetry; apply nth_error_None; exact Hk); discriminate.
    + destruct (Nat.eqb inst i); apply Hstep;
        try apply le_n; try (unfold set_clear; rewrite length_map; apply le_n);
        intros k Hk; try (unfold set_clear; rewrite nth_error_map);
        replace (nth_error s k) with (@None (option Handler))
          by (symmetry; apply nth_error_None; exact Hk); discriminate.
Qed.

Lemma only_at_acts_effect (i : nat) (h : Handler) (b : nat) (acts : list Action)
      (s : SetData) :
  registers i h acts = false -> only_at s h b ->
  only_at (acts_effect i acts s) h b.
Proof.
  intros Hr Ho. eapply only_at_fades; [exact Ho | apply fades_acts_effect|].
  intros j Hj. apply no_register_new_entries; assumption.
Qed.

Section LiveSet.

Variable body : ListenerCode.
Variable this : nat.
Variable ref : nat.
Variable e : EnhancedData.

Local Abbreviation cb := (fanout_callback body ref e).

(** Listeners that leave the set alone are called from the set as it was,
    each live entry once, in order, and the loop ends. *)
Lemma forEach_quiet (s : SetData) :
  (forall h w', In h (set_values s) -> quiet this (body h e w') = true) ->
  forall (fuel index : nat) (w : World),
    handlers_of this w = s ->
    (this < List.length (instances w))%nat ->
    (List.length s <= index + fuel)%nat ->
    exists evs,
      step_of this w (fst (forEach fuel this cb index w)) s evs /\
      invoked evs = set_values (skipn index s) /\
      snd (forEach fuel this cb index w) = Normal tt.
Proof.
  intros Hq. induction fuel as [|fuel IH]; intros index w Hs Hi Hlen;
    rewrite forEach_unfold, Hs.
  - replace (nth_error s index) with (@None (option Handler))
      by (symmetry; apply nth_error_None; lia).
    exists []. rewrite skipn_all2 by lia. cbn [fst snd].
    split; [rewrite <- Hs; apply step_of_refl | auto].
  - destruct (nth_error s index) as [[h|]|] eqn:E.
    + destruct (callback_summary body this ref e h w Hi)
        as [evs1 [S1 [C1 [I1 _]]]].
      destruct (cb h w) as [w1 c1]. cbn [fst snd] in *. subst c1.
      assert (Hs1 : handlers_of this w1 = s).
      { destruct S1 as (H1 & _). rewrite H1, Hs.
        apply quiet_acts_effect. apply Hq. eapply set_values_nth; exact E. }
      assert (Hi1 : (this < List.length (instances w1))%nat)
        by (destruct S1 as (_ & L1 & _); lia).
      destruct (IH (S index) w1 Hs1 Hi1 ltac:(lia)) as [evs2 [S2 [I2 C2]]].
      exists ((EvInvoke h ref :: evs1) ++ evs2).
      split; [eapply step_of_trans; eassumption | split; [|exact C2]].
      rewrite invoked_app. simpl. rewrite I1, I2.
      rewrite (skipn_nth _ _ _ E). reflexivity.
    + destruct (IH (S index) w Hs Hi ltac:(lia)) as [evs [S [I C]]].
      exists evs. split; [exact S | split; [|exact C]].
      rewrite I, (skipn_nth _ _ _ E). reflexivity.
    + exists []. rewrite skipn_all2 by (apply nth_error_None; exact E).
      cbn [fst snd]. split; [rewrite <- Hs; apply step_of_refl | auto].
Qed.

(** When the loop ends, every listener that is live in the set by then
    has been called, the ones added on the way included. *)
Lemma forEach_covers :
  forall (fuel index : nat) (w : World),
    (this < List.length (instances w))%nat ->
    snd (forEach fuel this cb index w) = Normal tt ->
    exists evs s',
      step_of this w (fst (forEach fuel this cb index w)) s' evs /\
      fades (handlers_of this w) s' /\
      forall j h, (index <= j)%nat -> nth_error s' j = Some (Some h) ->
                  In h (invoked evs).
Proof.
  induction fuel as [|fuel IH]; intros index w Hi; rewrite forEach_unfold.
  - destruct (nth_error (handlers_of this w) index) eqn:E;
      cbn [fst snd]; intros C; [discriminate|].
    exists [], (handlers_of this w).
    split; [apply step_of_refl | split; [apply fades_refl|]].
    intros j h Hj Hn. apply nth_error_None in E.
    assert (j < List.length (handlers_of this w))%nat
      by (apply nth_error_Some; congruence).
    lia.
  - destruct (nth_error (handlers_of this w) index) as [[h0|]|] eqn:E.
    + destruct (callback_summary body this ref e h0 w Hi)
        as [evs1 [S1 [C1 _]]].
      destruct (cb h0 w) as [w1 c1]. cbn [fst snd] in *. subst c1.
      assert (Hi1 : (this < List.length (instances w1))%nat)
        by (destruct S1 as (_ & L1 & _); lia).
      intros C. destruct (IH (S index) w1 Hi1 C) as [evs2 [s2 [S2 [F2 V2]]]].
      assert (F1 : fades (handlers_of this w) (handlers_of this w1)).
      { destruct S1 as (H1 & _). rewrite H1. apply fades_acts_effect. }
      assert (F : fades (handlers_of this w) s2)
        by (eapply fades_trans; eassumption).
      exists ((EvInvoke h0 ref :: evs1) ++ evs2), s2.
      split; [eapply step_of_trans; eassumption | split; [exact F|]].
      intros j h Hj Hn. rewrite invoked_app. simpl.
      destruct (Nat.eq_dec j index) as [->|Hne].
      * left. destruct F as [_ F].
        destruct (F index) as [Ef|Ef];
          [apply nth_error_Some; congruence | congruence | congruence].
      * right. apply in_or_app. right. apply (V2 j); [lia | exact Hn].
    + intros C. destruct (IH (S index) w Hi C) as [evs [s' [S [F V]]]].
      exists evs, s'. split; [exact S | split; [exact F|]].
      intros j h Hj Hn.
      destruct (Nat.eq_dec j index) as [->|Hne]; [|apply (V j); [lia | exact Hn]].
      exfalso. destruct F as [_ F].
      destruct (F index) as [Ef|Ef];
        [apply nth_error_Some; congruence | congruence | congruence].
    + cbn [fst snd]. intros _. exists [], (handlers_of this w).
      split; [apply step_of_refl | split; [apply fades_refl|]].
      intros j h Hj Hn. apply nth_error_None in E.
      assert (j < List.length (handlers_of this w))%nat
        by (apply nth_error_Some; congruence).
      lia.
Qed.

(** A listener that is not live and that no listener registers is not
    called. *)
Lemma forEach_not_live (R : Handler) :
  (forall k w', registers this R (body k e w') = false) ->
  forall (fuel index : nat) (w : World),
    (this < List.length (instances w))%nat ->
    set_has (handlers_of this w) R = false ->
    exists evs s',
      step_of this w (fst (forEach fuel this cb index w)) s' evs /\
      ~ In R (invoked evs).
Proof.
  intros Hr. induction fuel as [|fuel IH]; intros index w Hi Hs;
    rewrite forEach_unfold.
  - exists [], (handlers_of this w).
    destruct (nth_error (handlers_of this w) index); cbn [fst snd];
      (split; [apply step_of_refl | intros []]).
  - destruct (nth_error (handlers_of this w) index) as [[h0|]|] eqn:E.
    + destruct (callback_summary body this ref e h0 w Hi)
        as [evs1 [S1 [C1 [I1 _]]]].
      destruct (cb h0 w) as [w1 c1]. cbn [fst snd] in *. subst c1.
      assert (Hi1 : (this < List.length (instances w1))%nat)
        by (destruct S1 as (_ & L1 & _); lia).
      assert (Hs1 : set_has (handlers_of this w1) R = false).
      { destruct S1 as (H1 & _). rewrite H1.
        apply no_register_acts_effect; [apply Hr | exact Hs]. }
      destruct (IH (S index) w1 Hi1 Hs1) as [evs2 [s2 [S2 N2]]].
      exists ((EvInvoke h0 ref :: evs1) ++ evs2), s2.
      split; [eapply step_of_trans; eassumption|].
      rewrite invoked_app. simpl. rewrite I1. simpl.
      intros [F|F]; [|exact (N2 F)].
      subst h0. apply set_has_nth in E. congruence.
    + apply IH; assumption.
    + exists [], (handlers_of this w). cbn [fst snd].
      split; [apply step_of_refl | intros []].
Qed.

(** A listener that an earlier listener unregisters, and that no listener
    registers, is not called.  [s0] is the set when the fan-out begins. *)
Lemma forEach_unregistered (s0 : SetData) (K R : Handler) (a b : nat) :
  (a < List.length s0)%nat ->
  (forall k w', registers this R (body k e w') = false) ->
  (forall j h w', (j < a)%nat -> nth_error s0 j = Some (Some h) ->
                  keeps this K (body h e w') = true) ->
  (forall w', unregisters this R (body K e w') = true) ->
  (a < b)%nat ->
  forall (fuel index : nat) (w : World),
    fades s0 (handlers_of this w) ->
    nth_error (handlers_of this w) a = Some (Some K) ->
    only_at (handlers_of this w) R b ->
    (index <= a)%nat ->
    exists evs s',
      step_of this w (fst (forEach fuel this cb index w)) s' evs /\
      ~ In R (invoked evs).
Proof.
  intros Ha0 Hr Hk Hu Hab.
  induction fuel as [|fuel IH]; intros index w Hf Ha Ho Hle;
    pose proof (handlers_of_valid _ _ _ _ Ha) as Hi;
    rewrite forEach_unfold.
  - exists [], (handlers_of this w).
    destruct (nth_error (handlers_of this w) index); cbn [fst snd];
      (split; [apply step_of_refl | intros []]).
  - destruct (nth_error (handlers_of this w) index) as [[h0|]|] eqn:E.
    + assert (Hne : h0 <> R).
      { intros ->. apply Ho in E. lia. }
      destruct (callback_summary body this ref e h0 w Hi)
        as [evs1 [S1 [C1 [I1 _]]]].
      destruct (cb h0 w) as [w1 c1]. cbn [fst snd] in *. subst c1.
      assert (Hi1 : (this < List.length (instances w1))%nat)
        by (destruct S1 as (_ & L1 & _); lia).
      assert (Rest : exists evs2 s2,
                 step_of this w1 (fst (forEach fuel this cb (S index) w1)) s2 evs2 /\
                 ~ In R (invoked evs2)).
      { destruct (Nat.eq_dec index a) as [->|Hna].
        - assert (h0 = K) by congruence. subst h0.
          apply forEach_not_live; [exact Hr | exact Hi1|].
          destruct S1 as (H1 & _). rewrite H1.
          apply unregisters_acts_effect; [apply Hr | apply Hu].
        - assert (E0 : nth_error s0 index = Some (Some h0))
            by (eapply fades_entry; [exact Hf | lia | exact E]).
          destruct S1 as (H1 & _).
          apply IH; [| | |lia].
          + eapply fades_trans; [exact Hf|]. rewrite H1. apply fades_acts_effect.
          + rewrite H1. apply keeps_acts_effect; [|exact Ha].
            apply (Hk index); [lia | exact E0].
          + rewrite H1. apply only_at_acts_effect; [apply Hr | exact Ho]. }
      destruct Rest as [evs2 [s2 [S2 N2]]].
      exists ((EvInvoke h0 ref :: evs1) ++ evs2), s2.
      split; [eapply step_of_trans; eassumption|].
      rewrite invoked_app. simpl. rewrite I1. simpl.
      intros [F|F]; [exact (Hne F) | exact (N2 F)].
    + destruct (Nat.eq_dec index a) as [->|Hna]; [congruence|].
      apply IH; [exact Hf | exact Ha | exact Ho | lia].
    + exists [], (handlers_of this w). cbn [fst snd].
      split; [apply step_of_refl | intros []].
Qed.

End LiveSet.

Lemma set_values_In (s : SetData) (h : Handler) :
  In h (set_values s) -> exists j, nth_error s j = Some (Some h).
Proof.
  induction s as [|[x|] s IH]; simpl; intros H; [contradiction| |].
  - destruct H as [->|H]; [exists 0; reflexivity|].
    destruct (IH H) as [j Hj]. exists (S j); exact Hj.
  - destruct (IH H) as [j Hj]. exists (S j); exact Hj.
Qed.

(** A delivery of an object is the fan-out on the world with the new
    object; either the instance exists, or nothing happens. *)
Lemma delivery_cases (body : ListenerCode)
      (fuel this : nat) (d : PluginMessageResponse) (w : World) :
  window w = Some {| onPluginMessage := Some this |} ->
  let w0 := with_objects (objects w ++ [enhance d]) w in
  let run := forEach fuel this
               (fanout_callback body (List.length (objects w)) (enhance d)) 0 w0 in
  host_deliver body fuel (ArgObject d) w = run /\
  (((this < List.length (instances w0))%nat /\
    forall evs0 s', step_of this w0 (fst run) s' evs0 ->
                    delivered_events body fuel (ArgObject d) w = evs0) \/
   (handlers_of this w = [] /\ run = (w0, Normal tt) /\
    delivered_events body fuel (ArgObject d) w = [])).
Proof.
  intros Hw w0 run.
  assert (Res : host_deliver body fuel (ArgObject d) w = run).
  { unfold host_deliver. rewrite Hw. apply closure_object. }
  split; [exact Res|].
  destruct (Nat.lt_ge_cases this (List.length (instances w0))) as [Hi|Hi].
  - left. split; [exact Hi|].
    intros evs0 s' (_ & _ & _ & T).
    unfold delivered_events. rewrite Res, T.
    change (trace w0) with (trace w). apply skipn_trace.
  - right.
    assert (E0 : run = (w0, Normal tt)) by (apply forEach_no_instance; exact Hi).
    split; [|split; [exact E0|]].
    + unfold handlers_of.
      replace (nth_error (instances w) this) with (@None R1Messaging)
        by (symmetry; apply nth_error_None; exact Hi). reflexivity.
    + unfold delivered_events. rewrite Res, E0. cbn [fst].
      change (trace w0) with (trace w). apply skipn_all.
Qed.

(** A delivery among listeners that leave the set alone. *)
Lemma delivery_quiet (body : ListenerCode)
      (fuel this : nat) (d : PluginMessageResponse) (w : World) :
  window w = Some {| onPluginMessage := Some this |} ->
  (forall h w', In h (set_values (handlers_of this w)) ->
             quiet this (body h (enhance d) w') = true) ->
  (List.length (handlers_of this w) <= fuel)%nat ->
  invoked (delivered_events body fuel (ArgObject d) w) =
    set_values (handlers_of this w) /\
  snd (host_deliver body fuel (ArgObject d) w) = Normal tt /\
  handlers_of this (fst (host_deliver body fuel (ArgObject d) w)) =
    handlers_of this w.
Proof.
  intros Hw Hq Hlen.
  destruct (delivery_cases body fuel this d w Hw) as [Res [[Hi Ev]|[Hs [E0 Hevs]]]];
    rewrite Res.
  - destruct (forEach_quiet body this (List.length (objects w)) (enhance d)
                (handlers_of this w) Hq fuel 0
                (with_objects (objects w ++ [enhance d]) w) eq_refl Hi ltac:(lia))
      as [evs0 [S [I N]]].
    rewrite (Ev evs0 _ S).
    split; [exact I | split; [exact N | destruct S as (H & _); exact H]].
  - rewrite E0, Hevs, Hs. cbn [fst snd].
    split; [reflexivity | split; [reflexivity | exact Hs]].
Qed.

(** C2 as stated fails both ways: a listener that listener 1 registers
    during the fan-out is called in the same delivery, and a listener that
    listener 1 unregisters before its turn is not called. *)
Lemma snapshot_claim_counterexample :
  (set_values (handlers_of 0 world_two_listeners) = [1; 2] /\
   invoked (delivered_events adding_body 5 (ArgObject json_delivery)
                             world_two_listeners) = [1; 2; 3] /\
   ~ snapshot_claim adding_body 5 0 json_delivery world_two_listeners) /\
  (invoked (delivered_events removing_body 5 (ArgObject json_delivery)
                             world_two_listeners) = [1] /\
   ~ snapshot_claim removing_body 5 0 json_delivery world_two_listeners).
Proof.
  split; (split; [reflexivity|]); [split; [reflexivity|]|].
  - intros H. specialize (H 3). vm_compute in H.
    destruct H as [H _].
    destruct (H (or_intror (or_intror (or_introl eq_refl)))) as [F|[F|[]]];
      discriminate.
  - intros H. specialize (H 2). vm_compute in H.
    destruct H as [_ H].
    destruct (H (or_intror (or_introl eq_refl))) as [F|[]]; discriminate.
Qed.

(** ** Registering twice *)

Lemma set_has_values (s : SetData) (h : Handler) :
  set_has s h = true <-> In h (set_values s).
Proof.
  unfold set_has. induction s as [|[x|] s IH]; simpl.
  - split; [discriminate | contradiction].
  - rewrite orb_true_iff, IH, Nat.eqb_eq. tauto.
  - exact IH.
Qed.

Lemma set_values_app (s1 s2 : SetData) :
  set_values (s1 ++ s2) = set_values s1 ++ set_values s2.
Proof.
  induction s1 as [|[x|] s1 IH]; simpl; rewrite ?IH; reflexivity.
Qed.

Lemma set_has_add (s : SetData) (h : Handler) : set_has (set_add s h) h = true.
Proof.
  unfold set_add. destruct (set_has s h) eqn:E; [exact E|].
  apply set_has_values. rewrite set_values_app. apply in_or_app.
  right. left. reflexivity.
Qed.


(** The values of a [Set] are distinct, and [add] keeps them so. *)
Lemma NoDup_set_add (s : SetData) (h : Handler) :
  NoDup (set_values s) -> NoDup (set_values (set_add s h)).
Proof.
  intros H. unfold set_add. destruct (set_has s h) eqn:E; [exact H|].
  rewrite set_values_app. simpl.
  apply NoDup_app; [exact H | repeat constructor; intros [] |].
  intros x Hx [<-|[]]. apply set_has_values in Hx. congruence.
Qed.

Lemma NoDup_set_delete (s : SetData) (h : Handler) :
  NoDup (set_values s) -> NoDup (set_values (set_delete s h)).
Proof.
  unfold set_delete. induction s as [|[x|] s IH]; simpl; intros H; auto.
  inversion H as [|? ? Hn Hd]; subst.
  destruct (Nat.eqb x h); simpl; [apply IH; exact Hd|].
  constructor; [|apply IH; exact Hd].
  intros Hin. apply Hn. clear -Hin.
  induction s as [|[y|] s IH]; simpl in *; auto.
  destruct (Nat.eqb y h); simpl in *; [right; auto|].
  destruct Hin as [->|Hin]; [left; reflexivity | right; auto].
Qed.

Lemma set_values_clear (s : SetData) : set_values (set_clear s) = [].
Proof. unfold set_clear. induction s; simpl; auto. Qed.

(** Every call into the module keeps the values of a set distinct. *)
Lemma NoDup_set_effect (i : nat) (a : Action) (s : SetData) :
  NoDup (set_values s) -> NoDup (set_values (set_effect i a s)).
Proof.
  intros H. destruct a; simpl; try exact H; destruct (Nat.eqb inst i);
    try exact H.
  - apply NoDup_set_add; exact H.
  - apply NoDup_set_delete; exact H.
  - rewrite set_values_clear. constructor.
Qed.

Lemma NoDup_acts_effect (i : nat) (acts : list Action) :
  forall s, NoDup (set_values s) -> NoDup (set_values (acts_effect i acts s)).
Proof.
  induction acts as [|a acts IH]; intros s H; [exact H|].
  pose proof (NoDup_set_effect i a s H) as H1.
  destruct a; cbn [acts_effect]; try (apply IH; exact H1). exact H.
Qed.




(** ** A second instance *)

Lemma update_nth_last {A : Type} (f : A -> A) (l : list A) (x : A) :
  update_nth (List.length l) f (l ++ [x]) = l ++ [f x].
Proof. induction l as [|y l IH]; simpl; [reflexivity | rewrite IH; reflexivity]. Qed.

(** Construction where there is a [window]: the new instance takes the
    slot, whatever the slot held. *)
Lemma new_R1Messaging_in_window (w : World) (win : Window) :
  window w = Some win ->
  new_R1Messaging w =
  (with_instances
     (instances w ++ [{| messageHandlers := []; isInitialized := true |}])
     (with_window (Some {| onPluginMessage := Some (List.length (instances w)) |}) w),
   Normal (List.length (instances w))).
Proof.
  intros Hw. unfold new_R1Messaging, initializeMessageHandler, bind, ret.
  cbn [window with_instances instances]. rewrite Hw.
  rewrite nth_error_app2, Nat.sub_diag by apply le_n.
  cbn [nth_error isInitialized].
  cbn [with_window instances with_instances]. rewrite update_nth_last.
  reflexivity.
Qed.

(** C3 fails on the code.  Make an instance, register a listener on it,
    make a second instance: each construction finds its own
    [isInitialized] false and assigns [window.onPluginMessage], so the slot
    now holds the closure of the second instance.  The listener is still
    registered on the first instance, and a delivery calls no listener. *)
Theorem second_instance_replaces_subscription :
  forall (body : ListenerCode) (fuel : nat)
         (d : PluginMessageResponse) (w : World) (win : Window)
         (handler : Handler),
    window w = Some win ->
    let first := List.length (instances w) in
    let second := S first in
    let w1 := fst (new_R1Messaging w) in
    let w2 := fst (onMessage first handler w1) in
    let w3 := fst (new_R1Messaging w2) in
    snd (new_R1Messaging w) = Normal first /\
    snd (new_R1Messaging w2) = Normal second /\
    window w2 = Some {| onPluginMessage := Some first |} /\
    window w3 = Some {| onPluginMessage := Some second |} /\
    handlers_of first w3 = [Some handler] /\
    handlers_of second w3 = [] /\
    host_deliver body fuel (ArgObject d) w3 =
      (with_objects (objects w3 ++ [enhance d]) w3, Normal tt) /\
    delivered_events body fuel (ArgObject d) w3 = [].
Proof.
  intros body fuel d w win handler Hw first second w1 w2 w3.
  pose proof (new_R1Messaging_in_window w win Hw) as N1. fold first in N1.
  assert (E1 : w1 = fst (new_R1Messaging w)) by reflexivity.
  rewrite N1 in E1. cbn [fst] in E1. clearbody w1.
  assert (I2 : instances w2 =
               instances w ++ [{| messageHandlers := [Some handler];
                                  isInitialized := true |}]).
  { unfold w2, onMessage, effect, update_handlers. cbn [fst]. rewrite E1.
    cbn [with_instances with_window instances]. unfold first.
    rewrite update_nth_last. reflexivity. }
  assert (W2 : window w2 = Some {| onPluginMessage := Some first |})
    by (unfold w2, onMessage, effect, update_handlers; cbn [fst]; rewrite E1;
        reflexivity).
  assert (O2 : trace w2 = trace w)
    by (unfold w2, onMessage, effect, update_handlers; cbn [fst]; rewrite E1;
        reflexivity).
  clearbody w2.
  assert (L2 : List.length (instances w2) = second)
    by (rewrite I2, length_app; simpl; unfold second, first; lia).
  pose proof (new_R1Messaging_in_window w2 _ W2) as N3. rewrite L2 in N3.
  assert (E3 : w3 = fst (new_R1Messaging w2)) by reflexivity.
  rewrite N3 in E3. cbn [fst] in E3. clearbody w3.
  assert (H3 : handlers_of second w3 = []).
  { rewrite E3. unfold handlers_of. cbn [with_instances with_window instances].
    rewrite nth_error_app2 by lia. rewrite L2, Nat.sub_diag. reflexivity. }
  assert (W3 : window w3 = Some {| onPluginMessage := Some second |})
    by (rewrite E3; reflexivity).
  assert (D : host_deliver body fuel (ArgObject d) w3 =
              (with_objects (objects w3 ++ [enhance d]) w3, Normal tt)).
  { unfold host_deliver. rewrite W3, closure_object, forEach_unfold.
    change (handlers_of second (with_objects (objects w3 ++ [enhance d]) w3))
      with (handlers_of second w3).
    rewrite H3. reflexivity. }
  split; [rewrite N1; reflexivity|].
  split; [rewrite N3; reflexivity|].
  split; [exact W2|]. split; [exact W3|].
  split; [|split; [exact H3 | split; [exact D|]]].
  - rewrite E3. unfold handlers_of. cbn [with_instances with_window instances].
    rewrite nth_error_app1 by lia. rewrite I2.
    rewrite nth_error_app2 by apply le_n. unfold first. rewrite Nat.sub_diag.
    reflexivity.
  - unfold delivered_events. rewrite D. cbn [fst with_objects trace].
    apply skipn_all.
Qed.

Lemma second_instance_replaces_subscription_witness :
  let w1 := fst (new_R1Messaging world_in_host) in
  let w2 := fst (onMessage 0 7 w1) in
  let w3 := fst (new_R1Messaging w2) in
  handlers_of 0 w3 = [Some 7] /\
  window w3 = Some {| onPluginMessage := Some 1 |} /\
  delivered_events silent_body 3 (ArgObject json_delivery) w2 = [EvInvoke 7 0] /\
  delivered_events silent_body 3 (ArgObject json_delivery) w3 = [].
Proof.
  destruct (second_instance_replaces_subscription silent_body 3 json_delivery
              world_in_host {| onPluginMessage := None |} 7 eq_refl)
    as (_ & _ & _ & W & H & _ & _ & D).
  split; [exact H | split; [exact W | split; [reflexivity | exact D]]].
Defined.

(** * More of the module *)

(** ** Reading from a spread *)

Lemma obj_get_set (o : Obj) (k : jstring) (v : JsVal) (k' : jstring) :
  obj_get (obj_set o k v) k' = if jstring_eqb k k' then v else obj_get o k'.
Proof.
  induction o as [|[k0 v0] o IH]; simpl.
  - reflexivity.
  - destruct (jstring_eqb k0 k) eqn:E; simpl.
    + apply jstring_eqb_eq in E. subst k0.
      destruct (jstring_eqb k k'); reflexivity.
    + destruct (jstring_eqb k0 k') eqn:E'.
      * apply jstring_eqb_eq in E'. subst k0. rewrite jstring_eqb_neq; [reflexivity|].
        intros ->. rewrite (proj2 (jstring_eqb_eq k' k') eq_refl) in E. discriminate.
      * exact IH.
Qed.

Lemma obj_has_keys (o : Obj) (k : jstring) :
  obj_has o k = true <-> In k (map fst o).
Proof.
  induction o as [|[k0 v0] o IH]; simpl; [split; [discriminate | contradiction]|].
  rewrite orb_true_iff, jstring_eqb_eq, IH. tauto.
Qed.

(** A property of [{ ...target, ...source }] reads as in [source] when
    [source] has it, and as in [target] otherwise. *)
Lemma obj_get_spread (source : Obj) :
  NoDup (map fst source) ->
  forall (target : Obj) (k : jstring),
    obj_get (obj_spread target source) k =
    if obj_has source k then obj_get source k else obj_get target k.
Proof.
  induction source as [|[k0 v0] source IH]; intros Hnd target k; [reflexivity|].
  inversion Hnd as [|? ? Hn Hd]; subst.
  change (obj_spread target ((k0, v0) :: source))
    with (obj_spread (obj_set target k0 v0) source).
  rewrite IH by exact Hd. rewrite obj_get_set. simpl.
  destruct (jstring_eqb k0 k) eqn:E; simpl; [|reflexivity].
  apply jstring_eqb_eq in E. subst k0.
  destruct (obj_has source k) eqn:H; [|reflexivity].
  apply obj_has_keys in H. contradiction.
Qed.

Lemma obj_set_keys (o : Obj) (k : jstring) (v : JsVal) (k' : jstring) :
  In k' (map fst (obj_set o k v)) <-> k' = k \/ In k' (map fst o).
Proof.
  induction o as [|[k0 v0] o IH]; simpl; [intuition|].
  destruct (jstring_eqb k0 k) eqn:E; simpl.
  - apply jstring_eqb_eq in E. subst k0. intuition.
  - rewrite IH. intuition.
Qed.

Lemma NoDup_obj_set (o : Obj) (k : jstring) (v : JsVal) :
  NoDup (map fst o) -> NoDup (map fst (obj_set o k v)).
Proof.
  induction o as [|[k0 v0] o IH]; simpl; intros H.
  - constructor; [intros [] | constructor].
  - inversion H as [|? ? Hn Hd]; subst.
    destruct (jstring_eqb k0 k) eqn:E; simpl; [exact H|].
    constructor; [|apply IH; exact Hd].
    rewrite obj_set_keys. intros [->|F]; [|contradiction].
    rewrite (proj2 (jstring_eqb_eq k k) eq_refl) in E. discriminate.
Qed.

Lemma flat_obj_set (o : Obj) (k : jstring) (v : JsVal) :
  flat_props o -> scalar v \/ v = JUndefined -> flat_props (obj_set o k v).
Proof.
  unfold flat_props. induction o as [|[k0 v0] o IH]; simpl; intros H Hv.
  - constructor; [exact Hv | constructor].
  - inversion H as [|? ? H0 H1]; subst.
    destruct (jstring_eqb k0 k); constructor; auto.
Qed.

Lemma obj_spread_shape (source : Obj) :
  flat_props source ->
  forall target : Obj,
    NoDup (map fst target) -> flat_props target ->
    NoDup (map fst (obj_spread target source)) /\
    flat_props (obj_spread target source) /\
    forall k, In k (map fst (obj_spread target source)) <->
              In k (map fst target) \/ In k (map fst source).
Proof.
  induction source as [|[k0 v0] source IH]; intros Hs target Hnd Hf.
  - split; [exact Hnd | split; [exact Hf | simpl; intuition]].
  - inversion Hs as [|? ? H0 H1]; subst. simpl in H0.
    change (obj_spread target ((k0, v0) :: source))
      with (obj_spread (obj_set target k0 v0) source).
    destruct (IH H1 (obj_set target k0 v0) (NoDup_obj_set _ _ _ Hnd)
                (flat_obj_set _ _ _ Hf H0)) as (A & B & C).
    split; [exact A | split; [exact B|]].
    intros k. rewrite C, obj_set_keys. simpl. intuition.
Qed.

(** ** What is posted *)

(** [sendMessage] with options that hold scalars: one post, whose text
    reads back as the payload without its [undefined] properties. *)
Lemma send_general (w : World) (message : jstring) (o : Obj) :
  PluginMessageHandler w = true ->
  NoDup (map fst o) -> flat_props o -> ~ In (lit "message") (map fst o) ->
  exists text,
    sendMessage message (Some o) w =
      (emit (EvPostMessage (JStr text)) w, Normal tt) /\
    JSON_parse text = Some (JObj (defined ((lit "message", JStr message) :: o))).
Proof.
  intros Hw Hnd Hf Hm.
  assert (Hnd' : NoDup (map fst ((lit "message", JStr message) :: o)))
    by (simpl; constructor; assumption).
  assert (Hs : scalar_props (defined ((lit "message", JStr message) :: o))).
  { simpl. constructor; [exact I|].
    unfold flat_props in Hf. rewrite Forall_forall in Hf.
    apply Forall_forall. intros p Hp. apply filter_In in Hp.
    destruct Hp as [Hp Hd]. destruct (Hf p Hp) as [S|U]; [exact S|].
    rewrite U in Hd. discriminate. }
  unfold sendMessage. rewrite Hw. cbn [default_obj].
  rewrite (obj_spread_distinct o [(lit "message", JStr message)]) by exact Hnd'.
  cbn [app].
  destruct (JSON_roundtrip_flat _ Hs) as [text [E P]].
  assert (E' : JSON_stringify (JObj ((lit "message", JStr message) :: o)) = Some text).
  { unfold JSON_stringify in *. cbn [SerializeJSONProperty] in *.
    rewrite members_defined. exact E. }
  exists text. rewrite E'. split; [reflexivity|].
  rewrite P. rewrite (obj_spread_distinct _ []); [reflexivity|].
  apply NoDup_defined. exact Hnd'.
Qed.

Lemma flat_MessageOptions (o : Obj) :
  is_MessageOptions o ->
  flat_props o /\ ~ In (lit "message") (map fst o).
Proof.
  intros [_ Hf]. rewrite Forall_forall in Hf. split.
  - apply Forall_forall. intros p Hp.
    destruct (Hf p Hp) as [_ [[b E]|E]]; rewrite E; simpl; auto.
  - intros Hin. apply in_map_iff in Hin. destruct Hin as [[k v] [Ek Hin]].
    destruct (Hf _ Hin) as [Hk _]. simpl in Ek, Hk. subst k.
    destruct Hk as [E|[E|[E|[]]]]; vm_compute in E; discriminate.
Qed.

(** X1: [askLLM] posts once; in the object posted [message] is the message,
    every flag of [options] reads as in [options], and [useLLM] is [true]
    unless [options] has a [useLLM] of its own, which then wins. *)
Theorem askLLM_envelope :
  forall (w : World) (message : jstring) (options : option Obj),
    PluginMessageHandler w = true ->
    is_MessageOptions (default_obj options) ->
    exists text decoded,
      askLLM message options w =
        (emit (EvPostMessage (JStr text)) w, Normal tt) /\
      JSON_parse text = Some (JObj decoded) /\
      obj_get decoded (lit "message") = JStr message /\
      obj_get decoded (lit "useLLM") =
        (if obj_has (default_obj options) (lit "useLLM")
         then obj_get (default_obj options) (lit "useLLM")
         else JBool true) /\
      forall k, k <> lit "message" -> k <> lit "useLLM" ->
                obj_get decoded k = obj_get (default_obj options) k.
Proof.
  intros w message options Hw Ho.
  destruct (flat_MessageOptions _ Ho) as [Hf Hm].
  destruct Ho as [Hnd _].
  set (o := default_obj options) in *.
  set (o' := obj_spread [(lit "useLLM", JBool true)] o).
  destruct (obj_spread_shape o Hf [(lit "useLLM", JBool true)]) as (A & B & C).
  { simpl. constructor; [intros [] | constructor]. }
  { constructor; [left; exact I | constructor]. }
  fold o' in A, B, C.
  assert (Hm' : ~ In (lit "message") (map fst o')).
  { rewrite C. simpl. intros [[F|[]]|F]; [vm_compute in F; discriminate | contradiction]. }
  destruct (send_general w message o' Hw A B Hm') as [text [S P]].
  exists text, (defined ((lit "message", JStr message) :: o')).
  unfold askLLM. fold o. fold o'.
  assert (Hnd' : NoDup (map fst ((lit "message", JStr message) :: o')))
    by (simpl; constructor; assumption).
  assert (G : forall k, obj_get ((lit "message", JStr message) :: o') k =
                        if jstring_eqb (lit "message") k then JStr message
                        else if obj_has o k then obj_get o k
                             else obj_get [(lit "useLLM", JBool true)] k).
  { intros k. cbn [obj_get]. unfold o'. rewrite obj_get_spread by exact Hnd.
    reflexivity. }
  split; [exact S | split; [exact P | split; [|split]]].
  - rewrite obj_get_defined by exact Hnd'. rewrite G. reflexivity.
  - rewrite obj_get_defined by exact Hnd'. rewrite G. reflexivity.
  - intros k K1 K2. rewrite obj_get_defined by exact Hnd'. rewrite G.
    rewrite jstring_eqb_neq by congruence.
    destruct (obj_has o k) eqn:H; [reflexivity|].
    cbn [obj_get]. rewrite jstring_eqb_neq by congruence.
    symmetry. apply obj_get_absent. intros F.
    apply obj_has_keys in F. congruence.
Qed.

Lemma askLLM_envelope_witness :
  (exists text decoded,
      askLLM (lit "What time is it?") None world_in_host =
        (emit (EvPostMessage (JStr text)) world_in_host, Normal tt) /\
      JSON_parse text = Some (JObj decoded) /\
      obj_get decoded (lit "useLLM") = JBool true) /\
  (exists text decoded,
      askLLM (lit "What time is it?") (Some [(lit "useLLM", JBool false)])
             world_in_host =
        (emit (EvPostMessage (JStr text)) world_in_host, Normal tt) /\
      JSON_parse text = Some (JObj decoded) /\
      obj_get decoded (lit "useLLM") = JBool false).
Proof.
  split.
  - destruct (askLLM_envelope world_in_host (lit "What time is it?") None)
      as [text [decoded (S & P & _ & U & _)]].
    + reflexivity.
    + split; constructor.
    + exists text, decoded. auto.
  - destruct (askLLM_envelope world_in_host (lit "What time is it?")
                (Some [(lit "useLLM", JBool false)]))
      as [text [decoded (S & P & _ & U & _)]].
    + reflexivity.
    + split.
      * constructor; [intros [] | constructor].
      * constructor; [|constructor].
        split; [left; reflexivity | left; exists false; reflexivity].
    + exists text, decoded. auto.
Defined.

(** The envelope of a spoken request. *)
Lemma speak_envelope (w : World) (message : jstring) (journal : bool) :
  PluginMessageHandler w = true ->
  exists text,
    askLLMSpeak message (Some journal) w =
      (emit (EvPostMessage (JStr text)) w, Normal tt) /\
    JSON_parse text =
      Some (JObj [(lit "message", JStr message);
                  (lit "useLLM", JBool true);
                  (lit "wantsR1Response", JBool true);
                  (lit "wantsJournalEntry", JBool journal)]).
Proof.
  intros Hw.
  destruct (send_general w message
              [(lit "useLLM", JBool true); (lit "wantsR1Response", JBool true);
               (lit "wantsJournalEntry", JBool journal)] Hw)
    as [text [S P]].
  - repeat constructor; simpl; intuition discriminate.
  - repeat constructor; left; exact I.
  - simpl. intuition discriminate.
  - exists text. split; [exact S | exact P].
Qed.

(** X2: [askLLMSpeak] posts once, and the object posted is [message] with
    [useLLM] and [wantsR1Response] true and [wantsJournalEntry] as given,
    false when it is left out. *)
Theorem askLLMSpeak_envelope :
  forall (w : World) (message : jstring) (saveToJournal : option bool),
    PluginMessageHandler w = true ->
    exists text,
      askLLMSpeak message saveToJournal w =
        (emit (EvPostMessage (JStr text)) w, Normal tt) /\
      JSON_parse text =
        Some (JObj [(lit "message", JStr message);
                    (lit "useLLM", JBool true);
                    (lit "wantsR1Response", JBool true);
                    (lit "wantsJournalEntry",
                     JBool (match saveToJournal with
                            | Some b => b
                            | None => false
                            end))]).
Proof.
  intros w message [b|] Hw.
  - apply speak_envelope. exact Hw.
  - destruct (speak_envelope w message false Hw) as [text [S P]].
    exists text. split; [exact S | exact P].
Qed.

Lemma askLLMSpeak_envelope_witness :
  exists text,
    askLLMSpeak (lit "Tell me a joke") None world_in_host =
      (emit (EvPostMessage (JStr text)) world_in_host, Normal tt) /\
    JSON_parse text =
      Some (JObj [(lit "message", JStr (lit "Tell me a joke"));
                  (lit "useLLM", JBool true);
                  (lit "wantsR1Response", JBool true);
                  (lit "wantsJournalEntry", JBool false)]).
Proof.
  apply (askLLMSpeak_envelope world_in_host (lit "Tell me a joke") None).
  reflexivity.
Defined.

(** X3: [performTask] journals unless told not to: the object posted has
    [wantsJournalEntry] true when [saveToJournal] is left out, where
    [askLLMSpeak] with the flag left out posts it false. *)
Theorem performTask_envelope :
  forall (w : World) (task : jstring) (saveToJournal : option bool),
    PluginMessageHandler w = true ->
    exists text,
      performTask task saveToJournal w =
        (emit (EvPostMessage (JStr text)) w, Normal tt) /\
      JSON_parse text =
        Some (JObj [(lit "message", JStr task);
                    (lit "useLLM", JBool true);
                    (lit "wantsR1Response", JBool true);
                    (lit "wantsJournalEntry",
                     JBool (match saveToJournal with
                            | Some b => b
                            | None => true
                            end))]).
Proof.
  intros w task saveToJournal Hw. unfold performTask.
  apply speak_envelope. exact Hw.
Qed.

Lemma performTask_envelope_witness :
  exists text,
    performTask (lit "Water the plants") None world_in_host =
      (emit (EvPostMessage (JStr text)) world_in_host, Normal tt) /\
    JSON_parse text =
      Some (JObj [(lit "message", JStr (lit "Water the plants"));
                  (lit "useLLM", JBool true);
                  (lit "wantsR1Response", JBool true);
                  (lit "wantsJournalEntry", JBool true)]).
Proof.
  apply (performTask_envelope world_in_host (lit "Water the plants") None).
  reflexivity.
Defined.

(** ** Asking for JSON *)

Lemma includes_inside (a p b : jstring) : includes (a ++ p ++ b) p = true.
Proof. apply includes_spec. exists a, b. reflexivity. Qed.

Lemma includes_suffix (a q p : jstring) :
  includes q p = true -> includes (a ++ q) p = true.
Proof.
  intros H. apply includes_spec in H. destruct H as [x [y ->]].
  apply includes_spec. exists (a ++ x), y. rewrite <- app_assoc. reflexivity.
Qed.

Lemma askLLMJSON_keeps (message : jstring) (options : option Obj) :
  includes message (lit "JSON") = true ->
  askLLMJSON message options = askLLM message (Some (default_obj options)).
Proof. intros H. unfold askLLMJSON. rewrite H. reflexivity. Qed.

Lemma starts_with_app (a b : jstring) : starts_with a (a ++ b) = true.
Proof. apply starts_with_spec. exists b. reflexivity. Qed.

(** X4: the text that [askLLMJSON] hands to [askLLM] begins with the
    message and always has "JSON" in it; asking again with that text sends
    it as it is, so the instruction is never added twice. *)
Theorem askLLMJSON_normal_form :
  forall (message : jstring) (options : option Obj),
    exists sent,
      askLLMJSON message options = askLLM sent (Some (default_obj options)) /\
      starts_with message sent = true /\
      includes sent (lit "JSON") = true /\
      askLLMJSON sent options = askLLMJSON message options.
Proof.
  intros message options.
  destruct (includes message (lit "JSON")) eqn:E.
  - exists message. rewrite (askLLMJSON_keeps _ _ E).
    split; [reflexivity | split; [|split; [exact E | reflexivity]]].
    rewrite <- (app_nil_r message) at 2. apply starts_with_app.
  - exists (message ++ json_instruction).
    assert (I : includes (message ++ json_instruction) (lit "JSON") = true)
      by (apply includes_suffix; reflexivity).
    rewrite (askLLMJSON_keeps _ _ I).
    split; [|split; [apply starts_with_app | split; [exact I|]]];
      unfold askLLMJSON; rewrite E; reflexivity.
Qed.

Lemma analyzeData_falsy (prompt : jstring) (data : AnyValue) :
  to_boolean data = false ->
  analyzeData prompt data =
  askLLM (prompt ++ lit " Please respond with a JSON analysis.") (Some []).
Proof.
  intros H. unfold analyzeData. rewrite H.
  transitivity (askLLMJSON (prompt ++ analysis_request) None); [reflexivity|].
  apply askLLMJSON_keeps. apply includes_suffix. reflexivity.
Qed.

Lemma analyzeData_returns (prompt : jstring) (data : AnyValue)
      (r : option jstring) :
  to_boolean data = true ->
  stringify_any data = Returns r ->
  analyzeData prompt data =
  askLLM ((prompt ++ lit " Data: " ++ template_text r) ++
          lit " Please respond with a JSON analysis.") (Some []).
Proof.
  intros H E. unfold analyzeData, JSON_stringify_any. rewrite H, E.
  transitivity (askLLMJSON ((prompt ++ lit " Data: " ++ template_text r) ++
                            analysis_request) None); [reflexivity|].
  apply askLLMJSON_keeps. apply includes_suffix. reflexivity.
Qed.

Lemma analyzeData_throws (prompt : jstring) (data : AnyValue) (x : Exception) :
  to_boolean data = true ->
  stringify_any data = Throws x ->
  analyzeData prompt data = throw x.
Proof.
  intros H E. unfold analyzeData, JSON_stringify_any. rewrite H, E. reflexivity.
Qed.

(** X5: what [analyzeData] does with its data, a value of any type.
    Falsy data ([undefined], [null], [false], [0], [NaN], [0n], the empty
    string) is left out of the message.  For other data [JSON.stringify]
    decides: when it returns, the message holds its result, the word
    [undefined] where it returns [undefined], as for a function or a
    symbol, and a text for every value made of JSON-like parts; when it
    throws, as for a BigInt or an object with itself inside, the promise
    is rejected with what it throws and nothing is asked.  A message that
    is sent ends with the request for a JSON analysis, and [askLLMJSON]
    adds nothing to it. *)
Theorem analyzeData_message :
  forall (prompt : jstring) (data : AnyValue),
    (to_boolean data = false ->
     analyzeData prompt data =
     askLLM (prompt ++ lit " Please respond with a JSON analysis.") (Some [])) /\
    (to_boolean data = true ->
     forall r, stringify_any data = Returns r ->
       analyzeData prompt data =
       askLLM ((prompt ++ lit " Data: " ++ template_text r) ++
               lit " Please respond with a JSON analysis.") (Some [])) /\
    (to_boolean data = true ->
     forall x, stringify_any data = Throws x ->
       analyzeData prompt data = throw x) /\
    (forall v, data = Plain v -> truthy v = true ->
       exists text, stringify_any data = Returns (Some text)) /\
    (data = FunctionValue \/ data = SymbolValue ->
     analyzeData prompt data =
     askLLM ((prompt ++ lit " Data: undefined") ++
             lit " Please respond with a JSON analysis.") (Some [])) /\
    (forall n, data = BigIntValue n -> n <> 0%Z ->
       analyzeData prompt data = throw TypeError).
Proof.
  intros prompt data. split; [|split; [|split; [|split; [|split]]]].
  - apply analyzeData_falsy.
  - intros H r E. apply analyzeData_returns; assumption.
  - intros H x E. apply analyzeData_throws; assumption.
  - intros v -> H.
    destruct v as [| |[|]| | | |]; try discriminate; eexists; reflexivity.
  - intros [-> | ->]; apply (analyzeData_returns prompt _ None); reflexivity.
  - intros n -> Hn. apply analyzeData_throws; [|reflexivity].
    cbn [to_boolean]. destruct (Z.eqb_spec n 0); [contradiction | reflexivity].
Qed.

Lemma analyzeData_message_witness :
  analyzeData (lit "Rate this.") (Plain (JNum 0 0)) =
    askLLM (lit "Rate this. Please respond with a JSON analysis.") (Some []) /\
  analyzeData (lit "Rate this.") (Plain (JObj [(lit "score", JNum 7 0)])) =
    askLLM (litq "Rate this. Data: {'score':7} Please respond with a JSON analysis.")
           (Some []) /\
  analyzeData (lit "Rate this.") FunctionValue =
    askLLM (lit "Rate this. Data: undefined Please respond with a JSON analysis.")
           (Some []) /\
  analyzeData (lit "Rate this.") (BigIntValue 7) = throw TypeError /\
  analyzeData (lit "Rate this.") (ObjectValue (Throws TypeError)) = throw TypeError.
Proof.
  split; [|split; [|split; [|split]]].
  - apply (proj1 (analyzeData_message (lit "Rate this.") (Plain (JNum 0 0)))).
    reflexivity.
  - rewrite (proj1 (proj2 (analyzeData_message (lit "Rate this.")
                             (Plain (JObj [(lit "score", JNum 7 0)]))))
               eq_refl (Some (litq "{'score':7}")) eq_refl).
    reflexivity.
  - apply (proj1 (proj2 (proj2 (proj2 (proj2
             (analyzeData_message (lit "Rate this.") FunctionValue)))))).
    left. reflexivity.
  - apply (proj2 (proj2 (proj2 (proj2 (proj2
             (analyzeData_message (lit "Rate this.") (BigIntValue 7)))))) 7%Z);
      [reflexivity | discriminate].
  - apply (proj1 (proj2 (proj2 (analyzeData_message (lit "Rate this.")
                                  (ObjectValue (Throws TypeError))))) eq_refl).
    reflexivity.
Defined.

(** ** Without the transport *)

Lemma send_rejects (w : World) (message : jstring) (options : option Obj) :
  PluginMessageHandler w = false ->
  sendMessage message options w = (w, Throw TransportUnavailable).
Proof. intros H. unfold sendMessage. rewrite H. reflexivity. Qed.

(** X7: without the host transport every method of [LLMHelpers] is
    rejected and the world is left as it was.  The rejection is
    [TransportUnavailable], but for [analyzeData] on data for which
    [JSON.stringify] throws: there it is what [JSON.stringify] throws,
    which comes first. *)
Theorem helpers_fail_without_transport :
  forall (w : World) (prompt task context : jstring) (data : AnyValue)
         (saveToJournal : option bool),
    PluginMessageHandler w = false ->
    getUserMemories w = (w, Throw TransportUnavailable) /\
    (to_boolean data = false \/ (exists r, stringify_any data = Returns r) ->
     analyzeData prompt data w = (w, Throw TransportUnavailable)) /\
    (forall x, to_boolean data = true -> stringify_any data = Throws x ->
               analyzeData prompt data w = (w, Throw x)) /\
    performTask task saveToJournal w = (w, Throw TransportUnavailable) /\
    getUISuggestions context w = (w, Throw TransportUnavailable).
Proof.
  intros w prompt task context data saveToJournal H.
  split; [|split; [|split; [|split]]].
  - unfold getUserMemories, askLLMJSON, askLLM. apply send_rejects. exact H.
  - intros D. destruct (to_boolean data) eqn:T.
    + destruct D as [D|[r D]]; [discriminate D|].
      rewrite (analyzeData_returns prompt data r T D).
      unfold askLLM. apply send_rejects. exact H.
    + rewrite (analyzeData_falsy prompt data T).
      unfold askLLM. apply send_rejects. exact H.
  - intros x T E. rewrite (analyzeData_throws prompt data x T E). reflexivity.
  - unfold performTask, askLLMSpeak, askLLM. apply send_rejects. exact H.
  - unfold getUISuggestions, askLLMJSON, askLLM. apply send_rejects. exact H.
Qed.

Lemma helpers_fail_without_transport_witness :
  let w := {| PluginMessageHandler := false; closeWebView := false;
              window := None; instances := []; objects := []; trace := [] |} in
  analyzeData (lit "Rate this.") (Plain JNull) w = (w, Throw TransportUnavailable) /\
  analyzeData (lit "Rate this.") (BigIntValue 7) w = (w, Throw TypeError).
Proof.
  intros w.
  destruct (helpers_fail_without_transport w (lit "Rate this.") [] []
              (Plain JNull) None eq_refl) as (_ & A & _).
  destruct (helpers_fail_without_transport w (lit "Rate this.") [] []
              (BigIntValue 7) None eq_refl) as (_ & _ & B & _).
  split; [apply A; left; reflexivity | apply B; reflexivity].
Defined.

(** ** Outbound and inbound together *)

(** X8: when the host hands back as [data] the very text that [sendMessage]
    posted, the listeners get the posted object as [parsedData]. *)
Theorem echo_is_parsed :
  forall (w : World) (message : jstring) (options : option Obj)
         (fields : Obj),
    PluginMessageHandler w = true ->
    is_MessageOptions (default_obj options) ->
    exists text decoded,
      sendMessage message options w =
        (emit (EvPostMessage (JStr text)) w, Normal tt) /\
      parsedData (enhance {| data := Some text; host_fields := fields |}) =
        JObj decoded /\
      forall k, obj_get decoded k =
                obj_get ((lit "message", JStr message) :: default_obj options) k.
Proof.
  intros w message options fields Hw Ho.
  destruct (flat_MessageOptions _ Ho) as [Hf Hm].
  destruct Ho as [Hnd _].
  destruct (send_general w message (default_obj options) Hw Hnd Hf Hm)
    as [text [S P]].
  exists text, (defined ((lit "message", JStr message) :: default_obj options)).
  split; [|split].
  - destruct options; exact S.
  - unfold enhance, parse_data. cbn [parsedData data].
    destruct text as [|c t]; [discriminate P|]. rewrite P. reflexivity.
  - intros k. apply obj_get_defined. simpl. constructor; assumption.
Qed.

Lemma echo_is_parsed_witness :
  exists text decoded,
    sendMessage (lit "ping") (Some [(lit "useLLM", JBool true)]) world_in_host =
      (emit (EvPostMessage (JStr text)) world_in_host, Normal tt) /\
    parsedData (enhance {| data := Some text; host_fields := [] |}) =
      JObj decoded /\
    obj_get decoded (lit "message") = JStr (lit "ping").
Proof.
  destruct (echo_is_parsed world_in_host (lit "ping")
              (Some [(lit "useLLM", JBool true)]) [])
    as [text [decoded (S & P & G)]].
  - reflexivity.
  - split.
    + constructor; [intros [] | constructor].
    + constructor; [|constructor].
      split; [left; reflexivity | left; exists true; reflexivity].
  - exists text, decoded. split; [exact S | split; [exact P|]].
    rewrite G. reflexivity.
Defined.

(** ** Unregistering and registering *)

Lemma set_delete_absent (s : SetData) (h : Handler) :
  set_has s h = false -> set_delete s h = s.
Proof.
  unfold set_has, set_delete. induction s as [|x s IH]; simpl; [reflexivity|].
  intros H. apply orb_false_iff in H. destruct H as [H1 H2].
  rewrite H1, IH by exact H2. reflexivity.
Qed.

Lemma update_nth_id {A : Type} (f : A -> A) (l : list A) (n : nat) :
  (forall x, nth_error l n = Some x -> f x = x) -> update_nth n f l = l.
Proof.
  revert n; induction l as [|y l IH]; intros n H; [destruct n; reflexivity|].
  destruct n; simpl.
  - rewrite (H y eq_refl). reflexivity.
  - rewrite IH; [reflexivity|]. intros x Hx. apply (H x). exact Hx.
Qed.

Lemma update_handlers_id (this : nat) (f : SetData -> SetData) (w : World) :
  f (handlers_of this w) = handlers_of this w -> update_handlers this f w = w.
Proof.
  intros H. unfold update_handlers. rewrite update_nth_id.
  - destruct w; reflexivity.
  - intros inst E. unfold handlers_of in H. rewrite E in H.
    rewrite H. destruct inst; reflexivity.
Qed.

Lemma handlers_of_update_nil (i j : nat) (f : SetData -> SetData) (w : World) :
  f [] = [] ->
  handlers_of i (update_handlers j f w) =
  if Nat.eqb j i then f (handlers_of i w) else handlers_of i w.
Proof.
  intros Hf. unfold handlers_of, update_handlers. simpl.
  rewrite nth_error_update_nth.
  destruct (nth_error (instances w) i) as [inst|]; destruct (Nat.eqb j i);
    simpl; auto.
Qed.

Lemma set_values_delete (s : SetData) (h : Handler) :
  set_values (set_delete s h) = remove Nat.eq_dec h (set_values s).
Proof.
  unfold set_delete. induction s as [|[x|] s IH]; simpl; [reflexivity| |exact IH].
  destruct (Nat.eq_dec h x) as [E|E]; destruct (Nat.eqb_spec x h) as [E'|E'];
    try congruence; simpl; rewrite IH; reflexivity.
Qed.

(** X9: [offMessage] of a listener that is not registered changes nothing:
    the world is as before, nothing is thrown. *)
Theorem offMessage_unregistered :
  forall (w : World) (this : nat) (handler : Handler),
    set_has (handlers_of this w) handler = false ->
    offMessage this handler w = (w, Normal tt).
Proof.
  intros w this handler H. unfold offMessage, effect.
  rewrite update_handlers_id; [reflexivity|].
  apply set_delete_absent. exact H.
Qed.

Lemma offMessage_unregistered_witness :
  offMessage 0 3 world_two_listeners = (world_two_listeners, Normal tt).
Proof.
  apply (offMessage_unregistered world_two_listeners 0 3). reflexivity.
Defined.

(** X10: after [offMessage] the listener is not called any more, and the
    other listeners are called as before, in the same order. *)
Theorem offMessage_removes_listener :
  forall (body : ListenerCode) (fuel this : nat) (d : PluginMessageResponse)
         (w : World) (handler : Handler),
    window w = Some {| onPluginMessage := Some this |} ->
    (forall h w', In h (set_values (handlers_of this w)) -> h <> handler ->
                  quiet this (body h (enhance d) w') = true) ->
    List.length (handlers_of this w) <= fuel ->
    let w1 := fst (offMessage this handler w) in
    invoked (delivered_events body fuel (ArgObject d) w1) =
      remove Nat.eq_dec handler (set_values (handlers_of this w)) /\
    ~ In handler (invoked (delivered_events body fuel (ArgObject d) w1)) /\
    snd (host_deliver body fuel (ArgObject d) w1) = Normal tt.
Proof.
  intros body fuel this d w handler Hw Hq Hlen w1.
  assert (Hs : handlers_of this w1 = set_delete (handlers_of this w) handler).
  { unfold w1, offMessage, effect. cbn [fst].
    rewrite handlers_of_update_nil by reflexivity.
    rewrite Nat.eqb_refl. reflexivity. }
  destruct (delivery_quiet body fuel this d w1) as (I & N & _).
  - exact Hw.
  - intros h w'. rewrite Hs, set_values_delete. intros Hin.
    apply in_remove in Hin. destruct Hin as [Hin Hne]. apply Hq; assumption.
  - rewrite Hs. unfold set_delete. rewrite length_map. exact Hlen.
  - rewrite Hs, set_values_delete in I.
    split; [exact I | split; [|exact N]].
    rewrite I. apply remove_In.
Qed.

Lemma offMessage_removes_listener_witness :
  invoked (delivered_events silent_body 2 (ArgObject json_delivery)
             (fst (offMessage 0 1 world_two_listeners))) = [2].
Proof.
  apply (offMessage_removes_listener silent_body 2 0 json_delivery
           world_two_listeners 1).
  - reflexivity.
  - reflexivity.
  - simpl. lia.
Defined.

Lemma forEach_all_empty (body : ListenerCode) (this ref : nat) (e : EnhancedData) :
  forall (fuel index : nat) (w : World),
    set_values (handlers_of this w) = [] ->
    List.length (handlers_of this w) <= index + fuel ->
    forEach fuel this (fanout_callback body ref e) index w = (w, Normal tt).
Proof.
  induction fuel as [|fuel IH]; intros index w Hv Hlen; rewrite forEach_unfold.
  - replace (nth_error (handlers_of this w) index) with (@None (option Handler))
      by (symmetry; apply nth_error_None; lia).
    reflexivity.
  - destruct (nth_error (handlers_of this w) index) as [[h|]|] eqn:E.
    + apply set_values_nth in E. rewrite Hv in E. destruct E.
    + apply IH; [exact Hv | lia].
    + reflexivity.
Qed.

(** X11: after [removeAllHandlers] a delivery calls no listener, whatever
    the listeners' code: it adds the enhanced object and no event. *)
Theorem removeAllHandlers_then_delivery :
  forall (body : ListenerCode) (fuel this : nat) (d : PluginMessageResponse)
         (w : World),
    window w = Some {| onPluginMessage := Some this |} ->
    List.length (handlers_of this w) <= fuel ->
    let w1 := fst (removeAllHandlers this w) in
    set_values (handlers_of this w1) = [] /\
    host_deliver body fuel (ArgObject d) w1 =
      (with_objects (objects w1 ++ [enhance d]) w1, Normal tt) /\
    delivered_events body fuel (ArgObject d) w1 = [].
Proof.
  intros body fuel this d w Hw Hlen w1.
  assert (Hs : handlers_of this w1 = set_clear (handlers_of this w)).
  { unfold w1, removeAllHandlers, effect. cbn [fst].
    rewrite handlers_of_update_nil by reflexivity.
    rewrite Nat.eqb_refl. reflexivity. }
  assert (Hv : set_values (handlers_of this w1) = [])
    by (rewrite Hs; apply set_values_clear).
  assert (R : host_deliver body fuel (ArgObject d) w1 =
              (with_objects (objects w1 ++ [enhance d]) w1, Normal tt)).
  { destruct (delivery_cases body fuel this d w1 Hw) as [Res _].
    rewrite Res. apply forEach_all_empty.
    - exact Hv.
    - change (List.length (handlers_of this w1) <= 0 + fuel).
      rewrite Hs. unfold set_clear. rewrite length_map. exact Hlen. }
  split; [exact Hv | split; [exact R|]].
  unfold delivered_events. rewrite R. cbn [fst].
  change (trace (with_objects (objects w1 ++ [enhance d]) w1)) with (trace w1).
  apply skipn_all.
Qed.

Lemma removeAllHandlers_then_delivery_witness :
  delivered_events throwing_body 2 (ArgObject json_delivery)
    (fst (removeAllHandlers 0 world_two_listeners)) = [].
Proof.
  apply (removeAllHandlers_then_delivery throwing_body 2 0 json_delivery
           world_two_listeners).
  - reflexivity.
  - simpl. lia.
Defined.

Lemma set_values_add (s : SetData) (h : Handler) :
  set_values (set_add s h) =
  if set_has s h then set_values s else set_values s ++ [h].
Proof.
  unfold set_add. destruct (set_has s h); [reflexivity|].
  rewrite set_values_app. reflexivity.
Qed.

Lemma length_set_add (s : SetData) (h : Handler) :
  List.length (set_add s h) <= S (List.length s).
Proof.
  unfold set_add. destruct (set_has s h); [lia|].
  rewrite length_app. simpl. lia.
Qed.

Lemma handlers_of_onMessage (this : nat) (h : Handler) (w : World) :
  this < List.length (instances w) ->
  handlers_of this (fst (onMessage this h w)) = set_add (handlers_of this w) h.
Proof.
  intros Hi. unfold onMessage, effect. cbn [fst].
  rewrite handlers_of_update by exact Hi. rewrite Nat.eqb_refl. reflexivity.
Qed.


(** X12: the order of registration is the order of the calls: a listener
    registered with [onMessage] is called after the listeners that were
    there, and one that was registered already keeps its place. *)
Theorem onMessage_then_delivery :
  forall (body : ListenerCode) (fuel this : nat) (d : PluginMessageResponse)
         (w : World) (handler : Handler),
    this < List.length (instances w) ->
    window w = Some {| onPluginMessage := Some this |} ->
    (forall h w', In h (set_values (handlers_of this w)) \/ h = handler ->
                  quiet this (body h (enhance d) w') = true) ->
    List.length (handlers_of this w) < fuel ->
    let w1 := fst (onMessage this handler w) in
    invoked (delivered_events body fuel (ArgObject d) w1) =
      (if set_has (handlers_of this w) handler
       then set_values (handlers_of this w)
       else set_values (handlers_of this w) ++ [handler]) /\
    snd (host_deliver body fuel (ArgObject d) w1) = Normal tt.
Proof.
  intros body fuel this d w handler Hi Hw Hq Hlen w1.
  pose proof (handlers_of_onMessage this handler w Hi) as Hs. fold w1 in Hs.
  destruct (delivery_quiet body fuel this d w1) as (I & N & _).
  - exact Hw.
  - intros h w'. rewrite Hs, set_values_add. intros Hin. apply Hq.
    destruct (set_has (handlers_of this w) handler); [left; exact Hin|].
    apply in_app_or in Hin. destruct Hin as [Hin|[<-|[]]]; auto.
  - rewrite Hs. pose proof (length_set_add (handlers_of this w) handler). lia.
  - rewrite Hs, set_values_add in I. split; [exact I | exact N].
Qed.

Lemma onMessage_then_delivery_witness :
  invoked (delivered_events silent_body 3 (ArgObject json_delivery)
             (fst (onMessage 0 9 world_two_listeners))) = [1; 2; 9].
Proof.
  apply (onMessage_then_delivery silent_body 3 0 json_delivery
           world_two_listeners 9).
  - simpl. lia.
  - reflexivity.
  - reflexivity.
  - simpl. lia.
Defined.





(** ** What every reachable world satisfies *)

Section Invariant.

Variable P : World -> Prop.
Variable allowed : Action -> bool.
Variable body : ListenerCode.
Hypothesis P_emit : forall ev w, P w -> P (emit ev w).
Hypothesis P_objects : forall l w, P w -> P (with_objects l w).
Hypothesis P_action :
  forall a w, allowed a = true -> P w -> P (fst (run_action a w)).

Lemma run_actions_invariant (acts : list Action) :
  forallb allowed acts = true ->
  forall w, P w -> P (fst (run_actions acts w)).
Proof.
  induction acts as [|a acts IH]; intros Ha w Hw; [exact Hw|].
  cbn [forallb] in Ha. apply andb_true_iff in Ha. destruct Ha as [Ha Hl].
  cbn [run_actions]. unfold bind.
  pose proof (P_action a w Ha Hw) as H1.
  destruct (run_action a w) as [w1 [u|x|]]; cbn [fst] in *; auto.
Qed.

Lemma callback_invariant (ref : nat) (e : EnhancedData)
      (h : Handler) (w : World) :
  forallb allowed (body h e w) = true ->
  P w -> P (fst (fanout_callback body ref e h w)).
Proof.
  intros Hb Hw. unfold fanout_callback, try_catch, call_handler, bind, effect.
  pose proof (run_actions_invariant (body h e w) Hb _
                (P_emit (EvInvoke h ref) w Hw))
    as H1.
  destruct (run_actions (body h e w) (emit (EvInvoke h ref) w)) as [w1 [u|x|]];
    cbn [fst] in *; auto.
  unfold console_error, effect. cbn [fst]. apply P_emit. exact H1.
Qed.

Lemma forEach_invariant (this ref : nat) (e : EnhancedData) :
  (forall h w, forallb allowed (body h e w) = true) ->
  forall (fuel index : nat) (w : World),
    P w -> P (fst (forEach fuel this (fanout_callback body ref e) index w)).
Proof.
  intros Hb.
  induction fuel as [|fuel IH]; intros index w Hw; rewrite forEach_unfold.
  - destruct (nth_error (handlers_of this w) index); exact Hw.
  - destruct (nth_error (handlers_of this w) index) as [[h|]|].
    + pose proof (callback_invariant ref e h w (Hb h w) Hw) as H1.
      destruct (fanout_callback body ref e h w) as [w1 [u|x|]];
        cbn [fst] in *; auto.
    + apply IH. exact Hw.
    + exact Hw.
Qed.

Lemma host_deliver_invariant (fuel : nat) (arg : HostArg) (w : World) :
  (forall d, arg = ArgObject d ->
             forall h w', forallb allowed (body h (enhance d) w') = true) ->
  P w -> P (fst (host_deliver body fuel arg w)).
Proof.
  intros Hb Hw. unfold host_deliver.
  destruct (window w) as [[[this|]]|]; try exact Hw.
  destruct arg as [| |d].
  - rewrite closure_malformed by auto. apply P_emit. exact Hw.
  - rewrite closure_malformed by auto. apply P_emit. exact Hw.
  - rewrite closure_object. apply forEach_invariant; [apply (Hb d eq_refl)|].
    apply P_objects. exact Hw.
Qed.

End Invariant.

(** Only the constructor writes [window.onPluginMessage]. *)
Lemma window_kept_action (a : Action) (w : World) :
  constructs a = false -> window (fst (run_action a w)) = window w.
Proof.
  intros Ha. destruct a; cbn [run_action]; try reflexivity;
    try discriminate Ha;
    unfold drop_promise, askLLMSpeak, askLLMJSON, askLLM, sendMessage, closePlugin;
    cbn [fst].
  - destruct (PluginMessageHandler w); reflexivity.
  - destruct (PluginMessageHandler w); reflexivity.
  - destruct (PluginMessageHandler w); reflexivity.
  - destruct (PluginMessageHandler w); reflexivity.
  - destruct (closeWebView w); reflexivity.
Qed.

Lemma delivery_keeps_window (body : ListenerCode) (fuel : nat) (arg : HostArg)
      (w : World) :
  (forall d, arg = ArgObject d ->
             forall h w', forallb (fun a => negb (constructs a))
                                  (body h (enhance d) w') = true) ->
  window (fst (host_deliver body fuel arg w)) = window w.
Proof.
  intros Hb.
  apply (host_deliver_invariant (fun w' => window w' = window w)
           (fun a => negb (constructs a)) body).
  - intros ev w' H. exact H.
  - intros l w' H. exact H.
  - intros a w' Ha H. rewrite window_kept_action; [exact H|].
    destruct (constructs a); [discriminate Ha | reflexivity].
  - exact Hb.
  - reflexivity.
Qed.

Lemma world_ok_update (j : nat) (f : SetData -> SetData) (w : World) :
  (forall s, NoDup (set_values s) -> NoDup (set_values (f s))) ->
  world_ok w -> world_ok (update_handlers j f w).
Proof.
  intros Hf [H1 H2]. split.
  - intros i. destruct (Nat.lt_ge_cases i (List.length (instances w))) as [Hi|Hi].
    + rewrite handlers_of_update by exact Hi.
      destruct (Nat.eqb j i); [apply Hf|]; apply H1.
    + unfold handlers_of.
      replace (nth_error (instances (update_handlers j f w)) i)
        with (@None R1Messaging); [constructor|].
      symmetry. apply nth_error_None. unfold update_handlers. simpl.
      rewrite length_update_nth. exact Hi.
  - intros this Hw. unfold update_handlers. simpl.
    rewrite length_update_nth. apply H2. exact Hw.
Qed.

Lemma world_ok_send (m : jstring) (o : option Obj) (w : World) :
  world_ok w -> world_ok (fst (sendMessage m o w)).
Proof.
  intros H. unfold sendMessage. destruct (PluginMessageHandler w); exact H.
Qed.

Lemma handlers_of_grown (i : nat) (w : World) (inst : R1Messaging)
      (win : option Window) :
  messageHandlers inst = [] ->
  NoDup (set_values (handlers_of i w)) ->
  NoDup (set_values
           (handlers_of i (with_instances (instances w ++ [inst])
                                          (with_window win w)))).
Proof.
  intros Hm H. unfold handlers_of in *. cbn [instances with_instances with_window].
  destruct (Nat.lt_ge_cases i (List.length (instances w))) as [Hi|Hi].
  - rewrite nth_error_app1 by exact Hi. exact H.
  - rewrite nth_error_app2 by exact Hi.
    destruct (i - List.length (instances w)) as [|[|n]]; simpl;
      try rewrite Hm; constructor.
Qed.

Lemma world_ok_new (w : World) :
  world_ok w -> world_ok (fst (new_R1Messaging w)).
Proof.
  intros [H1 H2]. destruct (window w) as [win|] eqn:E.
  - rewrite (new_R1Messaging_in_window w win E). cbn [fst]. split.
    + intros i. apply handlers_of_grown; [reflexivity | apply H1].
    + intros this Hw. simpl in Hw. injection Hw as <-.
      simpl. rewrite length_app. simpl. lia.
  - unfold new_R1Messaging, initializeMessageHandler, bind, ret. simpl.
    rewrite E. cbn [fst]. split.
    + intros i.
      change (with_instances
                (instances w ++ [{| messageHandlers := []; isInitialized := false |}])
                w)
        with (with_instances
                (instances w ++ [{| messageHandlers := []; isInitialized := false |}])
                (with_window (window w) w)).
      apply handlers_of_grown; [reflexivity | apply H1].
    + intros this Hw. simpl in Hw. congruence.
Qed.

Lemma world_ok_action (a : Action) (w : World) :
  world_ok w -> world_ok (fst (run_action a w)).
Proof.
  intros H. destruct a; cbn [run_action].
  - apply world_ok_update; [|exact H]. intros s. apply NoDup_set_add.
  - apply world_ok_update; [|exact H]. intros s. apply NoDup_set_delete.
  - apply world_ok_update; [|exact H]. intros s _.
    rewrite set_values_clear. constructor.
  - apply world_ok_send. exact H.
  - apply world_ok_send. exact H.
  - apply world_ok_send. exact H.
  - apply world_ok_send. exact H.
  - unfold closePlugin. destruct (closeWebView w); exact H.
  - unfold bind. pose proof (world_ok_new w H) as H1.
    destruct (new_R1Messaging w) as [w1 [n|x|]]; exact H1.
  - exact H.
Qed.

(** X15: in every world that the calls of the application and the
    deliveries of the host lead to, whatever the listeners do, no listener
    is twice in a listener set, and the subscription of [window] is that of
    the instance constructed last: no earlier instance receives. *)
Theorem reachable_worlds :
  forall (body : ListenerCode) (w : World),
    reachable body w ->
    (forall i, NoDup (set_values (handlers_of i w))) /\
    (forall this, window w = Some {| onPluginMessage := Some this |} ->
                  S this = List.length (instances w)).
Proof.
  intros body w R. change (world_ok w).
  induction R as [w Hi Hw|a w R IH|fuel arg w R IH].
  - split.
    + intros i. unfold handlers_of. rewrite Hi. destruct i; constructor.
    + intros this E. destruct Hw as [Hw|Hw]; rewrite Hw in E; discriminate.
  - apply world_ok_action. exact IH.
  - apply (host_deliver_invariant world_ok (fun _ => true)); try exact IH; clear.
    + intros ev w H. exact H.
    + intros l w H. exact H.
    + intros a w _. apply world_ok_action.
    + intros d _ h w. apply forallb_forall. reflexivity.
Qed.

Lemma reachable_worlds_witness :
  let w := fst (host_deliver adding_body 5 (ArgObject json_delivery)
             (fst (run_action CallNew
                (fst (run_action (CallOnMessage 0 1)
                   (fst (run_action CallNew world_in_host))))))) in
  (forall i, NoDup (set_values (handlers_of i w))) /\
  (forall this, window w = Some {| onPluginMessage := Some this |} ->
                S this = List.length (instances w)).
Proof.
  apply (reachable_worlds adding_body).
  apply reach_delivery. apply reach_call. apply reach_call. apply reach_call.
  apply reach_start; [reflexivity | right; reflexivity].
Defined.

(** ** What is written to the console *)

Lemma console_errors_app (evs1 evs2 : list Event) :
  console_errors (evs1 ++ evs2) = console_errors evs1 ++ console_errors evs2.
Proof.
  induction evs1 as [|ev evs1 IH]; [reflexivity|].
  destruct ev; simpl; rewrite IH; reflexivity.
Qed.

Lemma outbound_console_errors (evs : list Event) :
  outbound evs -> console_errors evs = [].
Proof.
  induction 1 as [|ev evs H _ IH]; [reflexivity|].
  destruct ev; simpl; try contradiction; exact IH.
Qed.

Section Console.

Variable body : ListenerCode.
Variable this : nat.
Variable ref : nat.
Variable e : EnhancedData.

Local Abbreviation cb := (fanout_callback body ref e).

Lemma callback_errors (h : Handler) (w : World) :
  this < List.length (instances w) ->
  exists evs,
    step_of this w (fst (cb h w))
            (acts_effect this (body h e w) (handlers_of this w))
            (EvInvoke h ref :: evs) /\
    snd (cb h w) = Normal tt /\
    invoked evs = [] /\
    console_errors evs = handler_errors (thrown (body h e w)).
Proof.
  intros Hi. unfold cb, fanout_callback, try_catch, call_handler, bind, effect.
  assert (Hi' : this < List.length (instances (emit (EvInvoke h ref) w)))
    by exact Hi.
  destruct (run_actions_summary this (body h e w) _ Hi') as [evs [S [O C]]].
  destruct (run_actions (body h e w) (emit (EvInvoke h ref) w)) as [w1 c1].
  cbn [fst snd] in *.
  assert (S0 : step_of this w w1
                 (acts_effect this (body h e w) (handlers_of this w))
                 ([EvInvoke h ref] ++ evs)).
  { eapply step_of_trans; [apply step_of_emit | exact S]. }
  destruct (thrown (body h e w)) as [v|]; subst c1.
  - exists (evs ++ [EvConsoleError handler_error_label (Thrown v)]).
    unfold console_error, effect. cbn [fst snd].
    split; [|split; [reflexivity | split]].
    + change (EvInvoke h ref :: evs ++ [EvConsoleError handler_error_label (Thrown v)])
        with (([EvInvoke h ref] ++ evs) ++ [EvConsoleError handler_error_label (Thrown v)]).
      eapply step_of_trans; [exact S0|].
      destruct S0 as (H0 & _). rewrite <- H0. apply step_of_emit.
    + rewrite invoked_app, (outbound_invoked _ O). reflexivity.
    + rewrite console_errors_app, (outbound_console_errors _ O). reflexivity.
  - exists evs. cbn [fst snd].
    split; [exact S0 | split; [reflexivity | split]].
    + apply outbound_invoked; exact O.
    + apply outbound_console_errors; exact O.
Qed.

Lemma forEach_errors (t : Handler -> option JsVal) :
  (forall h w', thrown (body h e w') = t h) ->
  forall (fuel index : nat) (w : World),
    this < List.length (instances w) ->
    exists evs s',
      step_of this w (fst (forEach fuel this cb index w)) s' evs /\
      console_errors evs = flat_map (fun h => handler_errors (t h)) (invoked evs).
Proof.
  intros Ht. induction fuel as [|fuel IH]; intros index w Hi;
    rewrite forEach_unfold.
  - exists [], (handlers_of this w).
    destruct (nth_error (handlers_of this w) index); cbn [fst snd];
      (split; [apply step_of_refl | reflexivity]).
  - destruct (nth_error (handlers_of this w) index) as [[h0|]|] eqn:E.
    + destruct (callback_errors h0 w Hi) as [evs1 [S1 [C1 [I1 E1]]]].
      destruct (cb h0 w) as [w1 c1]. cbn [fst snd] in *. subst c1.
      assert (Hi1 : this < List.length (instances w1))
        by (destruct S1 as (_ & L1 & _); lia).
      destruct (IH (S index) w1 Hi1) as [evs2 [s2 [S2 E2]]].
      exists ((EvInvoke h0 ref :: evs1) ++ evs2), s2.
      split; [eapply step_of_trans; eassumption|].
      rewrite console_errors_app, invoked_app.
      cbn [console_errors invoked]. rewrite I1, E1, E2, Ht. reflexivity.
    + apply IH; assumption.
    + exists [], (handlers_of this w). cbn [fst snd].
      split; [apply step_of_refl | reflexivity].
Qed.

End Console.

(** X16: what a delivery of an object writes to the console is the errors
    of the listeners it calls, one for each call of a listener that
    throws, in the order of the calls, under the label of a listener's
    error, and nothing else. *)
Theorem console_errors_of_delivery :
  forall (body : ListenerCode) (fuel this : nat) (d : PluginMessageResponse)
         (w : World) (t : Handler -> option JsVal),
    window w = Some {| onPluginMessage := Some this |} ->
    (forall h w', thrown (body h (enhance d) w') = t h) ->
    console_errors (delivered_events body fuel (ArgObject d) w) =
    flat_map (fun h => handler_errors (t h))
             (invoked (delivered_events body fuel (ArgObject d) w)).
Proof.
  intros body fuel this d w t Hw Ht.
  destruct (delivery_cases body fuel this d w Hw) as [Res [[Hi Ev]|[Hs [E0 Hevs]]]].
  - destruct (forEach_errors body this (List.length (objects w)) (enhance d) t Ht
                fuel 0 (with_objects (objects w ++ [enhance d]) w) Hi)
      as [evs [s' [S E]]].
    rewrite (Ev evs s' S). exact E.
  - rewrite Hevs. reflexivity.
Qed.

Lemma console_errors_of_delivery_witness :
  console_errors (delivered_events throwing_body 2 (ArgObject json_delivery)
                                   world_two_listeners) =
  [(handler_error_label, Thrown (JStr (lit "boom")))].
Proof.
  etransitivity.
  - apply (console_errors_of_delivery throwing_body 2 0 json_delivery
             world_two_listeners
             (fun h => thrown (throwing_body h (enhance json_delivery)
                                             world_two_listeners))).
    + reflexivity.
    + intros h w'. reflexivity.
  - reflexivity.
Defined.

(** ** When no listener registers listeners *)

Lemma stays_refl (s : SetData) : Forall2 stays_or_empties s s.
Proof. induction s; constructor; [left; reflexivity | assumption]. Qed.

Lemma stays_trans (s1 s2 s3 : SetData) :
  Forall2 stays_or_empties s1 s2 -> Forall2 stays_or_empties s2 s3 ->
  Forall2 stays_or_empties s1 s3.
Proof.
  intros H. revert s3. induction H as [|a b l l' Hab H IH]; intros s3 H3;
    inversion H3 as [|b' c l2 l3 Hbc H3']; subst; constructor.
  - destruct Hbc as [->| ->]; [exact Hab | right; reflexivity].
  - apply IH. exact H3'.
Qed.

Lemma stays_map (f : option Handler -> option Handler) (s : SetData) :
  (forall x, f x = x \/ f x = None) -> Forall2 stays_or_empties s (map f s).
Proof.
  intros Hf. induction s as [|x s IH]; simpl; constructor; [apply Hf | exact IH].
Qed.

Lemma stays_set_effect (i : nat) (a : Action) (s : SetData) :
  (forall R, registers i R [a] = false) ->
  Forall2 stays_or_empties s (set_effect i a s).
Proof.
  intros Hr. destruct a; simpl; try apply stays_refl.
  - specialize (Hr h). simpl in Hr. rewrite Nat.eqb_refl in Hr.
    destruct (Nat.eqb inst i); [discriminate | apply stays_refl].
  - destruct (Nat.eqb inst i); [|apply stays_refl].
    apply stays_map. intros x. destruct (entry_is h x); auto.
  - destruct (Nat.eqb inst i); [|apply stays_refl].
    apply stays_map. auto.
Qed.

Lemma stays_acts_effect (i : nat) (acts : list Action) :
  (forall R, registers i R acts = false) ->
  forall s, Forall2 stays_or_empties s (acts_effect i acts s).
Proof.
  induction acts as [|a acts IH]; intros Hr s; [apply stays_refl|].
  assert (Ha : forall R, registers i R [a] = false)
    by (intros R; apply (registers_cons i R a acts), Hr).
  assert (Hl : forall R, registers i R acts = false)
    by (intros R; apply (registers_cons i R a acts), Hr).
  destruct a; cbn [acts_effect]; try apply stays_refl;
    (eapply stays_trans; [apply stays_set_effect; exact Ha | apply IH; exact Hl]).
Qed.

Lemma stays_count (s s' : SetData) :
  Forall2 stays_or_empties s s' ->
  forall (k : nat) (h : Handler),
    count_occ Nat.eq_dec (set_values (skipn k s')) h <=
    count_occ Nat.eq_dec (set_values (skipn k s)) h.
Proof.
  induction 1 as [|a b l l' Hab H IH]; intros k h.
  - destruct k; simpl; lia.
  - destruct k as [|k]; [|apply IH].
    specialize (IH 0 h). cbn [skipn] in *.
    destruct Hab as [E|E]; subst b; destruct a as [x|]; simpl;
      try destruct (Nat.eq_dec x h); lia.
Qed.

Section NoRegistration.

Variable body : ListenerCode.
Variable this : nat.
Variable ref : nat.
Variable e : EnhancedData.

Local Abbreviation cb := (fanout_callback body ref e).

Lemma forEach_no_registration :
  (forall R k w', registers this R (body k e w') = false) ->
  forall (fuel index : nat) (w : World),
    this < List.length (instances w) ->
    List.length (handlers_of this w) <= index + fuel ->
    exists evs s',
      step_of this w (fst (forEach fuel this cb index w)) s' evs /\
      snd (forEach fuel this cb index w) = Normal tt /\
      Forall2 stays_or_empties (handlers_of this w) s' /\
      forall h, count_occ Nat.eq_dec (invoked evs) h <=
                count_occ Nat.eq_dec
                          (set_values (skipn index (handlers_of this w))) h.
Proof.
  intros Hr. induction fuel as [|fuel IH]; intros index w Hi Hlen;
    rewrite forEach_unfold.
  - replace (nth_error (handlers_of this w) index) with (@None (option Handler))
      by (symmetry; apply nth_error_None; lia).
    exists [], (handlers_of this w). cbn [fst snd].
    split; [apply step_of_refl | split; [reflexivity | split; [apply stays_refl|]]].
    intros h. simpl. lia.
  - destruct (nth_error (handlers_of this w) index) as [[h0|]|] eqn:E.
    + destruct (callback_summary body this ref e h0 w Hi)
        as [evs1 [S1 [C1 [I1 _]]]].
      destruct (cb h0 w) as [w1 c1]. cbn [fst snd] in *. subst c1.
      assert (Hi1 : this < List.length (instances w1))
        by (destruct S1 as (_ & L1 & _); lia).
      assert (F1 : Forall2 stays_or_empties (handlers_of this w) (handlers_of this w1)).
      { destruct S1 as (H1 & _). rewrite H1. apply stays_acts_effect.
        intros R. apply Hr. }
      pose proof (Forall2_length F1) as L1.
      destruct (IH (S index) w1 Hi1 ltac:(lia)) as [evs2 [s2 [S2 [N2 [F2 K2]]]]].
      exists ((EvInvoke h0 ref :: evs1) ++ evs2), s2.
      split; [eapply step_of_trans; eassumption|].
      split; [exact N2|].
      split; [eapply stays_trans; eassumption|].
      intros h. rewrite invoked_app. cbn [invoked]. rewrite I1. cbn [app].
      rewrite (skipn_nth _ _ _ E). cbn [set_values].
      specialize (K2 h). pose proof (stays_count _ _ F1 (S index) h) as K1.
      cbn [count_occ]. destruct (Nat.eq_dec h0 h); lia.
    + destruct (IH (S index) w Hi ltac:(lia)) as [evs [s' [S [N [F K]]]]].
      exists evs, s'. split; [exact S | split; [exact N | split; [exact F|]]].
      intros h. rewrite (skipn_nth _ _ _ E). cbn [set_values]. apply K.
    + exists [], (handlers_of this w). cbn [fst snd].
      split; [apply step_of_refl | split; [reflexivity | split; [apply stays_refl|]]].
      intros h. simpl. lia.
Qed.

(** A listener that takes itself out and puts itself back is reached
    again, whatever the bound on the steps. *)
Lemma forEach_requeue (L : Handler) :
  (forall w', body L e w' = requeue this L) ->
  (forall h w', h <> L -> quiet this (body h e w') = true) ->
  forall (fuel index : nat) (w : World) (p : nat),
    nth_error (handlers_of this w) p = Some (Some L) ->
    index <= p ->
    snd (forEach fuel this cb index w) = OutOfFuel.
Proof.
  intros HL Hq. induction fuel as [|fuel IH]; intros index w p Hp Hle;
    pose proof (handlers_of_valid _ _ _ _ Hp) as Hi;
    assert (Hlt : p < List.length (handlers_of this w))
      by (apply nth_error_Some; congruence);
    rewrite forEach_unfold.
  - destruct (nth_error (handlers_of this w) index) eqn:E; [reflexivity|].
    apply nth_error_None in E. lia.
  - destruct (nth_error (handlers_of this w) index) as [[h0|]|] eqn:E.
    + destruct (callback_summary body this ref e h0 w Hi)
        as [evs1 [S1 [C1 _]]].
      destruct (cb h0 w) as [w1 c1]. cbn [fst snd] in *. subst c1.
      destruct S1 as (H1 & _).
      destruct (Nat.eq_dec h0 L) as [->|Hne].
      * apply (IH (S index) w1 (List.length (handlers_of this w))).
        -- rewrite H1, HL. cbn [requeue acts_effect set_effect].
           rewrite Nat.eqb_refl. unfold set_add. rewrite set_has_delete.
           rewrite nth_error_app2
             by (unfold set_delete; rewrite length_map; apply le_n).
           unfold set_delete. rewrite length_map, Nat.sub_diag. reflexivity.
        -- lia.
      * apply (IH (S index) w1 p).
        -- rewrite H1, quiet_acts_effect by (apply Hq; exact Hne). exact Hp.
        -- destruct (Nat.eq_dec index p) as [->|]; [congruence | lia].
    + apply (IH (S index) w p Hp).
      destruct (Nat.eq_dec index p) as [->|]; [congruence | lia].
    + apply nth_error_None in E. lia.
Qed.

End NoRegistration.

(** X17: when no listener's code registers a listener on the receiving
    instance, the fan-out ends, every listener called was registered when
    the delivery began, and none is called twice. *)
Theorem delivery_without_registration :
  forall (body : ListenerCode) (fuel this : nat) (d : PluginMessageResponse)
         (w : World),
    window w = Some {| onPluginMessage := Some this |} ->
    (forall R k w', registers this R (body k (enhance d) w') = false) ->
    List.length (handlers_of this w) <= fuel ->
    NoDup (set_values (handlers_of this w)) ->
    snd (host_deliver body fuel (ArgObject d) w) = Normal tt /\
    NoDup (invoked (delivered_events body fuel (ArgObject d) w)) /\
    forall h, In h (invoked (delivered_events body fuel (ArgObject d) w)) ->
              In h (set_values (handlers_of this w)).
Proof.
  intros body fuel this d w Hw Hr Hlen Hnd.
  destruct (delivery_cases body fuel this d w Hw) as [Res [[Hi Ev]|[Hs [E0 Hevs]]]];
    rewrite Res.
  - destruct (forEach_no_registration body this (List.length (objects w))
                (enhance d) Hr fuel 0
                (with_objects (objects w ++ [enhance d]) w) Hi Hlen)
      as [evs [s' [S [N [_ K]]]]].
    rewrite (Ev evs s' S).
    change (handlers_of this (with_objects (objects w ++ [enhance d]) w))
      with (handlers_of this w) in K.
    cbn [skipn] in K.
    split; [exact N | split].
    + apply (NoDup_count_occ Nat.eq_dec). intros h.
      pose proof (proj1 (NoDup_count_occ Nat.eq_dec _) Hnd h). specialize (K h). lia.
    + intros h Hin. apply (count_occ_In Nat.eq_dec) in Hin.
      apply (count_occ_In Nat.eq_dec). specialize (K h). lia.
  - rewrite E0, Hevs. cbn [snd invoked].
    split; [reflexivity | split; [constructor | intros h []]].
Qed.

Lemma delivery_without_registration_witness :
  snd (host_deliver removing_body 2 (ArgObject json_delivery)
                    world_two_listeners) = Normal tt /\
  NoDup (invoked (delivered_events removing_body 2 (ArgObject json_delivery)
                                   world_two_listeners)) /\
  forall h, In h (invoked (delivered_events removing_body 2
                             (ArgObject json_delivery) world_two_listeners)) ->
            In h (set_values (handlers_of 0 world_two_listeners)).
Proof.
  apply (delivery_without_registration removing_body 2 0 json_delivery
           world_two_listeners).
  - reflexivity.
  - intros R [|[|k]] w'; reflexivity.
  - simpl. lia.
  - repeat constructor; simpl; intuition discriminate.
Defined.

(** X18: a listener that unregisters itself and registers itself again
    while it is called keeps the fan-out going for ever: it is put at the
    end of the set and reached again, so the steps run out whatever their
    bound, and the call of the host does not return. *)
Theorem requeue_never_ends :
  forall (body : ListenerCode) (fuel this : nat) (d : PluginMessageResponse)
         (w : World) (L : Handler) (p : nat),
    window w = Some {| onPluginMessage := Some this |} ->
    nth_error (handlers_of this w) p = Some (Some L) ->
    (forall w', body L (enhance d) w' = requeue this L) ->
    (forall h w', h <> L -> quiet this (body h (enhance d) w') = true) ->
    snd (host_deliver body fuel (ArgObject d) w) = OutOfFuel.
Proof.
  intros body fuel this d w L p Hw Hp HL Hq.
  destruct (delivery_cases body fuel this d w Hw) as [Res _]. rewrite Res.
  apply (forEach_requeue body this (List.length (objects w)) (enhance d) L HL Hq
           fuel 0 (with_objects (objects w ++ [enhance d]) w) p);
    [exact Hp | lia].
Qed.

Lemma requeue_never_ends_witness :
  snd (host_deliver requeuing_body 1000 (ArgObject json_delivery)
                    world_two_listeners) = OutOfFuel.
Proof.
  apply (requeue_never_ends requeuing_body 1000 0 json_delivery
           world_two_listeners 1 0).
  - reflexivity.
  - reflexivity.
  - intros w'. reflexivity.
  - intros [|[|h]] w' Hne; [reflexivity | contradiction | reflexivity].
Defined.

(** X19: a listener that is not registered on the receiving instance when
    a delivery begins, and that no listener registers there, is not called
    in that delivery; being registered on another instance does not
    count. *)
Theorem unregistered_is_not_called :
  forall (body : ListenerCode) (fuel this : nat) (d : PluginMessageResponse)
         (w : World) (R : Handler),
    window w = Some {| onPluginMessage := Some this |} ->
    set_has (handlers_of this w) R = false ->
    (forall k w', registers this R (body k (enhance d) w') = false) ->
    ~ In R (invoked (delivered_events body fuel (ArgObject d) w)).
Proof.
  intros body fuel this d w R Hw Hs Hr.
  destruct (delivery_cases body fuel this d w Hw) as [Res [[Hi Ev]|[_ [_ Hevs]]]].
  - destruct (forEach_not_live body this (List.length (objects w)) (enhance d) R Hr
                fuel 0 (with_objects (objects w ++ [enhance d]) w) Hi Hs)
      as [evs [s' [S N]]].
    rewrite (Ev evs s' S). exact N.
  - rewrite Hevs. intros [].
Qed.

Lemma unregistered_is_not_called_witness :
  set_has (handlers_of 0 world_two_listeners) 7 = false /\
  ~ In 7 (invoked (delivered_events throwing_body 5 (ArgObject json_delivery)
                                    world_two_listeners)).
Proof.
  split; [reflexivity|].
  apply (unregistered_is_not_called throwing_body 5 0 json_delivery
           world_two_listeners 7).
  - reflexivity.
  - reflexivity.
  - intros [|[|k]] w'; reflexivity.
Defined.

(** X20: [window.onPluginMessage] is written by the constructor only: no
    other call of the module changes it, and no delivery does, unless a
    listener constructs an instance. *)
Theorem subscription_is_kept :
  forall (body : ListenerCode) (fuel : nat) (arg : HostArg) (w : World),
    (forall h e w', forallb (fun a => negb (constructs a)) (body h e w') = true) ->
    window (fst (host_deliver body fuel arg w)) = window w /\
    forall a, constructs a = false -> window (fst (run_action a w)) = window w.
Proof.
  intros body fuel arg w Hb. split.
  - apply delivery_keeps_window. intros d _ h w'. apply Hb.
  - intros a Ha. apply window_kept_action. exact Ha.
Qed.

Lemma subscription_is_kept_witness :
  window (fst (host_deliver removing_body 5 (ArgObject json_delivery)
                            world_two_listeners)) =
  window world_two_listeners.
Proof.
  apply (subscription_is_kept removing_body 5 (ArgObject json_delivery)
           world_two_listeners).
  intros [|[|h]] e w'; reflexivity.
Defined.

(** ** What the helpers post *)

Lemma askLLM_plain (w : World) (msg : jstring) :
  PluginMessageHandler w = true -> posts_request (askLLM msg (Some [])) w msg.
Proof.
  intros Hw.
  destruct (send_general w msg [(lit "useLLM", JBool true)] Hw) as [text [S P]].
  - repeat constructor; simpl; intuition discriminate.
  - repeat constructor; left; exact I.
  - simpl. intuition discriminate.
  - exists text. split; [exact S | exact P].
Qed.

(** X6: inside the host each of [getUserMemories] and [getUISuggestions],
    and [analyzeData] unless [JSON.stringify] throws on its data, posts
    one object, which holds the text of the request and [useLLM] true, and
    no flag for the speaker or the journal.  Where [JSON.stringify]
    throws, [analyzeData] posts nothing: the world is left as it was. *)
Theorem helpers_post_requests :
  forall (w : World) (prompt context : jstring) (data : AnyValue),
    PluginMessageHandler w = true ->
    posts_request getUserMemories w
      (lit "Tell me what you know about me. Return only a JSON message formatted as {'facts': ['fact1', 'fact2', ...]}") /\
    (to_boolean data = false ->
     posts_request (analyzeData prompt data) w
       (prompt ++ lit " Please respond with a JSON analysis.")) /\
    (forall r, to_boolean data = true -> stringify_any data = Returns r ->
       posts_request (analyzeData prompt data) w
         ((prompt ++ lit " Data: " ++ template_text r) ++
          lit " Please respond with a JSON analysis.")) /\
    (forall x, to_boolean data = true -> stringify_any data = Throws x ->
       analyzeData prompt data w = (w, Throw x)) /\
    posts_request (getUISuggestions context) w
      (litq "Given this UI context: '" ++ context ++
       litq "', provide suggestions for user actions. " ++
       litq "Respond with JSON format: {'suggestions': [{'action': 'action_name', 'description': 'description'}]}").
Proof.
  intros w prompt context data Hw. split; [|split; [|split; [|split]]].
  - unfold getUserMemories. rewrite askLLMJSON_keeps by reflexivity.
    apply askLLM_plain. exact Hw.
  - intros T. rewrite (analyzeData_falsy prompt data T).
    apply askLLM_plain. exact Hw.
  - intros r T E. rewrite (analyzeData_returns prompt data r T E).
    apply askLLM_plain. exact Hw.
  - intros x T E. rewrite (analyzeData_throws prompt data x T E). reflexivity.
  - unfold getUISuggestions. rewrite askLLMJSON_keeps.
    + apply askLLM_plain. exact Hw.
    + apply includes_suffix. apply includes_suffix. apply includes_suffix.
      reflexivity.
Qed.

Lemma helpers_post_requests_witness :
  posts_request (analyzeData (lit "Rate this.") (Plain (JBool true))) world_in_host
    (lit "Rate this. Data: true Please respond with a JSON analysis.") /\
  analyzeData (lit "Rate this.") (BigIntValue 7) world_in_host =
    (world_in_host, Throw TypeError).
Proof.
  destruct (helpers_post_requests world_in_host (lit "Rate this.") []
              (Plain (JBool true)) eq_refl) as (_ & _ & A & _).
  destruct (helpers_post_requests world_in_host (lit "Rate this.") []
              (BigIntValue 7) eq_refl) as (_ & _ & _ & B & _).
  split; [apply (A (Some (lit "true"))); reflexivity | apply B; reflexivity].
Defined.

(** ** [parsedData] is [undefined] only without data *)

Ltac break_match_in H :=
  repeat match type of H with
         | context [match ?x with _ => _ end] => destruct x eqn:?
         end.

Lemma parse_number_defined (s : jstring) (v : JsVal) (r : jstring) :
  parse_number s = Some (v, r) -> is_defined v = true.
Proof.
  intros H. unfold parse_number in H.
  break_match_in H; try discriminate; injection H as <- _; reflexivity.
Qed.

Lemma parse_literal_defined (word : jstring) (v0 : JsVal) (s : jstring)
      (v : JsVal) (r : jstring) :
  parse_literal word v0 s = Some (v, r) -> v = v0.
Proof.
  unfold parse_literal. destruct (starts_with word s); [|discriminate].
  intros H. injection H as <- _. reflexivity.
Qed.

Lemma parse_elements_defined (f : nat) :
  forall (s : jstring) (acc : list JsVal) (v : JsVal) (r : jstring),
    parse_elements f s acc = Some (v, r) -> is_defined v = true.
Proof.
  induction f as [|f IH]; intros s acc v r H; [discriminate H|].
  rewrite parse_elements_eq in H.
  break_match_in H; try discriminate;
    first [eapply IH; exact H | injection H as <- _; reflexivity].
Qed.

Lemma parse_members_defined (f : nat) :
  forall (s : jstring) (acc : Obj) (v : JsVal) (r : jstring),
    parse_members f s acc = Some (v, r) -> is_defined v = true.
Proof.
  induction f as [|f IH]; intros s acc v r H; [discriminate H|].
  rewrite parse_members_eq in H.
  break_match_in H; try discriminate;
    first [eapply IH; exact H | injection H as <- _; reflexivity].
Qed.

Lemma parse_value_defined (f : nat) (s : jstring) (v : JsVal) (r : jstring) :
  parse_value f s = Some (v, r) -> is_defined v = true.
Proof.
  destruct f as [|f]; intros H; [discriminate H|].
  rewrite parse_value_eq in H.
  break_match_in H; try discriminate;
    first [ injection H as <- _; reflexivity
          | eapply parse_members_defined; exact H
          | eapply parse_elements_defined; exact H
          | eapply parse_number_defined; exact H
          | apply parse_literal_defined in H; subst v; reflexivity ].
Qed.

Lemma JSON_parse_defined (text : jstring) (v : JsVal) :
  JSON_parse text = Some v -> is_defined v = true.
Proof.
  unfold JSON_parse. intros H.
  destruct (parse_value (2 * List.length text + 2) text) as [[v' r]|] eqn:E;
    [|discriminate].
  destruct (skip_ws r); [|discriminate].
  injection H as <-. eapply parse_value_defined. exact E.
Qed.

(** X21: the listeners find [parsedData] undefined exactly when the
    delivery has no [data] or an empty one: data that is there is handed
    on as a value, the document or the string itself. *)
Theorem parsedData_undefined_iff :
  forall d : PluginMessageResponse,
    parsedData (enhance d) = JUndefined <-> data d = None \/ data d = Some [].
Proof.
  intros d. unfold enhance, parse_data. cbn [parsedData].
  destruct (data d) as [[|c t]|].
  - split; auto.
  - destruct (JSON_parse (c :: t)) as [v|] eqn:E; split; intros H.
    + subst v. apply JSON_parse_defined in E. discriminate E.
    + destruct H; discriminate.
    + discriminate.
    + destruct H; discriminate.
  - split; auto.
Qed.

(** ** The fan-out iterates over the live set *)

Lemma length_acts_effect (i : nat) (acts : list Action) :
  forall s, List.length (acts_effect i acts s) <= List.length s + List.length acts.
Proof.
  induction acts as [|a acts IH]; intros s; [simpl; lia|].
  assert (La : List.length (set_effect i a s) <= S (List.length s)).
  { destruct a; simpl; try lia; destruct (Nat.eqb inst i); try lia.
    - apply length_set_add.
    - unfold set_delete. rewrite length_map. lia.
    - unfold set_clear. rewrite length_map. lia. }
  destruct a; cbn [acts_effect List.length]; try lia;
    match goal with |- List.length (acts_effect i acts ?x) <= _ =>
      specialize (IH x) end; lia.
Qed.

(** Code that registers a listener before it throws, and does not
    unregister it, leaves it registered. *)
Lemma registers_acts_effect (i : nat) (R : Handler) (acts : list Action) :
  registers_before_throw i R acts = true ->
  keeps i R acts = true ->
  forall s, set_has (acts_effect i acts s) R = true.
Proof.
  induction acts as [|a acts IH]; intros Hr Hk s; [discriminate Hr|].
  unfold keeps in Hk. cbn [forallb] in Hk. apply andb_true_iff in Hk.
  destruct Hk as [Hka Hk].
  destruct a; cbn [registers_before_throw acts_effect] in *;
    try (apply IH; assumption); try discriminate Hr.
  apply orb_true_iff in Hr. destruct Hr as [Hr|Hr]; [|apply IH; assumption].
  apply andb_true_iff in Hr. destruct Hr as [E1 E2].
  apply Nat.eqb_eq in E2. subst h. cbn [set_effect]. rewrite E1.
  pose proof (set_has_add s R) as Hs. apply set_has_values in Hs.
  destruct (set_values_In _ _ Hs) as [k Hn].
  apply (set_has_nth _ k). apply keeps_acts_effect; assumption.
Qed.

Lemma registers_forallb (i : nat) (R : Handler) (acts : list Action) :
  registers i R acts = false ->
  forallb (fun a => negb (registers i R [a])) acts = true.
Proof.
  induction acts as [|a acts IH]; intros H; [reflexivity|].
  apply registers_cons in H. destruct H as [Ha Hl].
  cbn [forallb]. rewrite Ha, IH by exact Hl. reflexivity.
Qed.

Section LiveChanges.

Variable body : ListenerCode.
Variable this : nat.
Variable ref : nat.
Variable e : EnhancedData.

Local Abbreviation cb := (fanout_callback body ref e).

(** A listener that no listener unregisters stays at its place. *)
Lemma forEach_keeps_live (L : Handler) (b : nat) :
  (forall h w', keeps this L (body h e w') = true) ->
  forall (fuel index : nat) (w : World),
    nth_error (handlers_of this w) b = Some (Some L) ->
    nth_error (handlers_of this (fst (forEach fuel this cb index w))) b =
      Some (Some L).
Proof.
  intros Hk fuel index w.
  apply (forEach_invariant
           (fun w' => nth_error (handlers_of this w') b = Some (Some L))
           (keeps_action this L) body).
  - intros ev w' H. exact H.
  - intros a w' Ha H.
    destruct (run_action_summary this a w' (handlers_of_valid _ _ _ _ H))
      as [evs [(H1 & _) _]].
    rewrite H1. apply keeps_set_effect; assumption.
  - exact Hk.
Qed.

(** Such a listener is called once the loop has steps enough to come to
    its place, and is registered still when the loop stops. *)
Lemma forEach_reaches_kept (L : Handler) (b : nat) :
  (forall h w', keeps this L (body h e w') = true) ->
  forall (fuel index : nat) (w : World),
    nth_error (handlers_of this w) b = Some (Some L) ->
    index <= b -> b < index + fuel ->
    exists t1 t3 s',
      step_of this w (fst (forEach fuel this cb index w)) s'
              (t1 ++ EvInvoke L ref :: t3) /\
      nth_error s' b = Some (Some L).
Proof.
  intros Hk.
  induction fuel as [|fuel IH]; intros index w Hb Hle Hlt; [lia|].
  pose proof (handlers_of_valid _ _ _ _ Hb) as Hi.
  pose proof (forEach_keeps_live L b Hk (S fuel) index w Hb) as Hend.
  rewrite forEach_unfold in Hend |- *.
  destruct (nth_error (handlers_of this w) index) as [[h|]|] eqn:E.
  - destruct (callback_summary body this ref e h w Hi) as [evs1 [S1 [C1 _]]].
    destruct (cb h w) as [w1 c1]. cbn [fst snd] in *. subst c1.
    assert (Hi1 : this < List.length (instances w1))
      by (destruct S1 as (_ & L1 & _); lia).
    destruct (Nat.eq_dec index b) as [->|Hne].
    + assert (h = L) by congruence. subst h.
      destruct (forEach_summary body this ref e fuel (S b) w1 Hi1)
        as [evs2 [s2 [S2 _]]].
      exists [], (evs1 ++ evs2), s2. split.
      * change ([] ++ EvInvoke L ref :: evs1 ++ evs2)
          with ((EvInvoke L ref :: evs1) ++ evs2).
        eapply step_of_trans; eassumption.
      * destruct S2 as (H2 & _). rewrite <- H2. exact Hend.
    + destruct S1 as (H1 & S1').
      assert (Hb1 : nth_error (handlers_of this w1) b = Some (Some L)).
      { rewrite H1. apply keeps_acts_effect; [apply Hk | exact Hb]. }
      destruct (IH (S index) w1 Hb1 ltac:(lia) ltac:(lia))
        as [t1 [t3 [s2 [S2 N2]]]].
      exists ((EvInvoke h ref :: evs1) ++ t1), t3, s2. split; [|exact N2].
      rewrite <- app_assoc.
      eapply step_of_trans; [split; [exact H1 | exact S1'] | exact S2].
  - destruct (Nat.eq_dec index b) as [->|Hne]; [congruence|].
    apply IH; [exact Hb | lia | lia].
  - apply nth_error_None in E.
    assert (b < List.length (handlers_of this w))
      by (apply nth_error_Some; congruence).
    lia.
Qed.

(** A listener [R] that listener [K] registers while [K] is called is
    called after [K] in the same loop, and is registered when the loop
    stops. *)
Lemma forEach_added (s : SetData) (K R : Handler) (a : nat) :
  nth_error s a = Some (Some K) ->
  (forall j h w', j < a -> nth_error s j = Some (Some h) ->
                  quiet this (body h e w') = true) ->
  set_has s R = false ->
  (forall w', registers_before_throw this R (body K e w') = true) ->
  (forall h w', keeps this R (body h e w') = true) ->
  forall (fuel index : nat) (w : World),
    handlers_of this w = s ->
    index <= a ->
    (forall w', List.length s + List.length (body K e w') <= index + fuel) ->
    exists t1 t2 t3 s' b,
      step_of this w (fst (forEach fuel this cb index w)) s'
              (t1 ++ EvInvoke K ref :: t2 ++ EvInvoke R ref :: t3) /\
      nth_error s' b = Some (Some R).
Proof.
  intros Ha Hq Hn Hr Hk.
  assert (Hla : a < List.length s) by (apply nth_error_Some; congruence).
  induction fuel as [|fuel IH]; intros index w Hs Hle Hlen;
    [specialize (Hlen w); lia|].
  assert (Hi : this < List.length (instances w)).
  { apply (handlers_of_valid this w a (Some K)). rewrite Hs. exact Ha. }
  rewrite forEach_unfold, Hs.
  destruct (nth_error s index) as [[h|]|] eqn:E.
  - destruct (callback_summary body this ref e h w Hi) as [evs1 [S1 [C1 _]]].
    destruct (cb h w) as [w1 c1]. cbn [fst snd] in *. subst c1.
    destruct S1 as (H1 & S1'). rewrite Hs in H1.
    destruct (Nat.eq_dec index a) as [->|Hne].
    + assert (h = K) by congruence. subst h.
      assert (Hin : set_has (handlers_of this w1) R = true).
      { rewrite H1. apply registers_acts_effect; [apply Hr | apply Hk]. }
      apply set_has_values in Hin.
      destruct (set_values_In _ _ Hin) as [b Hb].
      assert (Hf : fades s (handlers_of this w1))
        by (rewrite H1; apply fades_acts_effect).
      assert (Hab : List.length s <= b).
      { destruct (Nat.lt_ge_cases b (List.length s)) as [Hlt|Hge]; [|exact Hge].
        pose proof (fades_entry _ _ _ _ Hf Hlt Hb) as Hb0.
        apply set_has_nth in Hb0. congruence. }
      assert (Hbl : b < List.length (handlers_of this w1))
        by (apply nth_error_Some; congruence).
      rewrite H1 in Hbl.
      pose proof (length_acts_effect this (body K e w) s) as Lb.
      specialize (Hlen w).
      destruct (forEach_reaches_kept R b Hk fuel (S a) w1 Hb ltac:(lia) ltac:(lia))
        as [u1 [u3 [s2 [S2 N2]]]].
      exists [], (evs1 ++ u1), u3, s2, b. split; [|exact N2].
      change ([] ++ EvInvoke K ref :: (evs1 ++ u1) ++ EvInvoke R ref :: u3)
        with ((EvInvoke K ref :: (evs1 ++ u1)) ++ EvInvoke R ref :: u3).
      replace ((EvInvoke K ref :: (evs1 ++ u1)) ++ EvInvoke R ref :: u3)
        with ((EvInvoke K ref :: evs1) ++ u1 ++ EvInvoke R ref :: u3)
        by (simpl; rewrite <- app_assoc; reflexivity).
      eapply step_of_trans; [split; [exact H1 | exact S1'] | exact S2].
    + assert (Hs1 : handlers_of this w1 = s).
      { rewrite H1. apply quiet_acts_effect. apply (Hq index); [lia | exact E]. }
      destruct (IH (S index) w1 Hs1 ltac:(lia)) as [t1 [t2 [t3 [s2 [b [S2 N2]]]]]].
      { intros w'. specialize (Hlen w'). lia. }
      exists ((EvInvoke h ref :: evs1) ++ t1), t2, t3, s2, b. split; [|exact N2].
      rewrite <- app_assoc.
      eapply step_of_trans; [split; [exact H1 | exact S1'] | exact S2].
  - destruct (Nat.eq_dec index a) as [->|Hne]; [congruence|].
    apply IH; [exact Hs | lia|].
    intros w'. specialize (Hlen w'). lia.
  - apply nth_error_None in E. lia.
Qed.

(** A listener that is not registered and that no listener registers
    stays unregistered. *)
Lemma forEach_stays_unregistered (R : Handler) :
  (forall k w', registers this R (body k e w') = false) ->
  forall (fuel index : nat) (w : World),
    this < List.length (instances w) ->
    set_has (handlers_of this w) R = false ->
    this < List.length (instances (fst (forEach fuel this cb index w))) /\
    set_has (handlers_of this (fst (forEach fuel this cb index w))) R = false.
Proof.
  intros Hr fuel index w Hi Hs.
  apply (forEach_invariant
           (fun w' => this < List.length (instances w') /\
                      set_has (handlers_of this w') R = false)
           (fun a => negb (registers this R [a])) body).
  - intros ev w' H. exact H.
  - intros a w' Ha [Hi' Hs'].
    destruct (run_action_summary this a w' Hi') as [evs [(H1 & L1 & _) _]].
    split; [lia|]. rewrite H1. apply no_register_set_effect; [|exact Hs'].
    destruct (registers this R [a]); [discriminate Ha | reflexivity].
  - intros h w'. apply registers_forallb. apply Hr.
  - split; assumption.
Qed.

(** A listener that [K] unregisters, and that no listener registers, is
    unregistered when the loop stops, once the loop has steps enough to
    come to [K]. *)
Lemma forEach_unregistered_final (s0 : SetData) (K R : Handler) (a : nat) :
  a < List.length s0 ->
  (forall k w', registers this R (body k e w') = false) ->
  (forall j h w', j < a -> nth_error s0 j = Some (Some h) ->
                  keeps this K (body h e w') = true) ->
  (forall w', unregisters this R (body K e w') = true) ->
  forall (fuel index : nat) (w : World),
    fades s0 (handlers_of this w) ->
    nth_error (handlers_of this w) a = Some (Some K) ->
    index <= a -> a < index + fuel ->
    this < List.length (instances (fst (forEach fuel this cb index w))) /\
    set_has (handlers_of this (fst (forEach fuel this cb index w))) R = false.
Proof.
  intros Ha0 Hr Hk Hu.
  induction fuel as [|fuel IH]; intros index w Hf Ha Hle Hlt; [lia|].
  pose proof (handlers_of_valid _ _ _ _ Ha) as Hi.
  rewrite forEach_unfold.
  destruct (nth_error (handlers_of this w) index) as [[h|]|] eqn:E.
  - destruct (callback_summary body this ref e h w Hi) as [evs1 [S1 [C1 _]]].
    destruct (cb h w) as [w1 c1]. cbn [fst snd] in *. subst c1.
    destruct S1 as (H1 & L1 & _).
    destruct (Nat.eq_dec index a) as [->|Hne].
    + assert (h = K) by congruence. subst h.
      apply forEach_stays_unregistered; [exact Hr | lia|].
      rewrite H1. apply unregisters_acts_effect; [apply Hr | apply Hu].
    + assert (E0 : nth_error s0 index = Some (Some h))
        by (eapply fades_entry; [exact Hf | lia | exact E]).
      apply IH; [| |lia|lia].
      * eapply fades_trans; [exact Hf|]. rewrite H1. apply fades_acts_effect.
      * rewrite H1. apply keeps_acts_effect; [|exact Ha].
        apply (Hk index); [lia | exact E0].
  - destruct (Nat.eq_dec index a) as [->|Hne]; [congruence|].
    apply IH; [exact Hf | exact Ha | lia | lia].
  - apply nth_error_None in E.
    assert (a < List.length (handlers_of this w))
      by (apply nth_error_Some; congruence).
    lia.
Qed.

End LiveChanges.

(** A registered listener that no listener unregisters is called in a
    delivery that has steps enough to come to its place. *)
Lemma delivery_reaches_kept (body : ListenerCode)
      (fuel this : nat) (d : PluginMessageResponse) (w : World)
      (L : Handler) (b : nat) :
  window w = Some {| onPluginMessage := Some this |} ->
  nth_error (handlers_of this w) b = Some (Some L) ->
  (forall h w', keeps this L (body h (enhance d) w') = true) ->
  b < fuel ->
  In L (invoked (delivered_events body fuel (ArgObject d) w)).
Proof.
  intros Hw Hb Hk Hlt.
  destruct (delivery_cases body fuel this d w Hw) as [Res [[Hi Ev]|[Hs _]]].
  - destruct (forEach_reaches_kept body this (List.length (objects w)) (enhance d)
                L b Hk fuel 0 (with_objects (objects w ++ [enhance d]) w) Hb
                ltac:(lia) ltac:(lia)) as [t1 [t3 [s' [S _]]]].
    rewrite (Ev _ s' S). rewrite invoked_app. apply in_or_app. right.
    left. reflexivity.
  - rewrite Hs in Hb. destruct b; discriminate.
Qed.

(** A listener that is not registered, and that no listener registers, is
    not called in a delivery. *)
Lemma delivery_not_live (body : ListenerCode)
      (fuel this : nat) (d : PluginMessageResponse) (w : World) (R : Handler) :
  window w = Some {| onPluginMessage := Some this |} ->
  set_has (handlers_of this w) R = false ->
  (forall k w', registers this R (body k (enhance d) w') = false) ->
  ~ In R (invoked (delivered_events body fuel (ArgObject d) w)).
Proof.
  intros Hw Hs Hr.
  destruct (delivery_cases body fuel this d w Hw) as [Res [[Hi Ev]|[_ [_ Hevs]]]].
  - destruct (forEach_not_live body this (List.length (objects w)) (enhance d) R Hr
                fuel 0 (with_objects (objects w ++ [enhance d]) w) Hi Hs)
      as [evs [s' [S N]]].
    rewrite (Ev evs s' S). exact N.
  - rewrite Hevs. intros [].
Qed.

(** C2, as amended: the fan-out iterates over the live listener set, and
    what a listener changes in the set stays changed.
    (i) When no registered listener changes the set during the fan-out, the
    listeners called are exactly those registered when the delivery begins,
    in order, and the set is as before.
    (ii) When the fan-out ends, every listener registered by then has been
    called in this delivery, those added by a listener during the fan-out
    included.
    (iii) A listener unregistered by a listener K that comes before it is
    not called in this delivery, when no listener ahead of K unregisters K
    and no listener registers it again.
    (iv) A listener R that is not registered when the delivery begins and
    that listener K registers while it is called (before K throws, if it
    does) is called in this same delivery, after K, when the listeners
    ahead of K leave the set alone, no listener unregisters R and the
    fan-out has steps for the set as K leaves it; R is registered when the
    delivery is over, and every later delivery in which no listener
    unregisters it calls it.
    (v) A listener R that listener K unregisters while it is called, and
    that no listener registers, is not registered when the delivery is
    over, once the fan-out has come to K; no later delivery in which no
    listener registers it calls it.
    A later delivery arrives at the same instance when no listener has
    constructed another. *)
Theorem fanout_uses_live_set :
  forall (body : ListenerCode) (fuel this : nat)
         (d : PluginMessageResponse) (w : World),
    window w = Some {| onPluginMessage := Some this |} ->
    let s := handlers_of this w in
    let e := enhance d in
    let result := host_deliver body fuel (ArgObject d) w in
    let evs := delivered_events body fuel (ArgObject d) w in
    let ref := List.length (objects w) in
    ((forall h w', In h (set_values s) -> quiet this (body h e w') = true) ->
     (List.length s <= fuel)%nat ->
     invoked evs = set_values s /\
     snd result = Normal tt /\
     handlers_of this (fst result) = s) /\
    (snd result = Normal tt ->
     forall h, In h (set_values (handlers_of this (fst result))) ->
               In h (invoked evs)) /\
    (forall (K R : Handler) (a b : nat),
        NoDup (set_values s) ->
        nth_error s a = Some (Some K) ->
        nth_error s b = Some (Some R) ->
        (a < b)%nat ->
        (forall j h w', (j < a)%nat -> nth_error s j = Some (Some h) ->
                        keeps this K (body h e w') = true) ->
        (forall w', unregisters this R (body K e w') = true) ->
        (forall k w', registers this R (body k e w') = false) ->
        ~ In R (invoked evs)) /\
    (forall (K R : Handler) (a : nat),
        nth_error s a = Some (Some K) ->
        (forall j h w', j < a -> nth_error s j = Some (Some h) ->
                        quiet this (body h e w') = true) ->
        set_has s R = false ->
        (forall w', registers_before_throw this R (body K e w') = true) ->
        (forall h w', keeps this R (body h e w') = true) ->
        (forall w', List.length s + List.length (body K e w') <= fuel) ->
        (exists t1 t2 t3,
            evs = t1 ++ EvInvoke K ref :: t2 ++ EvInvoke R ref :: t3) /\
        set_has (handlers_of this (fst result)) R = true /\
        forall (fuel2 : nat) (d2 : PluginMessageResponse),
          (forall h w', forallb (fun x => negb (constructs x)) (body h e w') = true) ->
          (forall h w', keeps this R (body h (enhance d2) w') = true) ->
          List.length (handlers_of this (fst result)) <= fuel2 ->
          In R (invoked (delivered_events body fuel2 (ArgObject d2) (fst result)))) /\
    (forall (K R : Handler) (a : nat),
        nth_error s a = Some (Some K) ->
        (forall j h w', j < a -> nth_error s j = Some (Some h) ->
                        keeps this K (body h e w') = true) ->
        (forall w', unregisters this R (body K e w') = true) ->
        (forall k w', registers this R (body k e w') = false) ->
        a < fuel ->
        set_has (handlers_of this (fst result)) R = false /\
        forall (fuel2 : nat) (d2 : PluginMessageResponse),
          (forall h w', forallb (fun x => negb (constructs x)) (body h e w') = true) ->
          (forall k w', registers this R (body k (enhance d2) w') = false) ->
          ~ In R (invoked (delivered_events body fuel2 (ArgObject d2) (fst result)))).
Proof.
  intros body fuel this d w Hw s e result evs ref.
  assert (Hwin : (forall h w', forallb (fun x => negb (constructs x))
                                       (body h e w') = true) ->
                 window (fst result) = Some {| onPluginMessage := Some this |}).
  { intros Hc. unfold result. rewrite delivery_keeps_window; [exact Hw|].
    intros d0 E h w'. injection E as <-. apply Hc. }
  split; [|split; [|split; [|split]]].
  - intros Hq Hlen. apply delivery_quiet; assumption.
  - intros N h Hh.
    destruct (delivery_cases body fuel this d w Hw) as [Res [[Hi Ev]|[Hs [E0 Hevs]]]];
      unfold result, evs in *; rewrite Res in N, Hh.
    + destruct (forEach_covers body this (List.length (objects w)) e
                  fuel 0 _ Hi N) as [evs0 [s' [S [_ V]]]].
      rewrite (Ev evs0 s' S).
      destruct S as (H & _). unfold e in H. rewrite H in Hh.
      destruct (set_values_In _ _ Hh) as [j Hj].
      apply (V j); [lia | exact Hj].
    + rewrite E0 in Hh. cbn [fst] in Hh.
      change (handlers_of this (with_objects (objects w ++ [enhance d]) w))
        with (handlers_of this w) in Hh.
      rewrite Hs in Hh. destruct Hh.
  - intros K R a b Hnd Ha Hb Hab Hk Hu Hr.
    destruct (delivery_cases body fuel this d w Hw) as [Res [[Hi Ev]|[Hs [E0 Hevs]]]].
    + assert (Ha0 : (a < List.length s)%nat)
        by (apply nth_error_Some; congruence).
      destruct (forEach_unregistered body this (List.length (objects w)) e
                  s K R a b Ha0 Hr Hk Hu Hab fuel 0
                  (with_objects (objects w ++ [enhance d]) w) (fades_refl s) Ha
                  (only_at_unique _ _ _ Hnd Hb) ltac:(lia))
        as [evs0 [s' [S N]]].
      unfold evs. rewrite (Ev evs0 s' S). exact N.
    + unfold s in Ha. rewrite Hs in Ha. destruct a; discriminate.
  - intros K R a Ha Hq Hn Hr Hk Hlen.
    destruct (delivery_cases body fuel this d w Hw) as [Res [[Hi Ev]|[Hs _]]];
      [|unfold s in Ha; rewrite Hs in Ha; destruct a; discriminate].
    destruct (forEach_added body this ref e s K R a Ha Hq Hn Hr Hk fuel 0
                (with_objects (objects w ++ [enhance d]) w) eq_refl ltac:(lia) Hlen)
      as [t1 [t2 [t3 [s' [b [S Hb]]]]]].
    assert (Hfin : handlers_of this (fst result) = s').
    { unfold result. rewrite Res. destruct S as (H & _). exact H. }
    split; [|split].
    + exists t1, t2, t3. unfold evs. apply (Ev _ s' S).
    + rewrite Hfin. apply (set_has_nth _ b). exact Hb.
    + intros fuel2 d2 Hc Hk2 Hlen2.
      apply (delivery_reaches_kept body fuel2 this d2 (fst result) R b).
      * apply Hwin. exact Hc.
      * rewrite Hfin. exact Hb.
      * exact Hk2.
      * rewrite Hfin in Hlen2.
        assert (b < List.length s') by (apply nth_error_Some; congruence). lia.
  - intros K R a Ha Hk Hu Hr Hlt.
    destruct (delivery_cases body fuel this d w Hw) as [Res [[Hi Ev]|[Hs _]]];
      [|unfold s in Ha; rewrite Hs in Ha; destruct a; discriminate].
    assert (Ha0 : a < List.length s) by (apply nth_error_Some; congruence).
    destruct (forEach_unregistered_final body this ref e s K R a Ha0 Hr Hk Hu
                fuel 0 (with_objects (objects w ++ [enhance d]) w)
                (fades_refl s) Ha ltac:(lia) ltac:(lia)) as [_ Hfin0].
    assert (Hfin : set_has (handlers_of this (fst result)) R = false)
      by (unfold result; rewrite Res; exact Hfin0).
    split; [exact Hfin|].
    intros fuel2 d2 Hc Hr2.
    apply (delivery_not_live body fuel2 this d2 (fst result) R).
    + apply Hwin. exact Hc.
    + exact Hfin.
    + exact Hr2.
Qed.

Lemma fanout_uses_live_set_witness :
  invoked (delivered_events silent_body 2 (ArgObject json_delivery)
                            world_two_listeners) = [1; 2] /\
  In 3 (invoked (delivered_events adding_body 5 (ArgObject json_delivery)
                                  world_two_listeners)) /\
  ~ In 2 (invoked (delivered_events removing_body 5 (ArgObject json_delivery)
                                    world_two_listeners)) /\
  ((exists t1 t2 t3,
       delivered_events adding_body 5 (ArgObject json_delivery)
                        world_two_listeners =
       t1 ++ EvInvoke 1 0 :: t2 ++ EvInvoke 3 0 :: t3) /\
   In 3 (invoked (delivered_events adding_body 5 (ArgObject text_delivery)
            (fst (host_deliver adding_body 5 (ArgObject json_delivery)
                               world_two_listeners))))) /\
  (set_has (handlers_of 0 (fst (host_deliver removing_body 5
                                  (ArgObject json_delivery)
                                  world_two_listeners))) 2 = false /\
   ~ In 2 (invoked (delivered_events removing_body 5 (ArgObject text_delivery)
              (fst (host_deliver removing_body 5 (ArgObject json_delivery)
                                 world_two_listeners))))).
Proof.
  split; [|split; [|split; [|split]]].
  - apply (proj1 (fanout_uses_live_set silent_body 2 0 json_delivery
                    world_two_listeners eq_refl)).
    + intros h w' _. reflexivity.
    + simpl. lia.
  - apply (proj1 (proj2 (fanout_uses_live_set adding_body 5 0 json_delivery
                           world_two_listeners eq_refl))).
    + reflexivity.
    + vm_compute. auto.
  - apply (proj1 (proj2 (proj2 (fanout_uses_live_set removing_body 5 0
                                  json_delivery world_two_listeners eq_refl)))
             1 2 0 1).
    + simpl. repeat constructor; simpl; intuition discriminate.
    + reflexivity.
    + reflexivity.
    + lia.
    + intros j h w' Hj. lia.
    + intros w'; reflexivity.
    + intros [|[|k]] w'; reflexivity.
  - destruct (proj1 (proj2 (proj2 (proj2
                (fanout_uses_live_set adding_body 5 0 json_delivery
                   world_two_listeners eq_refl)))) 1 3 0)
      as (Ev & _ & Next).
    + reflexivity.
    + intros j h w' Hj. lia.
    + reflexivity.
    + intros w'. reflexivity.
    + intros [|[|h]] w'; reflexivity.
    + intros w'. simpl. lia.
    + split; [exact Ev|]. apply Next.
      * intros [|[|h]] w'; reflexivity.
      * intros [|[|h]] w'; reflexivity.
      * vm_compute. lia.
  - destruct (proj2 (proj2 (proj2 (proj2
                (fanout_uses_live_set removing_body 5 0 json_delivery
                   world_two_listeners eq_refl)))) 1 2 0)
      as (Fin & Next).
    + reflexivity.
    + intros j h w' Hj. lia.
    + intros w'. reflexivity.
    + intros [|[|k]] w'; reflexivity.
    + lia.
    + split; [exact Fin|]. apply Next.
      * intros [|[|h]] w'; reflexivity.
      * intros [|[|k]] w'; reflexivity.
Defined.

Example stringify_ex1 :
  JSON_stringify (JObj [(lit "a", JNum 15 (-1)); (lit "b", JUndefined);
                        (lit "c", JArr [JUndefined; JStr (lit "x"); JNum 100 19])])
  = Some (litq "{'a':1.5,'c':[null,'x',1e+21]}").
Proof. vm_compute. reflexivity. Qed.

Example parse_ex1 :
  JSON_parse (litq " { 'a' : 1 , 'b':[true,false,null, -2.50e3 ], 'a': 'x\u0041\n' } ")
  = Some (JObj [(lit "a", JStr [120%N; 65%N; 10%N]);
                (lit "b", JArr [JBool true; JBool false; JNull; JNum (-250) 1])]).
Proof. vm_compute. reflexivity. Qed.

(** The world of the examples is what the module's own calls make. *)
Example world_two_listeners_made :
  fst (onMessage 0 2 (fst (onMessage 0 1 (fst (new_R1Messaging world_in_host)))))
  = world_two_listeners.
Proof. reflexivity. Qed.

Example sendMessage_undefined_flag :
  sendMessage (lit "hi") (Some [(lit "useLLM", JUndefined)]) world_in_host =
  (emit (EvPostMessage (JStr (litq "{'message':'hi'}"))) world_in_host, Normal tt).
Proof. vm_compute. reflexivity. Qed.

Example offMessage_then_delivery :
  invoked (delivered_events silent_body 2 (ArgObject json_delivery)
             (fst (offMessage 0 1 world_two_listeners))) = [2] /\
  invoked (delivered_events silent_body 2 (ArgObject json_delivery)
             (fst (removeAllHandlers 0 world_two_listeners))) = [].
Proof. split; reflexivity. Qed.

Example askLLMSpeak_text :
  fst (askLLMSpeak (lit "Tell me a joke") None world_in_host) =
  emit (EvPostMessage
          (JStr (litq "{'message':'Tell me a joke','useLLM':true,'wantsR1Response':true,'wantsJournalEntry':false}")))
       world_in_host.
Proof. vm_compute. reflexivity. Qed.

Example number_to_string_ex :
  map (fun p => number_to_string (fst p) (snd p))
      [(12, 0); (123456, -3); (123, -5); (1, -7); (5, 21); (-25, -1); (0, 3);
       (1200, -2)]%Z
  = map lit ["12"; "123.456"; "0.00123"; "1e-7"; "5e+21"; "-2.5"; "0"; "12"]%string.
Proof. vm_compute. reflexivity. Qed.

Example parse_ex2 : JSON_parse (lit "plain text") = None.
Proof. reflexivity. Qed.

Example parse_ex3 : JSON_parse [] = None.
Proof. reflexivity. Qed.

Example parse_ex4 : JSON_parse (lit "01") = None /\ JSON_parse (lit "[1,]") = None
  /\ JSON_parse (lit "1.") = None /\ JSON_parse (lit "{} x") = None
  /\ JSON_parse (lit "[[[[[[[[[[1]]]]]]]]]]") <> None
  /\ JSON_parse (lit "-") = None /\ JSON_parse (lit "tru") = None.
Proof. vm_compute. repeat split; congruence. Qed.
